(** * population_stat: the storage, ingestion and aggregation paths of app.py

    A shallow embedding of [src/app.py]: the [DatabaseManager] class
    (connection retry, [init_db], [save_data], [get_all_data],
    [get_aggregated_stats]) and the two extraction functions
    [fetch_api_data] and [get_population_world_bank], followed by the
    properties of the specification that concern them. *)

From Stdlib Require Import ZArith List Bool String Ascii Lia Permutation Sorted.
From Stdlib Require Import DecimalString.
From Stdlib Require Import Floats.PrimFloat Floats.SpecFloat Floats.FloatOps.
From Stdlib Require Import Floats.FloatAxioms.
Import ListNotations.

Local Open Scope string_scope.
Local Open Scope Z_scope.

(** ** Orderings whose ties are left open

    Neither PostgreSQL's [ORDER BY] nor pandas' [sort_values] (default
    [kind="quicksort"]) promises an order among rows with equal keys.  What
    they promise is a permutation of the input that is sorted on the key.  A
    [Sorter] is any procedure with these two guarantees; everything below that
    sorts is parameterised by one. *)

Definition key_le {A : Type} (key : A -> Z) (x y : A) : Prop := key x <= key y.

Class Sorter : Type := {
  sort_by : forall {A : Type}, (A -> Z) -> list A -> list A;
  sort_by_perm : forall (A : Type) (key : A -> Z) (l : list A),
      Permutation (sort_by key l) l;
  sort_by_sorted : forall (A : Type) (key : A -> Z) (l : list A),
      StronglySorted (key_le key) (sort_by key l)
}.

(** A sorter is stable when rows with equal keys keep their input order. *)
Definition stable (S : Sorter) : Prop :=
  forall (A : Type) (key : A -> Z) (l : list A) (k : Z),
    filter (fun x => key x =? k) (sort_by key l) = filter (fun x => key x =? k) l.

(** ** Python values, exceptions and the small error monad

    The decoded body of an HTTP response is a JSON value.  Objects are kept as
    association lists in which the first binding of a key is the one a lookup
    sees. *)

#[warnings="-register-all"]
Inductive json : Type :=
| JNull
| JBool (b : bool)
| JInt (z : Z)
| JFloat (f : float)
| JStr (s : string)
| JArr (items : list json)
| JObj (members : list (string * json)).

(** Storage errors raised by the database driver, by cause. *)
Inductive pg_error : Type :=
| StringDataRightTruncation (column : string) (limit : Z)
| NumericValueOutOfRange (column : string)
| UndefinedTable (table : string)
| SequenceGeneratorLimitExceeded (sequence : string)
| InFailedSqlTransaction.

Inductive exn : Type :=
| AttributeError (msg : string)
| KeyError (key : string)
| IndexError (msg : string)
| TypeError (msg : string)
| ValueError (msg : string)
| OverflowError (msg : string)
| RequestException (msg : string)
| OperationalError (msg : string)
| StorageError (cause : pg_error).

Inductive result (A : Type) : Type :=
| Ok (a : A)
| Raise (e : exn).

Arguments Ok {A} a.
Arguments Raise {A} e.

Definition bind {A B : Type} (c : result A) (k : A -> result B) : result B :=
  match c with
  | Ok a => k a
  | Raise e => Raise e
  end.

Notation "x <- c ;; k" := (bind c (fun x => k))
  (at level 61, c at next level, right associativity).

(** [mapM f l] runs [f] over [l] left to right and stops at the first
    exception, as a [for] loop whose body may raise. *)
Fixpoint mapM {A B : Type} (f : A -> result B) (l : list A) : result (list B) :=
  match l with
  | [] => Ok []
  | x :: l' => y <- f x ;; ys <- mapM f l' ;; Ok (y :: ys)
  end.

Definition pg_error_str (e : pg_error) : string :=
  match e with
  | StringDataRightTruncation _ _ => "value too long for type character varying"
  | NumericValueOutOfRange _ => "bigint out of range"
  | UndefinedTable t => "relation " ++ t ++ " does not exist"
  | SequenceGeneratorLimitExceeded q =>
      "nextval: reached maximum value of sequence " ++ q ++ " (2147483647)"
  | InFailedSqlTransaction =>
      "current transaction is aborted, commands ignored until end of transaction block"
  end.

(** [str(e)].  The text of a [KeyError] is the [repr] of the missing key. *)
Definition exn_str (e : exn) : string :=
  match e with
  | KeyError k => "'" ++ k ++ "'"
  | AttributeError m | IndexError m | TypeError m | ValueError m
  | OverflowError m | RequestException m | OperationalError m => m
  | StorageError c => pg_error_str c
  end.

(** What the user interface is told.  Only [st.error] occurs in the functions
    modelled here. *)
Inductive ui_event : Type :=
| st_error (msg : string).

(** *** Operations on decoded JSON *)

Fixpoint dict_lookup (members : list (string * json)) (k : string) : option json :=
  match members with
  | [] => None
  | (k', v) :: rest => if String.eqb k' k then Some v else dict_lookup rest k
  end.

(** [d.get(k, default)] on a dictionary. *)
Definition dict_get (members : list (string * json)) (k : string) (default : json) : json :=
  match dict_lookup members k with
  | Some v => v
  | None => default
  end.

Definition type_name (v : json) : string :=
  match v with
  | JNull => "NoneType"
  | JBool _ => "bool"
  | JInt _ => "int"
  | JFloat _ => "float"
  | JStr _ => "str"
  | JArr _ => "list"
  | JObj _ => "dict"
  end.

(** [v.get(k, default)]: only dictionaries have the method. *)
Definition py_get (v : json) (k : string) (default : json) : result json :=
  match v with
  | JObj members => Ok (dict_get members k default)
  | _ => Raise (AttributeError
                  ("'" ++ type_name v ++ "' object has no attribute 'get'"))
  end.

(** [v[k]] with a string subscript. *)
Definition py_getitem (v : json) (k : string) : result json :=
  match v with
  | JObj members =>
      match dict_lookup members k with
      | Some x => Ok x
      | None => Raise (KeyError k)
      end
  | JArr _ => Raise (TypeError "list indices must be integers or slices, not str")
  | JStr _ => Raise (TypeError "string indices must be integers, not 'str'")
  | _ => Raise (TypeError ("'" ++ type_name v ++ "' object is not subscriptable"))
  end.

(** [len(v)]. *)
Definition py_len (v : json) : result Z :=
  match v with
  | JArr items => Ok (Z.of_nat (List.length items))
  | JObj members => Ok (Z.of_nat (List.length members))
  | JStr s => Ok (Z.of_nat (String.length s))
  | _ => Raise (TypeError ("object of type '" ++ type_name v ++ "' has no len()"))
  end.

(** [v[1]].  The keys of a decoded JSON object are strings, so the integer
    subscript is never found in one. *)
Definition py_second (v : json) : result json :=
  match v with
  | JArr items =>
      match nth_error items 1 with
      | Some x => Ok x
      | None => Raise (IndexError "list index out of range")
      end
  | JStr s =>
      match String.get 1 s with
      | Some c => Ok (JStr (String c EmptyString))
      | None => Raise (IndexError "string index out of range")
      end
  | JObj _ => Raise (KeyError "1")
  | _ => Raise (TypeError ("'" ++ type_name v ++ "' object is not subscriptable"))
  end.

(** [for x in v]: the elements of a list, the keys of a dictionary, the
    characters of a string. *)
Definition py_iter (v : json) : result (list json) :=
  match v with
  | JArr items => Ok items
  | JObj members => Ok (map (fun kv => JStr (fst kv)) members)
  | JStr s => Ok (map (fun c => JStr (String c EmptyString)) (list_ascii_of_string s))
  | _ => Raise (TypeError ("'" ++ type_name v ++ "' object is not iterable"))
  end.

(** *** [int(v)] and [float(v)]

    The characters of a string are the code points U+0000 to U+00FF.  Among
    them [int] takes as white space the ASCII white space and the two other
    characters that are Unicode white space, U+0085 and U+00A0 (the
    separators U+001C to U+001F are not skipped), and as digits the ASCII
    digits, the only decimal digits of the range. *)

Definition is_space (c : ascii) : bool :=
  let n := nat_of_ascii c in
  (Nat.eqb n 32 || (Nat.leb 9 n && Nat.leb n 13) || Nat.eqb n 133 || Nat.eqb n 160)%bool.

Fixpoint lstrip (cs : list ascii) : list ascii :=
  match cs with
  | c :: cs' => if is_space c then lstrip cs' else cs
  | [] => []
  end.

Definition strip (cs : list ascii) : list ascii := rev (lstrip (rev (lstrip cs))).

Definition digit_of (c : ascii) : option Z :=
  let n := Z.of_nat (nat_of_ascii c) in
  if ((48 <=? n) && (n <=? 57))%bool then Some (n - 48) else None.

(** What follows a digit: further digits, each of which may be preceded by a
    single underscore. *)
Fixpoint digits (acc : Z) (cs : list ascii) : option Z :=
  match cs with
  | [] => Some acc
  | c :: cs' =>
      if Ascii.eqb c "_"%char then
        match cs' with
        | d :: cs'' =>
            match digit_of d with
            | Some v => digits (10 * acc + v) cs''
            | None => None
            end
        | [] => None
        end
      else
        match digit_of c with
        | Some v => digits (10 * acc + v) cs'
        | None => None
        end
  end.

Definition unsigned_of (cs : list ascii) : option Z :=
  match cs with
  | c :: cs' =>
      match digit_of c with
      | Some v => digits v cs'
      | None => None
      end
  | [] => None
  end.

(** The number of digits of a literal; underscores do not count. *)
Definition digit_count (cs : list ascii) : Z :=
  Z.of_nat (List.length (filter (fun c => negb (Ascii.eqb c "_"%char)) cs)).

(** [sys.get_int_max_str_digits()], at its default. *)
Definition max_str_digits : Z := 4300.

Definition str_of_Z (z : Z) : string := NilZero.string_of_int (Z.to_int z).

(** [int(s)] in base 10: white space, an optional sign, digits that single
    underscores may group, white space.  A literal of more digits than the
    interpreter's limit is refused. *)
Definition int_of_str (s : string) : result Z :=
  let cs := strip (list_ascii_of_string s) in
  let signed := match cs with
                | "-"%char :: ds => (true, ds)
                | "+"%char :: ds => (false, ds)
                | ds => (false, ds)
                end in
  match unsigned_of (snd signed) with
  | Some z =>
      if max_str_digits <? digit_count (snd signed)
      then Raise (ValueError
                    ("Exceeds the limit (4300 digits) for integer string conversion: value has "
                     ++ str_of_Z (digit_count (snd signed))
                     ++ " digits; use sys.set_int_max_str_digits() to increase the limit"))
      else Ok (if fst signed then - z else z)
  | None => Raise (ValueError ("invalid literal for int() with base 10: '" ++ s ++ "'"))
  end.

(** Truncation toward zero of a binary64 value. *)
Definition int_of_float (f : float) : result Z :=
  match Prim2SF f with
  | S754_zero _ => Ok 0
  | S754_infinity _ => Raise (OverflowError "cannot convert float infinity to integer")
  | S754_nan => Raise (ValueError "cannot convert float NaN to integer")
  | S754_finite s m e =>
      let v := if 0 <=? e then Z.pos m * 2 ^ e else Z.pos m / 2 ^ (- e) in
      Ok (if s then - v else v)
  end.

Definition py_int (v : json) : result Z :=
  match v with
  | JInt z => Ok z
  | JBool b => Ok (if b then 1 else 0)
  | JFloat f => int_of_float f
  | JStr s => int_of_str s
  | _ => Raise (TypeError
                  ("int() argument must be a string, a bytes-like object or a real number, not '"
                   ++ type_name v ++ "'"))
  end.

(** The binary64 value nearest to an integer, ties to even, infinite beyond
    the range of the format. *)
Definition float_of_Z (z : Z) : float := SF2Prim (binary_normalize prec emax z 0 false).

(** *** Data frames

    A frame is its column labels and its rows in index order.  [pd.DataFrame()]
    has neither; a frame built from a list of dictionaries takes its columns
    from their keys, so from an empty list it has none. *)

Record DataFrame (R : Type) : Type := {
  columns : list string;
  records : list R
}.

Arguments columns {R} d.
Arguments records {R} d.

Definition empty_frame {R : Type} : DataFrame R := {| columns := []; records := [] |}.

(** [df.empty] *)
Definition df_empty {R : Type} (df : DataFrame R) : bool :=
  match records df with
  | [] => true
  | _ => false
  end.

(** [len(df)] *)
Definition df_len {R : Type} (df : DataFrame R) : nat := List.length (records df).

(** [list(df.itertuples(index=False, name=None))] *)
Definition itertuples {R : Type} (df : DataFrame R) : list R := records df.

(** [df.sort_values(by)], ascending: a [KeyError] when the frame has no such
    column. *)
Definition sort_values {S : Sorter} {R : Type}
    (by_ : string) (key : R -> Z) (df : DataFrame R) : result (DataFrame R) :=
  if existsb (String.eqb by_) (columns df)
  then Ok {| columns := columns df; records := sort_by key (records df) |}
  else Raise (KeyError by_).

(** ** The two external sources

    The network answers a GET request with a response or with a transport
    failure.  A response has a status code and a body that may or may not
    decode as JSON. *)

Record Response : Type := {
  status_code : Z;
  response_json : result json
}.

Definition Network : Type := string -> result Response.

Definition requests_get (net : Network) (url : string) : result Response := net url.

Definition raise_for_status (r : Response) : result unit :=
  if ((400 <=? status_code r) && (status_code r <? 600))%bool
  then Raise (RequestException "HTTPError")
  else Ok tt.

(** *** fetch_api_data *)

Record CountryTuple : Type := {
  t_name : json;
  t_cca2 : json;
  t_cca3 : json;
  t_region : json;
  t_population : json;
  t_area : json
}.

Definition country_columns : list string :=
  ["name"; "cca2"; "cca3"; "region"; "population"; "area"].

Definition restcountries_url : string :=
  "https://restcountries.com/v3.1/all?fields=name,cca2,cca3,population,region,area".

(** The tuple appended for one [item] of the response. *)
Definition country_tuple (item : json) : result CountryTuple :=
  name_obj <- py_get item "name" (JObj []) ;;
  common <- py_get name_obj "common" (JStr "N/A") ;;
  c2 <- py_get item "cca2" (JStr "") ;;
  c3 <- py_get item "cca3" (JStr "") ;;
  reg <- py_get item "region" (JStr "Other") ;;
  pop <- py_get item "population" (JInt 0) ;;
  ar <- py_get item "area" (JInt 0) ;;
  Ok {| t_name := common; t_cca2 := c2; t_cca3 := c3;
        t_region := reg; t_population := pop; t_area := ar |}.

Definition fetch_api_data (net : Network) : DataFrame CountryTuple * list ui_event :=
  let attempt : result (DataFrame CountryTuple) :=
    response <- requests_get net restcountries_url ;;
    _ <- raise_for_status response ;;
    data <- response_json response ;;
    items <- py_iter data ;;
    countries_list <- mapM country_tuple items ;;
    Ok {| columns := country_columns; records := countries_list |}
  in
  match attempt with
  | Ok df => (df, [])
  | Raise e => (empty_frame, [st_error ("Error fetching API: " ++ exn_str e)])
  end.

(** *** get_population_world_bank *)

Record HistoryPoint : Type := {
  hp_country : json;
  hp_year : Z;
  hp_population : json
}.

Definition history_columns : list string := ["country"; "year"; "population"].

Definition world_bank_url (country_code : string) : string :=
  "https://api.worldbank.org/v2/country/" ++ country_code ++ "/indicator/SP.POP.TOTL".

(** One turn of the loop over [data[1]]: the row appended for [entry], if any. *)
Definition history_row (entry : json) : result (option HistoryPoint) :=
  v <- py_getitem entry "value" ;;
  match v with
  | JNull => Ok None
  | _ =>
      c <- py_getitem entry "country" ;;
      label <- py_getitem c "value" ;;
      d <- py_getitem entry "date" ;;
      y <- py_int d ;;
      p <- py_getitem entry "value" ;;
      Ok (Some {| hp_country := label; hp_year := y; hp_population := p |})
  end.

Fixpoint history_rows (entries : list json) : result (list HistoryPoint) :=
  match entries with
  | [] => Ok []
  | entry :: rest =>
      r <- history_row entry ;;
      rows <- history_rows rest ;;
      Ok (match r with Some p => p :: rows | None => rows end)
  end.

(** [pd.DataFrame(rows)] for a list of dictionaries with the three keys. *)
Definition frame_of_rows (rows : list HistoryPoint) : DataFrame HistoryPoint :=
  {| columns := match rows with [] => [] | _ => history_columns end;
     records := rows |}.

Definition get_population_world_bank {S : Sorter} (net : Network) (country_code : string)
  : option (DataFrame HistoryPoint) * list ui_event :=
  let attempt : result (option (DataFrame HistoryPoint)) :=
    response <- requests_get net (world_bank_url country_code) ;;
    _ <- raise_for_status response ;;
    data <- response_json response ;;
    n <- py_len data ;;
    if 1 <? n then
      second <- py_second data ;;
      match second with
      | JArr entries =>
          rows <- history_rows entries ;;
          df <- sort_values "year" hp_year (frame_of_rows rows) ;;
          Ok (Some df)
      | _ => Ok None
      end
    else Ok None
  in
  match attempt with
  | Ok r => (r, [])
  | Raise e => (None, [st_error ("World Bank API error: " ++ exn_str e)])
  end.

(** ** The relational store

    One table, [countries(id, name, cca2, cca3, region, population, area)].
    The four text columns are nullable [VARCHAR]s, [population] is a [BIGINT]
    and [area] a [FLOAT]; [id] is drawn from the table's [SERIAL] sequence.
    A text value is a sequence of characters and its length their number.
    As in the data model of the specification, every row has a population and
    an area: the two numeric columns are never [NULL].  The rows of a table
    are kept in insertion (heap) order.  [last_id] is the value the sequence
    issued last; the sequence of a [SERIAL] column stops at 2147483647.
    Identifiers lost to rolled-back transactions are not modelled: nothing
    below gets out of an aborted transaction. *)

Record CountryRecord : Type := {
  name : option string;
  cca2 : option string;
  cca3 : option string;
  region : option string;
  population : Z;
  area : float
}.

Record StoredRow : Type := {
  row_id : Z;
  fields : CountryRecord
}.

Record Table : Type := {
  heap : list StoredRow;
  last_id : Z
}.

(** A connection of the driver: what is committed on the server, and the
    state of the transaction the driver opens implicitly at the first
    statement and keeps open until [commit]. *)
Inductive txn_status : Type :=
| Idle
| InTransaction (work : option Table)
| Aborted.

Record Connection : Type := {
  committed : option Table;
  status : txn_status
}.

(** A statement maps the table as the transaction sees it ([None]: no such
    table) to a result and the table afterwards, or fails. *)
Definition statement (A : Type) : Type := option Table -> result (A * option Table).

(** [cur.execute(...)]: opens a transaction if none is open; a failing
    statement leaves the transaction aborted, and in an aborted transaction
    every statement fails. *)
Definition execute {A : Type} (stmt : statement A) (c : Connection)
  : result A * Connection :=
  match status c with
  | Aborted => (Raise (StorageError InFailedSqlTransaction), c)
  | Idle | InTransaction _ =>
      let seen := match status c with
                  | InTransaction w => w
                  | _ => committed c
                  end in
      match stmt seen with
      | Ok (a, w') => (Ok a, {| committed := committed c; status := InTransaction w' |})
      | Raise e => (Raise e, {| committed := committed c; status := Aborted |})
      end
  end.

(** [conn.commit()]: makes the open transaction's work the committed state;
    ends an aborted transaction by discarding it. *)
Definition commit (c : Connection) : Connection :=
  match status c with
  | InTransaction w => {| committed := w; status := Idle |}
  | Idle | Aborted => {| committed := committed c; status := Idle |}
  end.

(** *** Column types *)

Definition int64_min : Z := - 2 ^ 63.
Definition int64_max : Z := 2 ^ 63 - 1.

Definition all_spaces (s : string) : bool :=
  forallb (fun c => Ascii.eqb c " "%char) (list_ascii_of_string s).

(** Assignment to a [VARCHAR(limit)] column: a longer string is an error
    unless the excess is all spaces, in which case it is cut to the limit.
    (A text with the character NUL never gets this far: the driver refuses
    it, see [mogrify] below.) *)
Definition store_varchar (column : string) (limit : nat) (v : option string)
  : result (option string) :=
  match v with
  | None => Ok None
  | Some s =>
      if Nat.leb (String.length s) limit then Ok (Some s)
      else if all_spaces (substring limit (String.length s - limit) s)
           then Ok (Some (substring 0 limit s))
           else Raise (StorageError (StringDataRightTruncation column (Z.of_nat limit)))
  end.

Definition store_bigint (column : string) (v : Z) : result Z :=
  if ((int64_min <=? v) && (v <=? int64_max))%bool then Ok v
  else Raise (StorageError (NumericValueOutOfRange column)).

(** The values one parameter tuple leaves in the columns. *)
Definition store_record (r : CountryRecord) : result CountryRecord :=
  n <- store_varchar "name" 255 (name r) ;;
  c2 <- store_varchar "cca2" 10 (cca2 r) ;;
  c3 <- store_varchar "cca3" 10 (cca3 r) ;;
  reg <- store_varchar "region" 100 (region r) ;;
  pop <- store_bigint "population" (population r) ;;
  Ok {| name := n; cca2 := c2; cca3 := c3; region := reg;
        population := pop; area := area r |}.

(** *** The driver's adaptation of parameters

    Before a statement is sent the driver turns each of its parameters into
    an SQL literal.  A string that contains the character NUL has no literal:
    the driver raises [ValueError], and nothing is sent. *)

Definition has_nul (s : string) : bool :=
  existsb (Ascii.eqb Ascii.zero) (list_ascii_of_string s).

Definition nul_in_literal : exn :=
  ValueError "A string literal cannot contain NUL (0x00) characters.".

Definition adapt_text (v : option string) : result unit :=
  match v with
  | Some s => if has_nul s then Raise nul_in_literal else Ok tt
  | None => Ok tt
  end.

(** The literals of one parameter tuple. *)
Definition mogrify (r : CountryRecord) : result unit :=
  _ <- adapt_text (name r) ;;
  _ <- adapt_text (cca2 r) ;;
  _ <- adapt_text (cca3 r) ;;
  adapt_text (region r).

(** *** Statements of the write path *)

(** The greatest identifier the sequence of [id SERIAL] issues. *)
Definition serial_max : Z := 2147483647.

(** [CREATE TABLE IF NOT EXISTS countries (...); TRUNCATE TABLE countries;] *)
Definition create_and_truncate : statement unit :=
  fun seen =>
    let created := match seen with
                   | Some t => t
                   | None => {| heap := []; last_id := 0 |}
                   end in
    Ok (tt, Some {| heap := []; last_id := last_id created |}).

(** [INSERT INTO countries (name, cca2, cca3, region, population, area)
    VALUES (%s, %s, %s, %s, %s, %s)] for one parameter tuple: the values are
    brought to the types of their columns, then the row takes the next
    identifier of the sequence, if there is one left. *)
Definition insert_row (r : CountryRecord) : statement unit :=
  fun seen =>
    match seen with
    | None => Raise (StorageError (UndefinedTable "countries"))
    | Some t =>
        stored <- store_record r ;;
        if last_id t <? serial_max then
          let next := last_id t + 1 in
          Ok (tt, Some {| heap := heap t ++ [{| row_id := next; fields := stored |}];
                          last_id := next |})
        else Raise (StorageError (SequenceGeneratorLimitExceeded "countries_id_seq"))
    end.

(** *** The storage engine

    What the queries leave to the engine: the order in which a scan of the
    table delivers the rows, and the order of ties in every [ORDER BY]. *)

Class Engine : Type := {
  order_by : Sorter;
  seq_scan : list StoredRow -> list StoredRow;
  seq_scan_perm : forall l : list StoredRow, Permutation (seq_scan l) l
}.

(** *** Statements of the read paths *)

(** [SELECT name, cca2, cca3, region, population, area FROM countries] *)
Definition select_all {E : Engine} : statement (DataFrame CountryRecord) :=
  fun seen =>
    match seen with
    | None => Raise (StorageError (UndefinedTable "countries"))
    | Some t =>
        Ok ({| columns := country_columns; records := map fields (seq_scan (heap t)) |},
            seen)
    end.

(** [WHERE region IS NOT NULL AND region != ''] *)
Definition where_region (r : StoredRow) : bool :=
  match region (fields r) with
  | Some s => negb (String.eqb s "")
  | None => false
  end.

Definition region_of (r : StoredRow) : string :=
  match region (fields r) with
  | Some s => s
  | None => ""
  end.

(** [PARTITION BY region] *)
Definition partition_by_region (g : string) (rows : list StoredRow) : list StoredRow :=
  filter (fun r => String.eqb (region_of r) g) rows.

(** [SUM(population)] over a set of rows. *)
Definition sum_population (rows : list StoredRow) : Z :=
  fold_right (fun r acc => population (fields r) + acc) 0 rows.

(** [ROW_NUMBER()] over rows already in window order. *)
Definition row_number {A : Type} (l : list A) : list (A * nat) :=
  combine l (seq 1 (List.length l)).

(** A row of the [ranked] common table expression. *)
Record Ranked : Type := {
  rk_region : string;
  rk_name : option string;
  rk_population : Z;
  total_pop : Z;
  rank_desc : nat;
  rank_asc : nat
}.

(** The partition in the order of [ORDER BY population DESC], as the engine
    produces it. *)
Definition window_desc {E : Engine} (part : list StoredRow) : list StoredRow :=
  sort_by (Sorter := order_by) (fun r => - population (fields r)) part.

(** The rows, each with its [rank_desc], in the order of [ORDER BY population
    ASC]: the second window is sorted from the output of the first. *)
Definition window_asc {E : Engine} (part : list StoredRow) : list (StoredRow * nat) :=
  sort_by (Sorter := order_by)
          (fun x : StoredRow * nat => population (fields (fst x)))
          (row_number (window_desc part)).

(** The three window functions over one partition: the sum over the whole
    partition, and the row number in descending and in ascending order of
    population. *)
Definition ranked_partition {E : Engine} (part : list StoredRow) : list Ranked :=
  let total := sum_population part in
  map (fun x : StoredRow * nat * nat =>
         {| rk_region := region_of (fst (fst x));
            rk_name := name (fields (fst (fst x)));
            rk_population := population (fields (fst (fst x)));
            total_pop := total;
            rank_desc := snd (fst x);
            rank_asc := snd x |})
      (row_number (window_asc part)).

Definition ranked {E : Engine} (rows : list StoredRow) : list Ranked :=
  let filtered := filter where_region rows in
  flat_map (fun g => ranked_partition (partition_by_region g filtered))
           (nodup string_dec (map region_of filtered)).

(** [MAX] over a column that may hold [NULL]s: the greatest of the values that
    are not [NULL], and [NULL] when there is none. *)
Definition greater_text (a b : option string) : option string :=
  match a, b with
  | None, _ => b
  | _, None => a
  | Some x, Some y => Some (if String.leb x y then y else x)
  end.

Definition greater_int (a b : option Z) : option Z :=
  match a, b with
  | None, _ => b
  | _, None => a
  | Some x, Some y => Some (Z.max x y)
  end.

Definition sql_max_text (l : list (option string)) : option string :=
  fold_right greater_text None l.

Definition sql_max_int (l : list (option Z)) : option Z :=
  fold_right greater_int None l.

(** A row of the result set of the query.  [SUM] over a [BIGINT] column is a
    [numeric], an exact integer of any size; the two [MAX] over [population]
    are [BIGINT]s. *)
Record ResultRow : Type := {
  rr_region : string;
  rr_total_pop : Z;
  rr_largest_country : option string;
  rr_population_max : option Z;
  rr_smallest_country : option string;
  rr_population_min : option Z
}.

(** A row of the report, as the frame holds it.  The columns are labelled
    "Регіон", "Загальне населення", "Найбільша країна", "Населення (max)",
    "Найменша країна" and "Населення (min)".  The total is a binary64 number:
    the driver delivers a [numeric] as a [Decimal], and [pd.read_sql_query]
    (with [coerce_float=True], its default) converts such a column to
    [float64]. *)
Record RegionSummary : Type := {
  rs_region : string;
  total_population : float;
  largest_country : option string;
  population_max : option Z;
  smallest_country : option string;
  population_min : option Z
}.

Definition summary_columns : list string :=
  ["Регіон"; "Загальне населення"; "Найбільша країна"; "Населення (max)";
   "Найменша країна"; "Населення (min)"].

Definition group_key_dec (x y : string * Z) : {x = y} + {x <> y}.
Proof. decide equality; [apply Z.eq_dec | apply string_dec]. Defined.

(** [GROUP BY region, total_pop] *)
Definition group_keys (rk : list Ranked) : list (string * Z) :=
  nodup group_key_dec (map (fun x => (rk_region x, total_pop x)) rk).

Definition in_group (key : string * Z) (x : Ranked) : bool :=
  (String.eqb (rk_region x) (fst key) && (total_pop x =? snd key))%bool.

(** [CASE WHEN rank = 1 THEN v END] *)
Definition case_rank_1 {V : Type} (rank : nat) (v : option V) : option V :=
  if Nat.eqb rank 1 then v else None.

(** The select list, evaluated over one group. *)
Definition summarise (rk : list Ranked) (key : string * Z) : ResultRow :=
  let grp := filter (in_group key) rk in
  {| rr_region := fst key;
     rr_total_pop := snd key;
     rr_largest_country :=
       sql_max_text (map (fun x => case_rank_1 (rank_desc x) (rk_name x)) grp);
     rr_population_max :=
       sql_max_int (map (fun x => case_rank_1 (rank_desc x) (Some (rk_population x))) grp);
     rr_smallest_country :=
       sql_max_text (map (fun x => case_rank_1 (rank_asc x) (rk_name x)) grp);
     rr_population_min :=
       sql_max_int (map (fun x => case_rank_1 (rank_asc x) (Some (rk_population x))) grp) |}.

(** The result set of the aggregation query over the rows of the table, in
    the order of [ORDER BY total_pop DESC]. *)
Definition result_set {E : Engine} (rows : list StoredRow) : list ResultRow :=
  let rk := ranked (seq_scan rows) in
  sort_by (Sorter := order_by) (fun s => - rr_total_pop s)
          (map (summarise rk) (group_keys rk)).

(** The row of the frame for a row of the result set: the [Decimal] of the
    total becomes the nearest [float64], the other columns are kept. *)
Definition coerce_float (s : ResultRow) : RegionSummary :=
  {| rs_region := rr_region s;
     total_population := float_of_Z (rr_total_pop s);
     largest_country := rr_largest_country s;
     population_max := rr_population_max s;
     smallest_country := rr_smallest_country s;
     population_min := rr_population_min s |}.

(** The rows of the frame built from the result set. *)
Definition aggregate_rows {E : Engine} (rows : list StoredRow) : list RegionSummary :=
  map coerce_float (result_set rows).

(** [WITH ranked AS (...) SELECT ... FROM ranked GROUP BY region, total_pop
    ORDER BY total_pop DESC] *)
Definition aggregated_stats_query {E : Engine} : statement (DataFrame RegionSummary) :=
  fun seen =>
    match seen with
    | None => Raise (StorageError (UndefinedTable "countries"))
    | Some t =>
        Ok ({| columns := summary_columns; records := aggregate_rows (heap t) |}, seen)
    end.

(** ** DatabaseManager

    The methods run in a state-and-exception monad over the manager: a method
    either returns or raises, and either way leaves the manager (and through
    its connection the store) in some state. *)

Record DatabaseManager : Type := {
  host : string;
  database : string;
  user : string;
  password : string;
  conn : option Connection
}.

Definition with_conn (self : DatabaseManager) (c : option Connection) : DatabaseManager :=
  {| host := host self; database := database self; user := user self;
     password := password self; conn := c |}.

Definition M (A : Type) : Type := DatabaseManager -> result A * DatabaseManager.

Definition ret {A : Type} (a : A) : M A := fun self => (Ok a, self).

Definition bindM {A B : Type} (c : M A) (k : A -> M B) : M B :=
  fun self =>
    match c self with
    | (Ok a, self') => k a self'
    | (Raise e, self') => (Raise e, self')
    end.

Notation "x <<- c ;; k" := (bindM c (fun x => k))
  (at level 61, c at next level, right associativity).

Definition no_cursor : exn :=
  AttributeError "'NoneType' object has no attribute 'cursor'".

(** [self.conn.cursor()]: with [self.conn] still [None] the attribute lookup
    fails. *)
Definition conn_cursor : M unit :=
  fun self =>
    match conn self with
    | Some _ => (Ok tt, self)
    | None => (Raise no_cursor, self)
    end.

(** A statement run on the connection of the manager. *)
Definition on_conn {A : Type} (op : Connection -> result A * Connection) : M A :=
  fun self =>
    match conn self with
    | Some c => let (r, c') := op c in (r, with_conn self (Some c'))
    | None => (Raise no_cursor, self)
    end.

Definition cur_execute {A : Type} (stmt : statement A) : M A := on_conn (execute stmt).

(** [cur.executemany(query, data_tuples)] on a connection: the statement is
    adapted and executed once per tuple, in order, and the first exception
    ends the loop.  A tuple the driver cannot adapt raises before anything is
    sent for it, so the transaction stays as the tuples before it left it; a
    statement the server rejects leaves the transaction aborted. *)
Fixpoint executemany (data_tuples : list CountryRecord) (c : Connection)
  : result unit * Connection :=
  match data_tuples with
  | [] => (Ok tt, c)
  | params :: rest =>
      match mogrify params with
      | Raise e => (Raise e, c)
      | Ok _ =>
          match execute (insert_row params) c with
          | (Ok _, c') => executemany rest c'
          | (Raise e, c') => (Raise e, c')
          end
      end
  end.

Definition cur_executemany (data_tuples : list CountryRecord) : M unit :=
  on_conn (executemany data_tuples).

Definition conn_commit : M unit := on_conn (fun c => (Ok tt, commit c)).

(** [pd.read_sql_query(query, self.conn)]: a cursor on the connection, the
    query executed on it, the rows fetched; nothing is committed. *)
Definition read_sql_query {A : Type} (query : statement A) : M A :=
  _ <<- conn_cursor ;;
  cur_execute query.

Definition init_db : M unit :=
  _ <<- conn_cursor ;;
  _ <<- cur_execute create_and_truncate ;;
  conn_commit.

Definition save_data (df : DataFrame CountryRecord) : M unit :=
  _ <<- init_db ;;
  let data_tuples := itertuples df in
  _ <<- conn_cursor ;;
  _ <<- cur_executemany data_tuples ;;
  conn_commit.

Definition get_all_data {E : Engine} : M (DataFrame CountryRecord) :=
  read_sql_query select_all.

Definition get_aggregated_stats {E : Engine} : M (DataFrame RegionSummary) :=
  read_sql_query aggregated_stats_query.

(** *** Construction and the connection retries

    The world outside the manager: the process environment, the answer of the
    server to each successive connection attempt, and what has been observed so
    far (attempts made, seconds slept, messages shown). *)

Record World : Type := {
  environ : string -> option string;
  pg_answers : nat -> result Connection;
  connect_calls : nat;
  slept : Z;
  shown : list ui_event
}.

Definition os_getenv (w : World) (key default : string) : string :=
  match environ w key with
  | Some v => v
  | None => default
  end.

Definition psycopg2_connect (self : DatabaseManager) (w : World) : result Connection * World :=
  (pg_answers w (connect_calls w),
   {| environ := environ w; pg_answers := pg_answers w;
      connect_calls := S (connect_calls w); slept := slept w; shown := shown w |}).

Definition time_sleep (seconds : Z) (w : World) : World :=
  {| environ := environ w; pg_answers := pg_answers w;
     connect_calls := connect_calls w; slept := slept w + seconds; shown := shown w |}.

Definition show (ev : ui_event) (w : World) : World :=
  {| environ := environ w; pg_answers := pg_answers w;
     connect_calls := connect_calls w; slept := slept w; shown := shown w ++ [ev] |}.

Definition connect_failed : string := "❌ Не вдалося підключитися до бази даних.".

(** The loop [for i in range(n)] of [_connect] and the statement after it. *)
Fixpoint connect_attempts (n : nat) (self : DatabaseManager) (w : World)
  : DatabaseManager * World :=
  match n with
  | O => (self, show (st_error connect_failed) w)
  | S n' =>
      match psycopg2_connect self w with
      | (Ok c, w') => (with_conn self (Some c), w')
      | (Raise _, w') => connect_attempts n' self (time_sleep 2 w')
      end
  end.

Definition _connect (self : DatabaseManager) (w : World) : DatabaseManager * World :=
  connect_attempts 5 self w.

Definition __init__ (w : World) : DatabaseManager * World :=
  _connect {| host := os_getenv w "DB_HOST" "localhost";
              database := os_getenv w "DB_NAME" "population_db";
              user := os_getenv w "DB_USER" "user";
              password := os_getenv w "DB_PASS" "password";
              conn := None |} w.

(** * Properties *)

(** ** Two engines

    Insertion sort keeps ties in input order; run on the reversed input it
    lists them last-come first.  Both are sorters, and with a scan in
    insertion order both are engines. *)

Module InsertionSort.

Fixpoint insert {A : Type} (key : A -> Z) (x : A) (l : list A) : list A :=
  match l with
  | [] => [x]
  | y :: l' => if key x <=? key y then x :: y :: l' else y :: insert key x l'
  end.

Definition isort {A : Type} (key : A -> Z) (l : list A) : list A :=
  fold_right (insert key) [] l.

Lemma insert_perm {A : Type} (key : A -> Z) (x : A) (l : list A) :
  Permutation (insert key x l) (x :: l).
Proof.
  induction l as [|y l IH]; simpl.
  - apply Permutation_refl.
  - destruct (key x <=? key y).
    + apply Permutation_refl.
    + eapply perm_trans; [apply perm_skip, IH | apply perm_swap].
Qed.

Lemma isort_perm {A : Type} (key : A -> Z) (l : list A) :
  Permutation (isort key l) l.
Proof.
  induction l as [|x l IH]; simpl.
  - constructor.
  - eapply perm_trans; [apply insert_perm | apply perm_skip, IH].
Qed.

Lemma insert_sorted {A : Type} (key : A -> Z) (x : A) (l : list A) :
  StronglySorted (key_le key) l -> StronglySorted (key_le key) (insert key x l).
Proof.
  induction 1 as [|y l Hs IH Hy]; simpl.
  - repeat constructor.
  - destruct (key x <=? key y) eqn:E.
    + apply Z.leb_le in E.
      constructor; [constructor; assumption|].
      constructor; [exact E|].
      eapply Forall_impl; [|exact Hy].
      unfold key_le; intros; lia.
    + apply Z.leb_gt in E.
      constructor; [exact IH|].
      apply (Permutation_Forall (Permutation_sym (insert_perm key x l))).
      constructor; [unfold key_le; lia | exact Hy].
Qed.

Lemma isort_sorted {A : Type} (key : A -> Z) (l : list A) :
  StronglySorted (key_le key) (isort key l).
Proof.
  induction l as [|x l IH]; simpl.
  - constructor.
  - apply insert_sorted, IH.
Qed.

Lemma insert_filter {A : Type} (key : A -> Z) (x : A) (l : list A) (k : Z) :
  filter (fun y => key y =? k) (insert key x l)
  = filter (fun y => key y =? k) (x :: l).
Proof.
  induction l as [|y l IH].
  - reflexivity.
  - cbn [insert]. destruct (key x <=? key y) eqn:E; [reflexivity|].
    apply Z.leb_gt in E.
    cbn [filter] in *. rewrite IH.
    destruct (key x =? k) eqn:Ex, (key y =? k) eqn:Ey; try reflexivity.
    apply Z.eqb_eq in Ex, Ey. lia.
Qed.

Lemma isort_filter {A : Type} (key : A -> Z) (l : list A) (k : Z) :
  filter (fun y => key y =? k) (isort key l) = filter (fun y => key y =? k) l.
Proof.
  induction l as [|x l IH].
  - reflexivity.
  - cbn [isort fold_right]. rewrite insert_filter.
    cbn [filter]. fold (isort key l). rewrite IH. reflexivity.
Qed.

End InsertionSort.

(** The stable sorter: ties stay in input order. *)
Definition stable_sorter : Sorter := {|
  sort_by := @InsertionSort.isort;
  sort_by_perm := @InsertionSort.isort_perm;
  sort_by_sorted := @InsertionSort.isort_sorted
|}.

(** A sorter as legitimate as the first one that lists ties in the reverse of
    their input order. *)
Definition rsort {A : Type} (key : A -> Z) (l : list A) : list A :=
  InsertionSort.isort key (rev l).

Lemma rsort_perm (A : Type) (key : A -> Z) (l : list A) :
  Permutation (rsort key l) l.
Proof.
  unfold rsort. eapply perm_trans; [apply InsertionSort.isort_perm|].
  apply Permutation_sym, Permutation_rev.
Qed.

Lemma rsort_sorted (A : Type) (key : A -> Z) (l : list A) :
  StronglySorted (key_le key) (rsort key l).
Proof. apply InsertionSort.isort_sorted. Qed.

Definition reversing_sorter : Sorter := {|
  sort_by := @rsort;
  sort_by_perm := rsort_perm;
  sort_by_sorted := rsort_sorted
|}.

Lemma stable_sorter_stable : stable stable_sorter.
Proof. intros A key l k. apply InsertionSort.isort_filter. Qed.

(** An engine that scans in insertion order and sorts stably. *)
Definition heap_order_engine : Engine := {|
  order_by := stable_sorter;
  seq_scan := fun l => l;
  seq_scan_perm := fun l => Permutation_refl l
|}.

(** An engine that scans in insertion order and lists ties last-come first. *)
Definition reversing_engine : Engine := {|
  order_by := reversing_sorter;
  seq_scan := fun l => l;
  seq_scan_perm := fun l => Permutation_refl l
|}.

(** ** Connection retries *)

Definition failed_at (w : World) (j : nat) : Prop :=
  exists e, pg_answers w (connect_calls w + j)%nat = Raise e.

(** The world after [k] connection attempts, [d] seconds of sleep and the
    messages [evs]. *)
Definition advance (w : World) (k : nat) (d : Z) (evs : list ui_event) : World :=
  {| environ := environ w; pg_answers := pg_answers w;
     connect_calls := (connect_calls w + k)%nat; slept := slept w + d;
     shown := shown w ++ evs |}.

Lemma advance_0 (w : World) : advance w 0 0 [] = w.
Proof.
  destruct w; unfold advance; cbn [environ pg_answers connect_calls slept shown].
  rewrite Nat.add_0_r, Z.add_0_r, app_nil_r. reflexivity.
Qed.

Lemma connect_attempts_all_fail (n : nat) (self : DatabaseManager) (w : World) :
  (forall j, (j < n)%nat -> failed_at w j) ->
  connect_attempts n self w
  = (self, advance w n (2 * Z.of_nat n) [st_error connect_failed]).
Proof.
  revert w. induction n as [|n IH]; intros w Hfail.
  - cbn [connect_attempts]. f_equal.
    destruct w; unfold advance, show; cbn [environ pg_answers connect_calls slept shown]. rewrite Nat.add_0_r, Z.add_0_r. reflexivity.
  - cbn [connect_attempts]. unfold psycopg2_connect.
    destruct (Hfail 0%nat (Nat.lt_0_succ n)) as [e He].
    rewrite Nat.add_0_r in He. rewrite He.
    rewrite IH.
    + f_equal. destruct w; unfold advance, time_sleep; cbn [environ pg_answers connect_calls slept shown].
      f_equal; lia.
    + intros j Hj. destruct (Hfail (S j) (proj1 (Nat.succ_lt_mono j n) Hj)) as [e' He'].
      exists e'. cbn [environ pg_answers connect_calls slept shown time_sleep]. rewrite <- He'. f_equal. lia.
Qed.

Lemma connect_attempts_first_success
    (n k : nat) (c : Connection) (self : DatabaseManager) (w : World) :
  (k < n)%nat ->
  (forall j, (j < k)%nat -> failed_at w j) ->
  pg_answers w (connect_calls w + k)%nat = Ok c ->
  connect_attempts n self w
  = (with_conn self (Some c), advance w (S k) (2 * Z.of_nat k) []).
Proof.
  revert k w. induction n as [|n IH]; intros k w Hk Hfail Hok; [lia|].
  cbn [connect_attempts]. unfold psycopg2_connect.
  destruct k as [|k].
  - rewrite Nat.add_0_r in Hok. rewrite Hok. f_equal.
    destruct w; unfold advance; cbn [environ pg_answers connect_calls slept shown]. rewrite Z.add_0_r, app_nil_r. f_equal. lia.
  - destruct (Hfail 0%nat (Nat.lt_0_succ k)) as [e He].
    rewrite Nat.add_0_r in He. rewrite He.
    rewrite (IH k).
    + f_equal. destruct w; unfold advance, time_sleep; cbn [environ pg_answers connect_calls slept shown]. f_equal; lia.
    + lia.
    + intros j Hj. destruct (Hfail (S j) (proj1 (Nat.succ_lt_mono j k) Hj)) as [e' He'].
      exists e'. cbn [environ pg_answers connect_calls slept shown time_sleep]. rewrite <- He'. f_equal. lia.
    + cbn [environ pg_answers connect_calls slept shown time_sleep]. rewrite <- Hok. f_equal. lia.
Qed.

Lemma connect_attempts_bound (n : nat) (self : DatabaseManager) (w : World) :
  (connect_calls (snd (connect_attempts n self w)) <= connect_calls w + n)%nat.
Proof.
  revert w. induction n as [|n IH]; intros w; cbn [connect_attempts].
  - cbn. lia.
  - unfold psycopg2_connect. destruct (pg_answers w (connect_calls w)).
    + cbn. lia.
    + eapply Nat.le_trans; [apply IH|]. cbn. lia.
Qed.

(** A manager without a connection: every storage method raises at once and
    changes nothing. *)
Lemma disconnected_methods (E : Engine) (self : DatabaseManager) :
  conn self = None ->
  init_db self = (Raise no_cursor, self)
  /\ (forall df, save_data df self = (Raise no_cursor, self))
  /\ get_all_data self = (Raise no_cursor, self)
  /\ get_aggregated_stats self = (Raise no_cursor, self).
Proof.
  intros Hnone.
  assert (Hinit : init_db self = (Raise no_cursor, self)).
  { unfold init_db, bindM, conn_cursor. rewrite Hnone. reflexivity. }
  repeat split.
  - exact Hinit.
  - intros df. unfold save_data, bindM. rewrite Hinit. reflexivity.
  - unfold get_all_data, read_sql_query, bindM, conn_cursor. rewrite Hnone. reflexivity.
  - unfold get_aggregated_stats, read_sql_query, bindM, conn_cursor.
    rewrite Hnone. reflexivity.
Qed.

(** Whether the text of an exception says anything about a connection. *)
Definition mentions_connection (e : exn) : bool :=
  match index 0 "connect" (exn_str e) with
  | Some _ => true
  | None => false
  end.

(** A server that refuses every connection, in an empty environment. *)
Definition dead_world : World := {|
  environ := fun _ => None;
  pg_answers := fun _ => Raise (OperationalError "could not connect to server");
  connect_calls := 0;
  slept := 0;
  shown := []
|}.

(** C4, as amended.  Constructing the manager makes at most five connection
    attempts.  If the attempt number [k] (counting from 0, [k < 5]) is the
    first to succeed, the manager holds that connection, [k + 1] attempts were
    made, [2 * k] seconds were slept and nothing was reported.  If all five
    attempts fail, the manager is left without a connection after five
    attempts and 10 seconds of sleep (2 after each failure, the last one
    included), the failure is reported once, and from then on [init_db],
    [save_data], [get_all_data] and [get_aggregated_stats] each raise at once,
    leaving the manager as it is; what they raise is the attribute error of
    using the absent connection. *)
Theorem connect_retries_then_disconnected (E : Engine) (w : World) :
  let self := fst (__init__ w) in
  let w' := snd (__init__ w) in
  (connect_calls w' <= connect_calls w + 5)%nat
  /\ (forall (k : nat) (c : Connection),
         (k < 5)%nat ->
         (forall j, (j < k)%nat -> failed_at w j) ->
         pg_answers w (connect_calls w + k)%nat = Ok c ->
         conn self = Some c /\ w' = advance w (S k) (2 * Z.of_nat k) [])
  /\ ((forall j, (j < 5)%nat -> failed_at w j) ->
      conn self = None
      /\ w' = advance w 5 10 [st_error connect_failed]
      /\ init_db self = (Raise no_cursor, self)
      /\ (forall df, save_data df self = (Raise no_cursor, self))
      /\ get_all_data self = (Raise no_cursor, self)
      /\ get_aggregated_stats self = (Raise no_cursor, self)).
Proof.
  cbv zeta. unfold __init__, _connect.
  split; [apply connect_attempts_bound|]. split.
  - intros k c Hk Hfail Hok.
    rewrite (connect_attempts_first_success 5 k c _ w Hk Hfail Hok).
    split; reflexivity.
  - intros Hfail.
    rewrite (connect_attempts_all_fail 5 _ w Hfail).
    cbn [fst snd].
    split; [reflexivity|]. split; [reflexivity|].
    apply disconnected_methods. reflexivity.
Qed.

Lemma connect_retries_then_disconnected_witness :
  conn (fst (__init__ dead_world)) = None
  /\ snd (__init__ dead_world) = advance dead_world 5 10 [st_error connect_failed]
  /\ init_db (fst (__init__ dead_world)) = (Raise no_cursor, fst (__init__ dead_world)).
Proof.
  destruct (proj2 (proj2 (connect_retries_then_disconnected heap_order_engine dead_world)))
    as (Hconn & Hworld & Hinit & _).
  - intros j _. exists (OperationalError "could not connect to server"). reflexivity.
  - repeat split; assumption.
Defined.

(** C4 as stated fails: after five refused attempts [init_db] raises an error
    whose text says nothing about a connection. *)
Lemma not_connected_error_counterexample :
  ~ (forall w : World,
        (forall j, (j < 5)%nat -> failed_at w j) ->
        forall e, fst (init_db (fst (__init__ w))) = Raise e ->
                  mentions_connection e = true).
Proof.
  intros H.
  specialize (H dead_world).
  assert (Hfail : forall j, (j < 5)%nat -> failed_at dead_world j).
  { intros j _. exists (OperationalError "could not connect to server"). reflexivity. }
  specialize (H Hfail no_cursor eq_refl).
  vm_compute in H. discriminate H.
Qed.

(** ** The country snapshot *)

(** The record the specification describes for one country object: each
    field of the object, or its default when the object has no such field. *)
Definition field_or (members : list (string * json)) (k : string) (default : json) : json :=
  match dict_lookup members k with
  | Some v => v
  | None => default
  end.

Definition normalized (item : json) : CountryTuple :=
  let members := match item with JObj m => m | _ => [] end in
  let name_members := match dict_lookup members "name" with
                      | Some (JObj nm) => nm
                      | _ => []
                      end in
  {| t_name := field_or name_members "common" (JStr "N/A");
     t_cca2 := field_or members "cca2" (JStr "");
     t_cca3 := field_or members "cca3" (JStr "");
     t_region := field_or members "region" (JStr "Other");
     t_population := field_or members "population" (JInt 0);
     t_area := field_or members "area" (JInt 0) |}.

(** A country object of the primary source: an object whose [name], when it
    has one, is itself an object. *)
Definition is_country_object (item : json) : bool :=
  match item with
  | JObj members =>
      match dict_lookup members "name" with
      | Some (JObj _) | None => true
      | Some _ => false
      end
  | _ => false
  end.

Lemma country_tuple_normalized (item : json) :
  is_country_object item = true -> country_tuple item = Ok (normalized item).
Proof.
  destruct item as [| | | | |items|members]; try discriminate.
  unfold is_country_object, country_tuple, normalized, py_get, dict_get, field_or.
  cbn [bind].
  destruct (dict_lookup members "name") as [[| | | | | |nm]|]; try discriminate;
    intros _; reflexivity.
Qed.

Lemma mapM_country_tuple (data : list json) :
  forallb is_country_object data = true ->
  mapM country_tuple data = Ok (map normalized data).
Proof.
  induction data as [|item data IH]; cbn [forallb mapM map]; intros H.
  - reflexivity.
  - apply andb_prop in H. destruct H as [Hitem Hdata].
    rewrite (country_tuple_normalized item Hitem), (IH Hdata). reflexivity.
Qed.

Lemma fetch_api_data_frame (net : Network) (response : Response) (data : list json) :
  requests_get net restcountries_url = Ok response ->
  raise_for_status response = Ok tt ->
  response_json response = Ok (JArr data) ->
  forallb is_country_object data = true ->
  fetch_api_data net
  = ({| columns := country_columns; records := map normalized data |}, []).
Proof.
  intros Hget Hstatus Hjson Hwf.
  unfold fetch_api_data. rewrite Hget. cbn [bind]. rewrite Hstatus. cbn [bind].
  rewrite Hjson. cbn [bind py_iter]. rewrite (mapM_country_tuple data Hwf).
  reflexivity.
Qed.

(** A network that answers every request with status 200 and the given body. *)
Definition answering (body : json) : Network :=
  fun _ => Ok {| status_code := 200; response_json := Ok body |}.

Definition two_countries : list json :=
  [JObj [("name", JObj [("common", JStr "Ukraine")]); ("cca2", JStr "UA");
         ("cca3", JStr "UKR"); ("region", JStr "Europe");
         ("population", JInt 44134693); ("area", JInt 603500)];
   JObj [("cca2", JStr "XX"); ("population", JInt 12)]].

(** C8.  When the primary source answers with a JSON array of country
    objects, [fetch_api_data] reports no error and returns the frame whose
    rows are, in order, the objects with each absent field replaced by its
    default: "N/A" for the name, the empty string for [cca2] and [cca3],
    "Other" for the region, 0 for the population and for the area.  No row is
    dropped: the frame is as long as the array. *)
Theorem fetch_api_data_defaults
    (net : Network) (response : Response) (data : list json) :
  requests_get net restcountries_url = Ok response ->
  raise_for_status response = Ok tt ->
  response_json response = Ok (JArr data) ->
  forallb is_country_object data = true ->
  snd (fetch_api_data net) = []
  /\ columns (fst (fetch_api_data net)) = country_columns
  /\ records (fst (fetch_api_data net)) = map normalized data
  /\ df_len (fst (fetch_api_data net)) = List.length data.
Proof.
  intros Hget Hstatus Hjson Hwf.
  rewrite (fetch_api_data_frame net response data Hget Hstatus Hjson Hwf).
  unfold df_len. cbn [fst snd columns records].
  rewrite length_map. repeat split; reflexivity.
Qed.

Lemma fetch_api_data_defaults_witness :
  records (fst (fetch_api_data (answering (JArr two_countries))))
  = [ {| t_name := JStr "Ukraine"; t_cca2 := JStr "UA"; t_cca3 := JStr "UKR";
         t_region := JStr "Europe"; t_population := JInt 44134693;
         t_area := JInt 603500 |};
      {| t_name := JStr "N/A"; t_cca2 := JStr "XX"; t_cca3 := JStr "";
         t_region := JStr "Other"; t_population := JInt 12; t_area := JInt 0 |} ]
  /\ df_len (fst (fetch_api_data (answering (JArr two_countries)))) = 2%nat.
Proof.
  destruct (fetch_api_data_defaults (answering (JArr two_countries))
              {| status_code := 200; response_json := Ok (JArr two_countries) |}
              two_countries eq_refl eq_refl eq_refl eq_refl)
    as (_ & _ & Hrecords & Hlen).
  split; [exact Hrecords | exact Hlen].
Defined.

(** ** The population history *)

Lemma history_row_null (entry : json) :
  py_getitem entry "value" = Ok JNull -> history_row entry = Ok None.
Proof. intros H. unfold history_row. rewrite H. reflexivity. Qed.

Lemma history_row_point (entry c v label d : json) (y : Z) :
  py_getitem entry "value" = Ok v ->
  v <> JNull ->
  py_getitem entry "country" = Ok c ->
  py_getitem c "value" = Ok label ->
  py_getitem entry "date" = Ok d ->
  py_int d = Ok y ->
  history_row entry
  = Ok (Some {| hp_country := label; hp_year := y; hp_population := v |}).
Proof.
  intros Hv Hnn Hc Hl Hd Hy. unfold history_row.
  rewrite Hv. cbn [bind]. rewrite Hc. cbn [bind]. rewrite Hl. cbn [bind].
  rewrite Hd. cbn [bind]. rewrite Hy. cbn [bind].
  destruct v; try reflexivity. contradiction.
Qed.

Lemma history_rows_all_null (entries : list json) :
  Forall (fun entry => py_getitem entry "value" = Ok JNull) entries ->
  history_rows entries = Ok [].
Proof.
  induction 1 as [|entry entries Hnull _ IH]; cbn [history_rows].
  - reflexivity.
  - rewrite (history_row_null entry Hnull), IH. reflexivity.
Qed.

Lemma second_of_array (first second : json) (rest : list json) :
  py_len (JArr (first :: second :: rest)) = Ok (Z.of_nat (S (S (List.length rest))))
  /\ (1 <? Z.of_nat (S (S (List.length rest)))) = true
  /\ py_second (JArr (first :: second :: rest)) = Ok second.
Proof.
  repeat split.
  apply Z.ltb_lt. lia.
Qed.

(** What [get_population_world_bank] does once the loop has produced [rows]
    from the entries of a successful response. *)
Lemma get_population_world_bank_rows
    (S : Sorter) (net : Network) (country_code : string) (response : Response)
    (first : json) (entries rest : list json) (rows : list HistoryPoint) :
  requests_get net (world_bank_url country_code) = Ok response ->
  raise_for_status response = Ok tt ->
  response_json response = Ok (JArr (first :: JArr entries :: rest)) ->
  history_rows entries = Ok rows ->
  get_population_world_bank net country_code
  = match sort_values "year" hp_year (frame_of_rows rows) with
    | Ok df => (Some df, [])
    | Raise e => (None, [st_error ("World Bank API error: " ++ exn_str e)])
    end.
Proof.
  intros Hget Hstatus Hjson Hrows.
  destruct (second_of_array first (JArr entries) rest) as (Hlen & Hlt & Hsecond).
  unfold get_population_world_bank.
  rewrite Hget. cbn [bind]. rewrite Hstatus. cbn [bind]. rewrite Hjson. cbn [bind].
  rewrite Hlen. cbn [bind]. rewrite Hlt, Hsecond. cbn [bind]. rewrite Hrows. cbn [bind].
  destruct (sort_values "year" hp_year (frame_of_rows rows)); reflexivity.
Qed.

(** C9.  When the secondary source answers with an array whose second element
    is a sequence and no entry of it has a value other than null (the
    sequence is empty, or every value is null), [get_population_world_bank]
    returns [None] and reports the [KeyError] raised by sorting a frame that
    has no [year] column. *)
Theorem get_population_world_bank_no_survivor
    (S : Sorter) (net : Network) (country_code : string) (response : Response)
    (first : json) (entries rest : list json) :
  requests_get net (world_bank_url country_code) = Ok response ->
  raise_for_status response = Ok tt ->
  response_json response = Ok (JArr (first :: JArr entries :: rest)) ->
  Forall (fun entry => py_getitem entry "value" = Ok JNull) entries ->
  get_population_world_bank net country_code
  = (None, [st_error "World Bank API error: 'year'"]).
Proof.
  intros Hget Hstatus Hjson Hnull.
  rewrite (get_population_world_bank_rows S net country_code response first entries rest []
             Hget Hstatus Hjson (history_rows_all_null entries Hnull)).
  reflexivity.
Qed.

Definition page_info : json := JObj [("page", JInt 1); ("pages", JInt 1)].

Definition wb_entry (label date : string) (value : json) : json :=
  JObj [("country", JObj [("id", JStr "UA"); ("value", JStr label)]);
        ("date", JStr date); ("value", value)].

Lemma get_population_world_bank_no_survivor_witness :
  get_population_world_bank (S := stable_sorter)
    (answering (JArr [page_info; JArr [wb_entry "Ukraine" "2000" JNull;
                                      wb_entry "Ukraine" "2001" JNull]])) "UA"
  = (None, [st_error "World Bank API error: 'year'"]).
Proof.
  apply (get_population_world_bank_no_survivor stable_sorter _ "UA"
           {| status_code := 200;
              response_json := Ok (JArr [page_info;
                                         JArr [wb_entry "Ukraine" "2000" JNull;
                                               wb_entry "Ukraine" "2001" JNull]]) |}
           page_info [wb_entry "Ukraine" "2000" JNull; wb_entry "Ukraine" "2001" JNull] []).
  - reflexivity.
  - reflexivity.
  - reflexivity.
  - repeat constructor.
Defined.

(** When at least one entry survives, the result is the frame of the
    surviving points, sorted by year. *)
Lemma get_population_world_bank_points
    (S : Sorter) (net : Network) (country_code : string) (response : Response)
    (first : json) (entries rest : list json) (rows : list HistoryPoint) :
  requests_get net (world_bank_url country_code) = Ok response ->
  raise_for_status response = Ok tt ->
  response_json response = Ok (JArr (first :: JArr entries :: rest)) ->
  history_rows entries = Ok rows ->
  rows <> [] ->
  exists df,
    get_population_world_bank net country_code = (Some df, [])
    /\ columns df = history_columns
    /\ Permutation (records df) rows
    /\ StronglySorted (key_le hp_year) (records df).
Proof.
  intros Hget Hstatus Hjson Hrows Hne.
  rewrite (get_population_world_bank_rows S net country_code response first entries rest rows
             Hget Hstatus Hjson Hrows).
  destruct rows as [|p rows]; [contradiction|].
  eexists. split; [reflexivity|].
  cbn [columns records frame_of_rows].
  split; [reflexivity|]. split; [apply sort_by_perm | apply sort_by_sorted].
Qed.

(** C7, at the input where the code departs from it: a well-formed response
    whose only entry has a null value.  The claim asks for the (empty)
    sequence of surviving points; the function returns [None] and reports an
    error. *)
Theorem get_population_world_bank_all_null_is_none :
  get_population_world_bank (S := stable_sorter)
    (answering (JArr [page_info; JArr [wb_entry "Ukraine" "2000" JNull]])) "UA"
  = (None, [st_error "World Bank API error: 'year'"]).
Proof. reflexivity. Qed.

(** The example of the specification: of the entries for 2000 (null) and 2001
    (500) only the point of 2001 is returned. *)
Example get_population_world_bank_2001 :
  get_population_world_bank (S := stable_sorter)
    (answering (JArr [page_info; JArr [wb_entry "Ukraine" "2000" JNull;
                                      wb_entry "Ukraine" "2001" (JInt 500)]])) "UA"
  = (Some {| columns := history_columns;
             records := [{| hp_country := JStr "Ukraine"; hp_year := 2001;
                            hp_population := JInt 500 |}] |}, []).
Proof. reflexivity. Qed.

(** A response without a second element: [None], and nothing reported. *)
Example get_population_world_bank_missing_second :
  get_population_world_bank (S := stable_sorter) (answering (JArr [page_info])) "UA"
  = (None, []).
Proof. reflexivity. Qed.

(** ** The write path *)

(** The rows a batch leaves in the heap: the stored values in order, with
    consecutive identifiers after [last]. *)
Fixpoint assign_ids (last : Z) (stored : list CountryRecord) : list StoredRow :=
  match stored with
  | [] => []
  | r :: rest => {| row_id := last + 1; fields := r |} :: assign_ids (last + 1) rest
  end.

(** The table as the next statement on the connection would see it. *)
Definition seen_by (c : Connection) : option Table :=
  match status c with
  | InTransaction w => w
  | Idle | Aborted => committed c
  end.

Definition last_id_seen (c : Connection) : Z :=
  match seen_by c with
  | Some t => last_id t
  | None => 0
  end.

(** The committed rows of the table behind a manager. *)
Definition committed_rows (self : DatabaseManager) : option (list StoredRow) :=
  match conn self with
  | Some c => option_map heap (committed c)
  | None => None
  end.

Definition usable (c : Connection) : Prop := status c <> Aborted.

Lemma assign_ids_fields (last : Z) (stored : list CountryRecord) :
  map fields (assign_ids last stored) = stored.
Proof.
  revert last. induction stored as [|r rest IH]; intros last; cbn [assign_ids map].
  - reflexivity.
  - rewrite IH. reflexivity.
Qed.

Lemma assign_ids_length (last : Z) (stored : list CountryRecord) :
  List.length (assign_ids last stored) = List.length stored.
Proof. rewrite <- (assign_ids_fields last stored) at 2. symmetry. apply length_map. Qed.

Lemma assign_ids_above (last : Z) (stored : list CountryRecord) :
  Forall (fun r => last < row_id r) (assign_ids last stored).
Proof.
  revert last. induction stored as [|r rest IH]; intros last; cbn [assign_ids].
  - constructor.
  - constructor; [cbn; lia|].
    eapply Forall_impl; [|apply IH]. cbn. intros; lia.
Qed.

Lemma assign_ids_increasing (last : Z) (stored : list CountryRecord) :
  StronglySorted (fun a b => row_id a < row_id b) (assign_ids last stored).
Proof.
  revert last. induction stored as [|r rest IH]; intros last; cbn [assign_ids].
  - constructor.
  - constructor; [apply IH|]. apply assign_ids_above.
Qed.

Lemma mapM_length {A B : Type} (f : A -> result B) (l : list A) (out : list B) :
  mapM f l = Ok out -> List.length out = List.length l.
Proof.
  revert out. induction l as [|x l IH]; cbn [mapM]; intros out H.
  - injection H as <-. reflexivity.
  - destruct (f x) as [y|e]; cbn [bind] in H; [|discriminate].
    destruct (mapM f l) as [ys|e]; cbn [bind] in H; [|discriminate].
    injection H as <-. cbn. f_equal. apply IH. reflexivity.
Qed.

(** What one tuple of a batch meets, in this order: the driver's
    adaptation, the types of the columns, and the sequence, which last issued
    [last]. *)
Definition accept (last : Z) (r : CountryRecord) : result CountryRecord :=
  _ <- mogrify r ;;
  stored <- store_record r ;;
  if last <? serial_max then Ok stored
  else Raise (StorageError (SequenceGeneratorLimitExceeded "countries_id_seq")).

(** The values a batch stores, or the exception of the first tuple that
    cannot be stored. *)
Fixpoint batch (last : Z) (data_tuples : list CountryRecord) : result (list CountryRecord) :=
  match data_tuples with
  | [] => Ok []
  | r :: rest =>
      stored <- accept last r ;;
      more <- batch (last + 1) rest ;;
      Ok (stored :: more)
  end.

(** A record none of whose texts contains NUL. *)
Definition no_nul (v : option string) : bool :=
  match v with
  | Some s => negb (has_nul s)
  | None => true
  end.

Definition adaptable (r : CountryRecord) : bool :=
  (no_nul (name r) && no_nul (cca2 r) && no_nul (cca3 r) && no_nul (region r))%bool.

(** The sequence, having last issued [last], has [n] identifiers left. *)
Definition room (last : Z) (n : nat) : Prop :=
  n = 0%nat \/ last + Z.of_nat n <= serial_max.

Lemma adapt_text_no_nul (v : option string) :
  adapt_text v = if no_nul v then Ok tt else Raise nul_in_literal.
Proof. destruct v as [s|]; [|reflexivity]. cbn. destruct (has_nul s); reflexivity. Qed.

Lemma mogrify_adaptable (r : CountryRecord) :
  mogrify r = if adaptable r then Ok tt else Raise nul_in_literal.
Proof.
  unfold mogrify, adaptable. rewrite !adapt_text_no_nul.
  destruct (no_nul (name r)), (no_nul (cca2 r)), (no_nul (cca3 r)), (no_nul (region r));
    reflexivity.
Qed.

Lemma mogrify_raises (r : CountryRecord) (e : exn) :
  mogrify r = Raise e -> e = nul_in_literal.
Proof.
  rewrite mogrify_adaptable. destruct (adaptable r); [discriminate|].
  intros H. injection H as <-. reflexivity.
Qed.

Lemma execute_insert_row (r : CountryRecord) (c : Connection) (t : Table) :
  status c <> Aborted ->
  seen_by c = Some t ->
  mogrify r = Ok tt ->
  execute (insert_row r) c
  = match accept (last_id t) r with
    | Ok stored =>
        (Ok tt,
         {| committed := committed c;
            status := InTransaction
                        (Some {| heap := heap t ++ [{| row_id := last_id t + 1;
                                                       fields := stored |}];
                                 last_id := last_id t + 1 |}) |})
    | Raise e => (Raise e, {| committed := committed c; status := Aborted |})
    end.
Proof.
  intros Hst Hseen Hm. unfold accept. rewrite Hm. cbn [bind].
  unfold execute, seen_by in *.
  destruct (status c) as [|w|] eqn:Hs; [| |contradiction]; rewrite Hseen;
    unfold insert_row;
    (destruct (store_record r) as [stored|e]; cbn [bind]; [|reflexivity]);
    destruct (last_id t <? serial_max); reflexivity.
Qed.

Lemma store_varchar_storage_error (column : string) (limit : nat) (v : option string) (e : exn) :
  store_varchar column limit v = Raise e -> exists cause, e = StorageError cause.
Proof.
  unfold store_varchar. destruct v as [s|]; [|discriminate].
  destruct (Nat.leb (String.length s) limit); [discriminate|].
  destruct (all_spaces _); [discriminate|].
  intros H. injection H as <-. eexists. reflexivity.
Qed.

Lemma store_record_storage_error (r : CountryRecord) (e : exn) :
  store_record r = Raise e -> exists cause, e = StorageError cause.
Proof.
  unfold store_record.
  destruct (store_varchar "name" 255 (name r)) eqn:H1; cbn [bind];
    [|intros H; injection H as <-; eapply store_varchar_storage_error; exact H1].
  destruct (store_varchar "cca2" 10 (cca2 r)) eqn:H2; cbn [bind];
    [|intros H; injection H as <-; eapply store_varchar_storage_error; exact H2].
  destruct (store_varchar "cca3" 10 (cca3 r)) eqn:H3; cbn [bind];
    [|intros H; injection H as <-; eapply store_varchar_storage_error; exact H3].
  destruct (store_varchar "region" 100 (region r)) eqn:H4; cbn [bind];
    [|intros H; injection H as <-; eapply store_varchar_storage_error; exact H4].
  unfold store_bigint.
  destruct ((int64_min <=? population r) && (population r <=? int64_max))%bool;
    cbn [bind]; [discriminate|].
  intros H. injection H as <-. eexists. reflexivity.
Qed.

Lemma mapM_store_record_storage_error (l : list CountryRecord) (e : exn) :
  mapM store_record l = Raise e -> exists cause, e = StorageError cause.
Proof.
  induction l as [|r l IH]; cbn [mapM]; [discriminate|].
  destruct (store_record r) eqn:Hr; cbn [bind].
  - destruct (mapM store_record l); cbn [bind]; [discriminate|].
    intros H. injection H as <-. apply IH. reflexivity.
  - intros H. injection H as <-. eapply store_record_storage_error. exact Hr.
Qed.

(** A tuple the driver adapts can only be rejected by the server. *)
Lemma accept_rejected (last : Z) (r : CountryRecord) (e : exn) :
  mogrify r = Ok tt -> accept last r = Raise e -> exists cause, e = StorageError cause.
Proof.
  intros Hm. unfold accept. rewrite Hm. cbn [bind].
  destruct (store_record r) as [stored|e'] eqn:Hr; cbn [bind].
  - destruct (last <? serial_max); [discriminate|].
    intros H. injection H as <-. eexists. reflexivity.
  - intros H. injection H as <-. eapply store_record_storage_error. exact Hr.
Qed.

Lemma accept_raises (last : Z) (r : CountryRecord) (e : exn) :
  accept last r = Raise e -> e = nul_in_literal \/ exists cause, e = StorageError cause.
Proof.
  intros H. destruct (mogrify r) as [[]|e'] eqn:Hm.
  - right. eapply accept_rejected; eassumption.
  - left. unfold accept in H. rewrite Hm in H. cbn [bind] in H. injection H as <-.
    eapply mogrify_raises. exact Hm.
Qed.

Lemma batch_raises (last : Z) (data_tuples : list CountryRecord) (e : exn) :
  batch last data_tuples = Raise e ->
  e = nul_in_literal \/ exists cause, e = StorageError cause.
Proof.
  revert last. induction data_tuples as [|r rest IH]; intros last; cbn [batch];
    [discriminate|].
  destruct (accept last r) as [stored|e'] eqn:Hr; cbn [bind].
  - destruct (batch (last + 1) rest) as [more|e'] eqn:Hrest; cbn [bind]; [discriminate|].
    intros H. injection H as <-. eapply IH. exact Hrest.
  - intros H. injection H as <-. eapply accept_raises. exact Hr.
Qed.

Lemma batch_length (last : Z) (data_tuples stored : list CountryRecord) :
  batch last data_tuples = Ok stored -> List.length stored = List.length data_tuples.
Proof.
  revert last stored. induction data_tuples as [|r rest IH]; intros last stored; cbn [batch].
  - intros H. injection H as <-. reflexivity.
  - destruct (accept last r) as [s|e]; cbn [bind]; [|discriminate].
    destruct (batch (last + 1) rest) as [more|e] eqn:Hrest; cbn [bind]; [|discriminate].
    intros H. injection H as <-. cbn [List.length]. f_equal. eapply IH. exact Hrest.
Qed.

(** A batch goes through exactly when the driver can adapt every tuple, every
    tuple fits the types of the columns, and the sequence has an identifier
    for each. *)
Lemma batch_Ok_iff (last : Z) (data_tuples stored : list CountryRecord) :
  batch last data_tuples = Ok stored
  <-> forallb adaptable data_tuples = true
      /\ mapM store_record data_tuples = Ok stored
      /\ room last (List.length data_tuples).
Proof.
  revert last stored. induction data_tuples as [|r rest IH]; intros last stored;
    cbn [batch forallb mapM List.length].
  - split.
    + intros H. injection H as <-. repeat split. left. reflexivity.
    + intros (_ & H & _). exact H.
  - unfold accept. rewrite mogrify_adaptable.
    destruct (adaptable r); cbn [bind andb];
      [|split; [discriminate | intros (H & _); discriminate H]].
    destruct (store_record r) as [s|e]; cbn [bind];
      [|split; [discriminate | intros (_ & H & _); discriminate H]].
    destruct (Z.ltb_spec last serial_max) as [Hlt|Hge].
    + cbn [bind]. specialize (IH (last + 1)).
      destruct (batch (last + 1) rest) as [more|e]; cbn [bind].
      * destruct (proj1 (IH more) eq_refl) as (Ha & Hs & Hroom). rewrite Hs. cbn [bind].
        split.
        -- intros H. injection H as <-. repeat split; [exact Ha|]. right.
           destruct Hroom as [H0 | Hroom]; [rewrite H0|]; lia.
        -- intros (_ & H & _). exact H.
      * split; [discriminate|]. intros (Ha & Hs & Hroom).
        destruct (mapM store_record rest) as [more|e'] eqn:Hrest; cbn [bind] in Hs;
          [|discriminate].
        assert (Hbad : @Raise (list CountryRecord) e = Ok more).
        { apply IH. repeat split; [exact Ha|].
          destruct Hroom as [H0 | Hroom]; [discriminate H0|].
          destruct rest; [left; reflexivity | right]. cbn [List.length] in *. lia. }
        discriminate Hbad.
    + split; [discriminate|]. intros (_ & _ & [H0 | Hroom]); [discriminate H0|]. lia.
Qed.

(** The loop of [executemany] on a connection that is not aborted and sees
    the table. *)
Lemma executemany_spec (data_tuples : list CountryRecord) (c : Connection) (t : Table) :
  status c <> Aborted ->
  seen_by c = Some t ->
  match batch (last_id t) data_tuples with
  | Ok stored =>
      executemany data_tuples c
      = (Ok tt,
         match data_tuples with
         | [] => c
         | _ => {| committed := committed c;
                   status := InTransaction
                               (Some {| heap := heap t ++ assign_ids (last_id t) stored;
                                        last_id := last_id t
                                                   + Z.of_nat (List.length stored) |}) |}
         end)
  | Raise e =>
      exists c',
        executemany data_tuples c = (Raise e, c')
        /\ committed c' = committed c
        /\ (status c' = Aborted <-> exists cause, e = StorageError cause)
  end.
Proof.
  revert c t. induction data_tuples as [|r rest IH]; intros c t Hst Hseen;
    cbn [batch executemany]; [reflexivity|].
  destruct (mogrify r) as [[]|e] eqn:Hm.
  - rewrite (execute_insert_row r c t Hst Hseen Hm).
    destruct (accept (last_id t) r) as [stored|e] eqn:Hr; cbn [bind].
    + set (t1 := {| heap := heap t ++ [{| row_id := last_id t + 1; fields := stored |}];
                    last_id := last_id t + 1 |}).
      set (c1 := {| committed := committed c; status := InTransaction (Some t1) |}).
      specialize (IH c1 t1 ltac:(discriminate) eq_refl). cbn [last_id t1] in IH.
      destruct (batch (last_id t + 1) rest) as [more|e] eqn:Hb; cbn [bind].
      * rewrite IH. f_equal.
        destruct rest as [|r' rest'].
        -- cbn [batch] in Hb. injection Hb as <-. reflexivity.
        -- unfold c1, t1. cbn [committed heap last_id assign_ids List.length].
           rewrite <- app_assoc. cbn [app]. do 4 f_equal. lia.
      * destruct IH as (c' & Hrun & Hcm & Hab). exists c'. split; [exact Hrun|].
        split; [exact Hcm | exact Hab].
    + eexists. split; [reflexivity|]. split; [reflexivity|]. cbn [status].
      split; [intros _; eapply accept_rejected; eassumption | reflexivity].
  - unfold accept. rewrite Hm. cbn [bind].
    exists c. split; [reflexivity|]. split; [reflexivity|].
    rewrite (mogrify_raises r e Hm). split; [contradiction|].
    intros (cause & H). discriminate H.
Qed.

Lemma init_db_usable (self : DatabaseManager) (c : Connection) :
  conn self = Some c ->
  usable c ->
  init_db self
  = (Ok tt, with_conn self
              (Some {| committed := Some {| heap := []; last_id := last_id_seen c |};
                       status := Idle |})).
Proof.
  intros Hconn Husable.
  destruct self as [h d u p k]. cbn [conn] in Hconn. subst k.
  destruct c as [cm [|w|]]; unfold usable in Husable; cbn [status] in Husable.
  - destruct cm as [t|]; reflexivity.
  - destruct w as [t|]; reflexivity.
  - contradiction.
Qed.

(** What [save_data] does on a usable connection, by whether every record of
    the frame can be stored. *)
Lemma save_data_usable (self : DatabaseManager) (c : Connection) (df : DataFrame CountryRecord) :
  conn self = Some c ->
  usable c ->
  match batch (last_id_seen c) (records df) with
  | Ok stored =>
      save_data df self
      = (Ok tt, with_conn self
                  (Some {| committed :=
                             Some {| heap := assign_ids (last_id_seen c) stored;
                                     last_id := last_id_seen c
                                                + Z.of_nat (List.length stored) |};
                           status := Idle |}))
  | Raise e =>
      exists c',
        save_data df self = (Raise e, with_conn self (Some c'))
        /\ committed c' = Some {| heap := []; last_id := last_id_seen c |}
        /\ (status c' = Aborted <-> exists cause, e = StorageError cause)
  end.
Proof.
  intros Hconn Husable.
  set (t0 := {| heap := []; last_id := last_id_seen c |}).
  set (c0 := {| committed := Some t0; status := Idle |}).
  pose proof (executemany_spec (records df) c0 t0 ltac:(discriminate) eq_refl) as Hloop.
  cbn [last_id t0] in Hloop.
  unfold save_data, bindM. rewrite (init_db_usable self c Hconn Husable).
  fold t0. fold c0.
  unfold itertuples, conn_cursor, cur_executemany, conn_commit, on_conn, with_conn.
  cbn [conn host database user password].
  destruct (batch (last_id_seen c) (records df)) as [stored|e] eqn:Hb.
  - rewrite Hloop. cbn [conn host database user password].
    destruct (records df) as [|r rest].
    + cbn [batch] in Hb. injection Hb as <-.
      cbn [assign_ids List.length Z.of_nat]. rewrite Z.add_0_r. reflexivity.
    + reflexivity.
  - destruct Hloop as (c' & Hrun & Hcm & Hab). rewrite Hrun.
    exists c'. split; [reflexivity|]. split; [exact Hcm | exact Hab].
Qed.

(** *** Sample data *)

Definition country (n : string) (g : option string) (p : Z) : CountryRecord :=
  {| name := Some n; cca2 := Some "XX"; cca3 := Some "XXX"; region := g;
     population := p; area := 1%float |}.

Definition frame_of (rows : list CountryRecord) : DataFrame CountryRecord :=
  {| columns := country_columns; records := rows |}.

(** A manager connected to a store whose table holds [rows], the sequence
    having last issued [last], with no transaction open. *)
Definition manager_with (rows : list StoredRow) (last : Z) : DatabaseManager :=
  {| host := "localhost"; database := "population_db"; user := "user";
     password := "password";
     conn := Some {| committed := Some {| heap := rows; last_id := last |};
                     status := Idle |} |}.

Definition idle_connection (rows : list StoredRow) (last : Z) : Connection :=
  {| committed := Some {| heap := rows; last_id := last |}; status := Idle |}.

Definition three_rows : list StoredRow :=
  [ {| row_id := 1; fields := country "A" (Some "X") 10 |};
    {| row_id := 2; fields := country "B" (Some "X") 20 |};
    {| row_id := 3; fields := country "C" (Some "X") 30 |} ].

(** A name of 256 characters, one more than the column takes. *)
Definition long_name : string := string_of_list_ascii (repeat "x"%char 256).

(** C3, as amended.  On a usable connection [save_data] first runs
    [init_db], which creates and empties the table and commits that on its
    own; the batch insert then runs in a second transaction.  If every record
    can be stored (the driver can adapt it, it fits the types of the columns,
    and the sequence has an identifier for it), all of them are committed and
    [save_data] returns.  If one cannot, [save_data] raises the exception of
    the first such record (the driver's or the server's own, unwrapped), none
    of the records is committed, and the table is left committed empty: the
    rows it held before are gone. *)
Theorem save_data_commits_all_or_leaves_empty
    (self : DatabaseManager) (c : Connection) (df : DataFrame CountryRecord) :
  conn self = Some c ->
  usable c ->
  (exists self1, init_db self = (Ok tt, self1) /\ committed_rows self1 = Some [])
  /\ match save_data df self with
     | (Ok _, self') =>
         exists stored,
           forallb adaptable (records df) = true
           /\ mapM store_record (records df) = Ok stored
           /\ room (last_id_seen c) (df_len df)
           /\ option_map (map fields) (committed_rows self') = Some stored
     | (Raise e, self') =>
         batch (last_id_seen c) (records df) = Raise e
         /\ (e = nul_in_literal \/ exists cause, e = StorageError cause)
         /\ committed_rows self' = Some []
     end.
Proof.
  intros Hconn Husable. split.
  - eexists. split; [apply (init_db_usable self c Hconn Husable) | reflexivity].
  - pose proof (save_data_usable self c df Hconn Husable) as Hrun.
    destruct (batch (last_id_seen c) (records df)) as [stored|e] eqn:Hb.
    + rewrite Hrun. apply batch_Ok_iff in Hb. destruct Hb as (Ha & Hs & Hroom).
      exists stored. split; [exact Ha|]. split; [exact Hs|]. split; [exact Hroom|].
      unfold committed_rows. cbn. rewrite assign_ids_fields. reflexivity.
    + destruct Hrun as (c' & Hrun & Hcm & _). rewrite Hrun.
      split; [reflexivity|]. split; [eapply batch_raises; exact Hb|].
      unfold committed_rows, with_conn. cbn [conn]. rewrite Hcm. reflexivity.
Qed.

Lemma save_data_commits_all_or_leaves_empty_witness :
  match save_data (frame_of [country long_name (Some "X") 1]) (manager_with three_rows 3) with
  | (Ok _, _) => False
  | (Raise e, self') =>
      e = StorageError (StringDataRightTruncation "name" 255)
      /\ committed_rows self' = Some []
  end.
Proof.
  pose proof (proj2 (save_data_commits_all_or_leaves_empty
                (manager_with three_rows 3) (idle_connection three_rows 3)
                (frame_of [country long_name (Some "X") 1])
                eq_refl ltac:(discriminate))) as H.
  vm_compute in H |- *.
  destruct H as (_ & _ & Hrows).
  split; [reflexivity | exact Hrows].
Defined.

(** C3 as stated fails: a record that cannot be stored makes [save_data]
    raise with the table emptied, not unchanged. *)
Lemma save_data_not_atomic_counterexample :
  ~ (forall (self : DatabaseManager) (c : Connection) (df : DataFrame CountryRecord),
        conn self = Some c ->
        status c = Idle ->
        forall e self', save_data df self = (Raise e, self') ->
                        committed_rows self' = committed_rows self).
Proof.
  intros H.
  specialize (H (manager_with three_rows 3) (idle_connection three_rows 3)
                (frame_of [country long_name (Some "X") 1]) eq_refl eq_refl).
  specialize (H (StorageError (StringDataRightTruncation "name" 255))
                (snd (save_data (frame_of [country long_name (Some "X") 1])
                        (manager_with three_rows 3)))).
  assert (Hrun : save_data (frame_of [country long_name (Some "X") 1])
                   (manager_with three_rows 3)
                 = (Raise (StorageError (StringDataRightTruncation "name" 255)),
                    snd (save_data (frame_of [country long_name (Some "X") 1])
                           (manager_with three_rows 3)))).
  { vm_compute. reflexivity. }
  specialize (H Hrun). vm_compute in H. discriminate H.
Qed.

Lemma save_data_aborted (self : DatabaseManager) (c : Connection) (df : DataFrame CountryRecord) :
  conn self = Some c ->
  status c = Aborted ->
  save_data df self = (Raise (StorageError InFailedSqlTransaction), self).
Proof.
  intros Hconn Hs.
  destruct self as [h d u p k]. cbn [conn] in Hconn. subst k.
  destruct c as [cm st]. cbn [status] in Hs. subst st. reflexivity.
Qed.

Lemma save_data_returns_usable
    (self self' : DatabaseManager) (c : Connection) (df : DataFrame CountryRecord) :
  conn self = Some c ->
  save_data df self = (Ok tt, self') ->
  usable c.
Proof.
  intros Hconn Hrun Hs.
  rewrite (save_data_aborted self c df Hconn Hs) in Hrun. discriminate Hrun.
Qed.

(** The manager a load leaves behind when it returns. *)
Lemma save_data_returns
    (self self' : DatabaseManager) (c : Connection) (df : DataFrame CountryRecord) :
  conn self = Some c ->
  save_data df self = (Ok tt, self') ->
  exists stored,
    batch (last_id_seen c) (records df) = Ok stored
    /\ mapM store_record (records df) = Ok stored
    /\ self' = with_conn self
                 (Some (idle_connection (assign_ids (last_id_seen c) stored)
                          (last_id_seen c + Z.of_nat (List.length stored)))).
Proof.
  intros Hconn Hrun.
  pose proof (save_data_returns_usable self self' c df Hconn Hrun) as Husable.
  pose proof (save_data_usable self c df Hconn Husable) as Hspec.
  destruct (batch (last_id_seen c) (records df)) as [stored|e] eqn:Hb.
  - rewrite Hspec in Hrun. injection Hrun as <-. exists stored.
    split; [reflexivity|]. split; [|reflexivity].
    apply batch_Ok_iff in Hb. tauto.
  - destruct Hspec as (c' & Hrun' & _). rewrite Hrun' in Hrun. discriminate Hrun.
Qed.

(** C5.  Whatever the table held before, when [save_data] returns the table
    holds exactly the rows of the loaded frame, one per record and in order;
    every row carries an identifier issued during this load, so no row
    stored earlier remains. *)
Theorem save_data_full_refresh
    (self self' : DatabaseManager) (c : Connection) (df : DataFrame CountryRecord) :
  conn self = Some c ->
  save_data df self = (Ok tt, self') ->
  exists rows stored,
    committed_rows self' = Some rows
    /\ mapM store_record (records df) = Ok stored
    /\ map fields rows = stored
    /\ List.length rows = df_len df
    /\ (forall old, row_id old <= last_id_seen c -> ~ In old rows).
Proof.
  intros Hconn Hrun.
  destruct (save_data_returns self self' c df Hconn Hrun) as (stored & _ & Hstore & ->).
  exists (assign_ids (last_id_seen c) stored), stored.
  split; [reflexivity|]. split; [exact Hstore|].
  split; [apply assign_ids_fields|]. split.
  - rewrite assign_ids_length. unfold df_len. eapply mapM_length. exact Hstore.
  - intros old Hold Hin.
    pose proof (assign_ids_above (last_id_seen c) stored) as Habove.
    rewrite Forall_forall in Habove. specialize (Habove old Hin). lia.
Qed.

Lemma save_data_full_refresh_witness :
  exists rows stored,
    committed_rows (snd (save_data (frame_of [country "D" (Some "Y") 7])
                           (manager_with three_rows 3))) = Some rows
    /\ mapM store_record [country "D" (Some "Y") 7] = Ok stored
    /\ map fields rows = stored
    /\ List.length rows = 1%nat
    /\ (forall old, row_id old <= 3 -> ~ In old rows).
Proof.
  apply (save_data_full_refresh (manager_with three_rows 3)
           (snd (save_data (frame_of [country "D" (Some "Y") 7])
                   (manager_with three_rows 3)))
           (idle_connection three_rows 3)
           (frame_of [country "D" (Some "Y") 7])).
  - reflexivity.
  - vm_compute. reflexivity.
Defined.

(** Reloading with the empty snapshot leaves the table empty. *)
Example save_data_empty_snapshot :
  committed_rows (snd (save_data (frame_of []) (manager_with three_rows 3))) = Some [].
Proof. reflexivity. Qed.

(** ** Reading back *)

Definition fits_varchar (limit : nat) (v : option string) : bool :=
  match v with
  | None => true
  | Some s => Nat.leb (String.length s) limit
  end.

(** A record that the columns take as it is. *)
Definition fits_schema (r : CountryRecord) : bool :=
  (fits_varchar 255 (name r) && fits_varchar 10 (cca2 r) && fits_varchar 10 (cca3 r)
   && fits_varchar 100 (region r)
   && (int64_min <=? population r) && (population r <=? int64_max))%bool.

Lemma store_varchar_fits (column : string) (limit : nat) (v : option string) :
  fits_varchar limit v = true -> store_varchar column limit v = Ok v.
Proof.
  unfold fits_varchar, store_varchar. destruct v as [s|]; [|reflexivity].
  intros ->. reflexivity.
Qed.

Lemma store_record_fits (r : CountryRecord) :
  fits_schema r = true -> store_record r = Ok r.
Proof.
  unfold fits_schema. intros H.
  apply andb_prop in H as [H Hmax]. apply andb_prop in H as [H Hmin].
  apply andb_prop in H as [H Hreg]. apply andb_prop in H as [H Hc3].
  apply andb_prop in H as [Hname Hc2].
  unfold store_record, store_bigint.
  rewrite (store_varchar_fits "name" 255 (name r) Hname). cbn [bind].
  rewrite (store_varchar_fits "cca2" 10 (cca2 r) Hc2). cbn [bind].
  rewrite (store_varchar_fits "cca3" 10 (cca3 r) Hc3). cbn [bind].
  rewrite (store_varchar_fits "region" 100 (region r) Hreg). cbn [bind].
  rewrite Hmin, Hmax. cbn [bind andb]. destruct r; reflexivity.
Qed.

Lemma mapM_store_record_fits (l : list CountryRecord) :
  forallb fits_schema l = true -> mapM store_record l = Ok l.
Proof.
  induction l as [|r l IH]; cbn [forallb mapM]; intros H.
  - reflexivity.
  - apply andb_prop in H. destruct H as [Hr Hl].
    rewrite (store_record_fits r Hr), (IH Hl). reflexivity.
Qed.

Lemma get_all_data_idle (E : Engine) (self : DatabaseManager) (t : Table) :
  conn self = Some {| committed := Some t; status := Idle |} ->
  get_all_data self
  = (Ok {| columns := country_columns; records := map fields (seq_scan (heap t)) |},
     with_conn self (Some {| committed := Some t; status := InTransaction (Some t) |})).
Proof.
  intros Hconn. destruct self as [h d u p k]. cbn [conn] in Hconn. subst k. reflexivity.
Qed.

(** A batch of records that fit the columns and that the driver can adapt is
    stored as it is, when the sequence has room for it. *)
Lemma batch_fits (last : Z) (l : list CountryRecord) :
  forallb fits_schema l = true ->
  forallb adaptable l = true ->
  room last (List.length l) ->
  batch last l = Ok l.
Proof.
  intros Hfits Hadapt Hroom. apply batch_Ok_iff.
  split; [exact Hadapt|]. split; [apply mapM_store_record_fits; exact Hfits | exact Hroom].
Qed.

(** C6, as amended.  For a non-empty frame whose records fit the columns
    (text within the column lengths and free of the character NUL, population
    within 64 bits), on a usable connection whose identifier sequence has a
    value left for every record, [save_data] followed by [get_all_data]
    returns a frame with as many records, and the records returned are the
    records loaded, each with all six fields unchanged; they come in the
    order of the engine's scan, which is the loaded order when the scan
    follows insertion order. *)
Theorem load_then_read_round_trip
    (E : Engine) (self : DatabaseManager) (c : Connection) (df : DataFrame CountryRecord) :
  conn self = Some c ->
  usable c ->
  records df <> [] ->
  forallb fits_schema (records df) = true ->
  forallb adaptable (records df) = true ->
  last_id_seen c + Z.of_nat (df_len df) <= serial_max ->
  exists self' out self'',
    save_data df self = (Ok tt, self')
    /\ get_all_data self' = (Ok out, self'')
    /\ df_len out = df_len df
    /\ Permutation (records out) (records df)
    /\ ((forall l, seq_scan l = l) -> records out = records df).
Proof.
  intros Hconn Husable _ Hfits Hadapt Hroom.
  pose proof (save_data_usable self c df Hconn Husable) as Hrun.
  rewrite (batch_fits (last_id_seen c) (records df) Hfits Hadapt (or_intror Hroom)) in Hrun.
  rewrite Hrun.
  eexists. eexists. eexists.
  split; [reflexivity|].
  split; [apply get_all_data_idle; reflexivity|].
  cbn [records heap].
  assert (Hperm : Permutation
                    (map fields (seq_scan (assign_ids (last_id_seen c) (records df))))
                    (records df)).
  { rewrite <- (assign_ids_fields (last_id_seen c) (records df)) at 2.
    apply Permutation_map, seq_scan_perm. }
  split; [|split; [exact Hperm|]].
  - unfold df_len. cbn [records]. apply Permutation_length. exact Hperm.
  - intros Hscan. rewrite Hscan. apply assign_ids_fields.
Qed.

Lemma load_then_read_round_trip_witness :
  exists self' out self'',
    save_data (frame_of [country "A" (Some "X") 10; country "B" None 20])
      (manager_with three_rows 3) = (Ok tt, self')
    /\ get_all_data (E := heap_order_engine) self' = (Ok out, self'')
    /\ df_len out = 2%nat
    /\ Permutation (records out) [country "A" (Some "X") 10; country "B" None 20]
    /\ ((forall l, seq_scan (Engine := heap_order_engine) l = l) ->
        records out = [country "A" (Some "X") 10; country "B" None 20]).
Proof.
  apply (load_then_read_round_trip heap_order_engine (manager_with three_rows 3)
           (idle_connection three_rows 3)
           (frame_of [country "A" (Some "X") 10; country "B" None 20])).
  - reflexivity.
  - discriminate.
  - discriminate.
  - reflexivity.
  - reflexivity.
  - vm_compute. discriminate.
Defined.

(** C6 as stated fails: with a name longer than its column the load raises,
    and the read that follows returns no frame. *)
Lemma round_trip_counterexample :
  ~ (forall (E : Engine) (self : DatabaseManager) (c : Connection)
            (df : DataFrame CountryRecord),
        conn self = Some c ->
        status c = Idle ->
        records df <> [] ->
        exists out, fst (get_all_data (snd (save_data df self))) = Ok out
                    /\ records out = records df).
Proof.
  intros H.
  destruct (H heap_order_engine (manager_with [] 0) (idle_connection [] 0)
              (frame_of [country long_name (Some "X") 1])
              eq_refl eq_refl ltac:(discriminate)) as (out & Hread & _).
  vm_compute in Hread. discriminate Hread.
Qed.

(** A completed load can still alter a field: a name whose excess over the
    column length is white space is cut to that length. *)
Definition padded_name : string := string_of_list_ascii (repeat "x"%char 255 ++ [" "%char]).

Example load_cuts_trailing_space :
  fst (save_data (frame_of [country padded_name None 1]) (manager_with [] 0)) = Ok tt
  /\ option_map records
       (match fst (get_all_data (E := heap_order_engine)
                     (snd (save_data (frame_of [country padded_name None 1])
                             (manager_with [] 0)))) with
        | Ok out => Some out
        | Raise _ => None
        end)
     = Some [country (string_of_list_ascii (repeat "x"%char 255)) None 1].
Proof. split; vm_compute; reflexivity. Qed.

(** ** From the fetched frame to the store

    The rows of a fetched frame are the parameter tuples of the insert.  The
    typed store takes text or [None] in the four text columns, an integer in
    [population] and a number in [area]; a frame with any other cell is
    outside the model. *)

Definition text_cell (v : json) : option (option string) :=
  match v with
  | JStr s => Some (Some s)
  | JNull => Some None
  | _ => None
  end.

Definition int_cell (v : json) : option Z :=
  match v with
  | JInt z => Some z
  | _ => None
  end.

Definition float_cell (v : json) : option float :=
  match v with
  | JFloat f => Some f
  | JInt z => Some (float_of_Z z)
  | _ => None
  end.

Definition parameter_tuple (t : CountryTuple) : option CountryRecord :=
  match text_cell (t_name t), text_cell (t_cca2 t), text_cell (t_cca3 t),
        text_cell (t_region t), int_cell (t_population t), float_cell (t_area t) with
  | Some n, Some c2, Some c3, Some reg, Some pop, Some ar =>
      Some {| name := n; cca2 := c2; cca3 := c3; region := reg;
              population := pop; area := ar |}
  | _, _, _, _, _, _ => None
  end.

Fixpoint traverse {A B : Type} (f : A -> option B) (l : list A) : option (list B) :=
  match l with
  | [] => Some []
  | x :: l' =>
      match f x, traverse f l' with
      | Some y, Some ys => Some (y :: ys)
      | _, _ => None
      end
  end.

Definition parameter_frame (df : DataFrame CountryTuple) : option (DataFrame CountryRecord) :=
  option_map (fun rows => {| columns := columns df; records := rows |})
             (traverse parameter_tuple (records df)).

Lemma traverse_nth {A B : Type} (f : A -> option B) (l : list A) (out : list B) :
  traverse f l = Some out ->
  forall i x, nth_error l i = Some x ->
              exists y, nth_error out i = Some y /\ f x = Some y.
Proof.
  revert out. induction l as [|a l IH]; cbn [traverse]; intros out H i x Hi.
  - destruct i; discriminate Hi.
  - destruct (f a) as [b|] eqn:Hfa; [|discriminate].
    destruct (traverse f l) as [bs|]; [|discriminate].
    injection H as <-. destruct i as [|i]; cbn [nth_error] in *.
    + injection Hi as <-. exists b. split; [reflexivity | exact Hfa].
    + apply (IH bs eq_refl i x Hi).
Qed.

Lemma traverse_length {A B : Type} (f : A -> option B) (l : list A) (out : list B) :
  traverse f l = Some out -> List.length out = List.length l.
Proof.
  revert out. induction l as [|a l IH]; cbn [traverse]; intros out H.
  - injection H as <-. reflexivity.
  - destruct (f a); [|discriminate]. destruct (traverse f l) as [bs|]; [|discriminate].
    injection H as <-. cbn. f_equal. apply IH. reflexivity.
Qed.

Lemma mapM_nth {A B : Type} (f : A -> result B) (l : list A) (out : list B) :
  mapM f l = Ok out ->
  forall i x, nth_error l i = Some x ->
              exists y, nth_error out i = Some y /\ f x = Ok y.
Proof.
  revert out. induction l as [|a l IH]; cbn [mapM]; intros out H i x Hi.
  - destruct i; discriminate Hi.
  - destruct (f a) as [b|e] eqn:Hfa; cbn [bind] in H; [|discriminate].
    destruct (mapM f l) as [bs|e]; cbn [bind] in H; [|discriminate].
    injection H as <-. destruct i as [|i]; cbn [nth_error] in *.
    + injection Hi as <-. exists b. split; [reflexivity | exact Hfa].
    + apply (IH bs eq_refl i x Hi).
Qed.

(** C10.  The i-th row of the frame returned by [fetch_api_data] is the
    normalization of the i-th object of the source array, and [save_data]
    inserts the rows in that order: the heap holds one row per source object,
    the i-th row holding what the i-th object's normalization stores, and the
    identifiers increase strictly along the heap, so insertion order, order by
    identifier and fetch order are one and the same. *)
Theorem fetch_then_load_preserves_order
    (net : Network) (response : Response) (data : list json)
    (tf : DataFrame CountryRecord) (self self' : DatabaseManager) (c : Connection) :
  requests_get net restcountries_url = Ok response ->
  raise_for_status response = Ok tt ->
  response_json response = Ok (JArr data) ->
  forallb is_country_object data = true ->
  parameter_frame (fst (fetch_api_data net)) = Some tf ->
  conn self = Some c ->
  save_data tf self = (Ok tt, self') ->
  (forall i, nth_error (records (fst (fetch_api_data net))) i
             = option_map normalized (nth_error data i))
  /\ exists rows,
       committed_rows self' = Some rows
       /\ List.length rows = List.length data
       /\ StronglySorted (fun a b => row_id a < row_id b) rows
       /\ (forall i item,
              nth_error data i = Some item ->
              exists row r,
                nth_error rows i = Some row
                /\ parameter_tuple (normalized item) = Some r
                /\ store_record r = Ok (fields row)).
Proof.
  intros Hget Hstatus Hjson Hwf Hframe Hconn Hrun.
  rewrite (fetch_api_data_frame net response data Hget Hstatus Hjson Hwf) in *.
  cbn [fst records] in *.
  split; [intros i; apply nth_error_map|].
  unfold parameter_frame in Hframe. cbn [records columns] in Hframe.
  destruct (traverse parameter_tuple (map normalized data)) as [typed|] eqn:Htyped;
    [|discriminate].
  cbn [option_map] in Hframe. injection Hframe as <-.
  destruct (save_data_returns self self' c _ Hconn Hrun) as (stored & _ & Hstore & ->).
  cbn [records] in Hstore.
  exists (assign_ids (last_id_seen c) stored).
  split; [reflexivity|]. split; [|split].
  - rewrite assign_ids_length, (mapM_length _ _ _ Hstore),
      (traverse_length _ _ _ Htyped). apply length_map.
  - apply assign_ids_increasing.
  - intros i item Hitem.
    assert (Hnorm : nth_error (map normalized data) i = Some (normalized item)).
    { rewrite nth_error_map, Hitem. reflexivity. }
    destruct (traverse_nth _ _ _ Htyped i _ Hnorm) as (r & Hr & Hparam).
    destruct (mapM_nth _ _ _ Hstore i r Hr) as (s & Hs & Hstored).
    pose proof (assign_ids_fields (last_id_seen c) stored) as Hfields.
    assert (Hrow : nth_error (map fields (assign_ids (last_id_seen c) stored)) i = Some s).
    { rewrite Hfields. exact Hs. }
    rewrite nth_error_map in Hrow.
    destruct (nth_error (assign_ids (last_id_seen c) stored) i) as [row|]; [|discriminate].
    cbn [option_map] in Hrow. injection Hrow as <-.
    exists row, r. repeat split; assumption.
Qed.

Definition two_countries_frame : DataFrame CountryRecord :=
  {| columns := country_columns;
     records :=
       [ {| name := Some "Ukraine"; cca2 := Some "UA"; cca3 := Some "UKR";
            region := Some "Europe"; population := 44134693;
            area := 603500%float |};
         {| name := Some "N/A"; cca2 := Some "XX"; cca3 := Some "";
            region := Some "Other"; population := 12; area := 0%float |} ] |}.

Lemma fetch_then_load_preserves_order_witness :
  (forall i, nth_error (records (fst (fetch_api_data (answering (JArr two_countries))))) i
             = option_map normalized (nth_error two_countries i))
  /\ exists rows,
       committed_rows (snd (save_data two_countries_frame (manager_with three_rows 3)))
       = Some rows
       /\ List.length rows = List.length two_countries
       /\ StronglySorted (fun a b => row_id a < row_id b) rows
       /\ (forall i item,
              nth_error two_countries i = Some item ->
              exists row r,
                nth_error rows i = Some row
                /\ parameter_tuple (normalized item) = Some r
                /\ store_record r = Ok (fields row)).
Proof.
  apply (fetch_then_load_preserves_order (answering (JArr two_countries))
           {| status_code := 200; response_json := Ok (JArr two_countries) |}
           two_countries two_countries_frame (manager_with three_rows 3)
           (snd (save_data two_countries_frame (manager_with three_rows 3)))
           (idle_connection three_rows 3)).
  - reflexivity.
  - reflexivity.
  - reflexivity.
  - reflexivity.
  - vm_compute. reflexivity.
  - reflexivity.
  - vm_compute. reflexivity.
Defined.

(** ** The binary64 number of an integer

    What [float_of_Z] computes, read off the definitions of the standard
    library's specification of IEEE 754 arithmetic: below 2^53 in magnitude
    an integer is represented exactly; beyond, it is rounded to 53 bits, ties
    to even; and the rounding is monotone. *)

Lemma digits2_pos_bounds (p : positive) :
  2 ^ (Z.pos (digits2_pos p) - 1) <= Z.pos p < 2 ^ Z.pos (digits2_pos p).
Proof.
  induction p as [p IH|p IH|]; cbn [digits2_pos].
  - rewrite Pos2Z.inj_succ.
    replace (Z.succ (Z.pos (digits2_pos p)) - 1) with (Z.succ (Z.pos (digits2_pos p) - 1)) by lia.
    rewrite !Z.pow_succ_r by lia. lia.
  - rewrite Pos2Z.inj_succ.
    replace (Z.succ (Z.pos (digits2_pos p)) - 1) with (Z.succ (Z.pos (digits2_pos p) - 1)) by lia.
    rewrite !Z.pow_succ_r by lia. lia.
  - cbn. lia.
Qed.

Lemma digits2_pos_unique (p : positive) (d : Z) :
  2 ^ (d - 1) <= Z.pos p < 2 ^ d -> 0 < d -> Z.pos (digits2_pos p) = d.
Proof.
  intros [Hlo Hhi] Hd.
  destruct (digits2_pos_bounds p) as [Hlo' Hhi'].
  destruct (Z.lt_trichotomy (Z.pos (digits2_pos p)) d) as [Hlt | [Heq | Hgt]]; [|exact Heq|].
  - assert (2 ^ Z.pos (digits2_pos p) <= 2 ^ (d - 1)) by (apply Z.pow_le_mono_r; lia). lia.
  - assert (2 ^ d <= 2 ^ (Z.pos (digits2_pos p) - 1)) by (apply Z.pow_le_mono_r; lia). lia.
Qed.

Lemma iter_pos_invariant {A : Type} (f : A -> A) (P : Z -> A -> Prop) :
  (forall k x, 0 <= k -> P k x -> P (k + 1) (f x)) ->
  forall n k x, 0 <= k -> P k x -> P (k + Z.pos n) (iter_pos f n x).
Proof.
  intros Hstep. induction n as [n IH|n IH|]; intros k x Hk Hx; cbn [iter_pos].
  - replace (k + Z.pos n~1) with (k + 1 + Z.pos n + Z.pos n) by lia.
    apply IH; [lia|]. apply IH; [lia|]. apply Hstep; assumption.
  - replace (k + Z.pos n~0) with (k + Z.pos n + Z.pos n) by lia.
    apply IH; [lia|]. apply IH; assumption.
  - apply Hstep; assumption.
Qed.

(** The record of [x] shifted right by [k] binary places. *)
Definition shifted (x k : Z) (mrs : shr_record) : Prop :=
  shr_m mrs = x / 2 ^ k
  /\ shr_r mrs = (if k =? 0 then false else Z.odd (x / 2 ^ (k - 1)))
  /\ shr_s mrs = (if k =? 0 then false else negb (x mod 2 ^ (k - 1) =? 0)).

Lemma shr_1_nonneg (m : Z) (r s : bool) :
  0 <= m ->
  shr_1 {| shr_m := m; shr_r := r; shr_s := s |}
  = {| shr_m := m / 2; shr_r := Z.odd m; shr_s := r || s |}.
Proof.
  intros Hm. rewrite <- Z.div2_div.
  destruct m as [|[p|p|]|p]; try reflexivity. lia.
Qed.

Lemma odd_mod2 (y : Z) : Z.odd y = negb (y mod 2 =? 0).
Proof.
  rewrite Zmod_odd. destruct (Z.odd y); reflexivity.
Qed.

Lemma shifted_step (x k : Z) (mrs : shr_record) :
  0 <= x -> 0 <= k -> shifted x k mrs -> shifted x (k + 1) (shr_1 mrs).
Proof.
  intros Hx Hk (Hm & Hr & Hs). destruct mrs as [m r s]. cbn [shr_m shr_r shr_s] in *.
  assert (Hpow : 0 < 2 ^ k) by (apply Z.pow_pos_nonneg; lia).
  assert (Hm0 : 0 <= m) by (subst m; apply Z.div_pos; lia).
  rewrite (shr_1_nonneg m r s Hm0). unfold shifted. cbn [shr_m shr_r shr_s].
  replace (k + 1 =? 0) with false by (symmetry; apply Z.eqb_neq; lia).
  replace (k + 1 - 1) with k by lia.
  split; [|split].
  - subst m. rewrite Z.pow_add_r by lia. rewrite Z.div_div by lia. reflexivity.
  - subst m. reflexivity.
  - destruct (Z.eqb_spec k 0) as [-> | Hk0].
    + subst r s. cbn [orb]. rewrite Z.pow_0_r, Z.mod_1_r. reflexivity.
    + subst r s.
      set (b := 2 ^ (k - 1)).
      assert (Hb : 0 < b) by (apply Z.pow_pos_nonneg; lia).
      assert (Hk2 : 2 ^ k = b * 2).
      { unfold b. replace k with (Z.succ (k - 1)) at 1 by lia.
        rewrite Z.pow_succ_r by lia. lia. }
      rewrite Hk2, Z.rem_mul_r by lia. rewrite odd_mod2.
      pose proof (Z.mod_pos_bound x b Hb).
      pose proof (Z.mod_pos_bound (x / b) 2 ltac:(lia)).
      destruct (Z.eqb_spec ((x / b) mod 2) 0) as [Ha | Ha];
        destruct (Z.eqb_spec (x mod b) 0) as [Hb1 | Hb1]; cbn [negb orb];
        symmetry;
        destruct (Z.eqb_spec (x mod b + b * ((x / b) mod 2)) 0) as [Hc | Hc];
        cbn [negb]; try reflexivity; exfalso; nia.
Qed.

Definition round_up (x k : Z) : bool :=
  Z.odd (x / 2 ^ (k - 1)) && (negb (x mod 2 ^ (k - 1) =? 0) || Z.odd (x / 2 ^ k)).

(** [x / 2 ^ k] rounded to the nearest integer, ties to even. *)
Definition rounded (x k : Z) : Z := x / 2 ^ k + (if round_up x k then 1 else 0).

Lemma round_nearest_even_shifted (x k : Z) (mrs : shr_record) :
  0 < k -> shifted x k mrs ->
  round_nearest_even (shr_m mrs) (loc_of_shr_record mrs) = rounded x k.
Proof.
  intros Hk (Hm & Hr & Hs). destruct mrs as [m r s]. cbn [shr_m shr_r shr_s] in *.
  replace (k =? 0) with false in * by (symmetry; apply Z.eqb_neq; lia).
  unfold rounded, round_up. rewrite <- Hm, <- Hr, <- Hs.
  destruct r, s; cbn [loc_of_shr_record round_nearest_even andb orb]; try lia.
  rewrite <- Z.negb_odd. destruct (Z.odd m); cbn [negb]; lia.
Qed.

Lemma iter_shr_1_shifted (p n : positive) :
  shifted (Z.pos p) (Z.pos n)
          (iter_pos shr_1 n {| shr_m := Z.pos p; shr_r := false; shr_s := false |}).
Proof.
  change (Z.pos n) with (0 + Z.pos n).
  apply (iter_pos_invariant shr_1 (shifted (Z.pos p))).
  - intros k x Hk. apply shifted_step; lia.
  - lia.
  - unfold shifted. cbn [shr_m shr_r shr_s Z.eqb]. rewrite Z.pow_0_r, Z.div_1_r. auto.
Qed.

Lemma rounded_mono (x y k : Z) :
  0 < k -> 0 <= x <= y -> rounded x k <= rounded y k.
Proof.
  intros Hk [Hx Hxy]. unfold rounded, round_up.
  set (b := 2 ^ (k - 1)).
  assert (Hb : 0 < b) by (apply Z.pow_pos_nonneg; lia).
  assert (Hk2 : 2 ^ k = b * 2).
  { unfold b. replace k with (Z.succ (k - 1)) at 1 by lia.
    rewrite Z.pow_succ_r by lia. lia. }
  rewrite Hk2, <- !Z.div_div by lia. rewrite !odd_mod2.
  pose proof (Z.div_mod x b ltac:(lia)) as Ex.
  pose proof (Z.div_mod y b ltac:(lia)) as Ey.
  pose proof (Z.mod_pos_bound x b Hb) as Bx.
  pose proof (Z.mod_pos_bound y b Hb) as By.
  pose proof (Z.div_mod (x / b) 2 ltac:(lia)) as Ehx.
  pose proof (Z.div_mod (y / b) 2 ltac:(lia)) as Ehy.
  pose proof (Z.mod_pos_bound (x / b) 2 ltac:(lia)) as Bhx.
  pose proof (Z.mod_pos_bound (y / b) 2 ltac:(lia)) as Bhy.
  pose proof (Z.mod_pos_bound (x / b / 2) 2 ltac:(lia)) as Bqx.
  pose proof (Z.mod_pos_bound (y / b / 2) 2 ltac:(lia)) as Bqy.
  assert (Hh : x / b <= y / b) by (apply Z.div_le_mono; lia).
  assert (Hq : x / b / 2 <= y / b / 2) by (apply Z.div_le_mono; lia).
  destruct (Z.lt_ge_cases (x / b / 2) (y / b / 2)) as [Hlt | Hge].
  - destruct (negb ((x / b) mod 2 =? 0)
              && (negb (x mod b =? 0) || negb ((x / b / 2) mod 2 =? 0)))%bool;
      destruct (negb ((y / b) mod 2 =? 0)
                && (negb (y mod b =? 0) || negb ((y / b / 2) mod 2 =? 0)))%bool; lia.
  - assert (Heq : x / b / 2 = y / b / 2) by lia. rewrite Heq in *.
    destruct (Z.eqb_spec ((x / b) mod 2) 0); destruct (Z.eqb_spec (x mod b) 0);
      destruct (Z.eqb_spec ((y / b / 2) mod 2) 0);
      destruct (Z.eqb_spec ((y / b) mod 2) 0); destruct (Z.eqb_spec (y mod b) 0);
      cbn [negb andb orb]; try lia;
      exfalso; assert (Hsame : x / b = y / b) by lia; rewrite Hsame in *; lia.
Qed.

Lemma fexp_eq (e : Z) : fexp prec emax e = Z.max (e - 53) (-1074).
Proof. reflexivity. Qed.

Lemma digits2_pos_log2 (p : positive) : Z.pos (digits2_pos p) = Z.log2 (Z.pos p) + 1.
Proof.
  apply digits2_pos_unique.
  - pose proof (Z.log2_spec (Z.pos p) ltac:(lia)) as H.
    replace (Z.log2 (Z.pos p) + 1 - 1) with (Z.log2 (Z.pos p)) by lia.
    replace (Z.log2 (Z.pos p) + 1) with (Z.succ (Z.log2 (Z.pos p))) by lia. exact H.
  - pose proof (Z.log2_nonneg (Z.pos p)). lia.
Qed.

Lemma iter_xO (p s : positive) : Z.pos (Pos.iter xO p s) = Z.pos p * 2 ^ Z.pos s.
Proof.
  induction s as [|s IH] using Pos.peano_ind.
  - cbn [Pos.iter]. lia.
  - rewrite Pos.iter_succ, Pos2Z.inj_succ, Z.pow_succ_r by lia.
    rewrite Pos2Z.inj_xO, IH. lia.
Qed.

Lemma shr_fexp_canonical (m : positive) (e : Z) :
  Z.pos (digits2_pos m) = 53 ->
  -1074 <= e ->
  shr_fexp prec emax (Z.pos m) e loc_Exact
  = ({| shr_m := Z.pos m; shr_r := false; shr_s := false |}, e).
Proof.
  intros Hd He. unfold shr_fexp. cbn [Zdigits2 shr_record_of_loc].
  rewrite Hd, fexp_eq.
  replace (Z.max (53 + e - 53) (-1074) - e) with 0 by lia. reflexivity.
Qed.

Definition finite_or_inf (sx : bool) (me : Z * Z) : spec_float :=
  match fst me with
  | Z.pos m => if snd me <=? 971 then S754_finite sx m (snd me) else S754_infinity sx
  | Z0 => S754_zero sx
  | Z.neg _ => S754_nan
  end.

Lemma binary_round_aux_canonical (sx : bool) (m : positive) (e : Z) :
  Z.pos (digits2_pos m) = 53 ->
  -1074 <= e ->
  binary_round_aux prec emax sx (Z.pos m) e loc_Exact = finite_or_inf sx (Z.pos m, e).
Proof.
  intros Hd He. unfold binary_round_aux.
  rewrite (shr_fexp_canonical m e Hd He).
  cbn [shr_m loc_of_shr_record round_nearest_even].
  rewrite (shr_fexp_canonical m e Hd He). reflexivity.
Qed.

(** The mantissa, of 53 bits, and the exponent of the binary64 number nearest
    to a positive integer, before the range of the exponent is checked. *)
Definition normal_of (x : Z) : Z * Z :=
  let d := Z.log2 x + 1 in
  if d <=? 53 then (x * 2 ^ (53 - d), d - 53)
  else
    let q := rounded x (d - 53) in
    if q =? 2 ^ 53 then (2 ^ 52, d - 53 + 1) else (q, d - 53).

Lemma rounded_bounds (x k : Z) :
  0 < k -> 2 ^ (52 + k) <= x < 2 ^ (53 + k) -> 2 ^ 52 <= rounded x k <= 2 ^ 53.
Proof.
  intros Hk [Hlo Hhi].
  assert (Hpow : 0 < 2 ^ k) by (apply Z.pow_pos_nonneg; lia).
  rewrite Z.pow_add_r in Hlo, Hhi by lia.
  assert (H1 : 2 ^ 52 <= x / 2 ^ k) by (apply Z.div_le_lower_bound; lia).
  assert (H2 : x / 2 ^ k < 2 ^ 53) by (apply Z.div_lt_upper_bound; lia).
  unfold rounded. destruct (round_up x k); lia.
Qed.

Lemma shr_fexp_carry (e : Z) :
  -1075 <= e ->
  shr_fexp prec emax (2 ^ 53) e loc_Exact
  = ({| shr_m := 2 ^ 52; shr_r := false; shr_s := false |}, e + 1).
Proof.
  intros He. unfold shr_fexp. change (Zdigits2 (2 ^ 53)) with 54.
  rewrite fexp_eq. replace (Z.max (54 + e - 53) (-1074) - e) with 1 by lia.
  reflexivity.
Qed.

Lemma binary_round_normal (sx : bool) (p : positive) :
  binary_round prec emax sx p 0 = finite_or_inf sx (normal_of (Z.pos p)).
Proof.
  unfold binary_round, normal_of. rewrite <- (digits2_pos_log2 p).
  remember (Z.pos (digits2_pos p)) as d eqn:Hdef.
  assert (Hdpos : 0 < d) by (rewrite Hdef; lia).
  rewrite fexp_eq. replace (Z.max (d + 0 - 53) (-1074)) with (d - 53) by lia.
  unfold shl_align.
  destruct (Z.leb_spec d 53) as [Hd | Hd].
  - destruct (d - 53 - 0) as [|s|s] eqn:Hs; [| lia |].
    + replace (53 - d) with 0 by lia. rewrite Z.pow_0_r, Z.mul_1_r.
      replace (d - 53) with 0 by lia.
      apply binary_round_aux_canonical; lia.
    + replace (Z.pos p * 2 ^ (53 - d)) with (Z.pos (Pos.iter xO p s))
        by (rewrite iter_xO; f_equal; f_equal; lia).
      apply binary_round_aux_canonical; [|lia].
      apply digits2_pos_unique; [|lia].
      rewrite iter_xO. replace (Z.pos s) with (53 - d) by lia.
      assert (H52 : 2 ^ (53 - 1) = 2 ^ (d - 1) * 2 ^ (53 - d))
        by (rewrite <- Z.pow_add_r by lia; f_equal; lia).
      assert (H53 : 2 ^ 53 = 2 ^ d * 2 ^ (53 - d))
        by (rewrite <- Z.pow_add_r by lia; f_equal; lia).
      rewrite H52, H53.
      assert (Hpow : 0 < 2 ^ (53 - d)) by (apply Z.pow_pos_nonneg; lia).
      pose proof (digits2_pos_bounds p) as Hb. rewrite <- Hdef in Hb.
      clear - Hb Hpow. nia.
  - destruct (d - 53 - 0) as [|k|k] eqn:Hk; [lia | | lia].
    assert (Hk' : d - 53 = Z.pos k) by lia. rewrite Hk'.
    unfold binary_round_aux, shr_fexp at 1. cbn [Zdigits2 shr_record_of_loc].
    rewrite <- Hdef.
    rewrite fexp_eq. replace (Z.max (d + 0 - 53) (-1074) - 0) with (Z.pos k) by lia.
    cbn [shr]. pose proof (iter_shr_1_shifted p k) as Hsh.
    rewrite (round_nearest_even_shifted (Z.pos p) (Z.pos k) _ ltac:(lia) Hsh).
    assert (Hq : 2 ^ 52 <= rounded (Z.pos p) (Z.pos k) <= 2 ^ 53).
    { apply rounded_bounds; [lia|].
      replace (52 + Z.pos k) with (d - 1) by lia.
      replace (53 + Z.pos k) with d by lia. rewrite Hdef. apply digits2_pos_bounds. }
    cbn [Z.add].
    destruct (Z.eqb_spec (rounded (Z.pos p) (Z.pos k)) (2 ^ 53)) as [Heq | Hne].
    + rewrite Heq, shr_fexp_carry by lia. cbn [shr_m]. reflexivity.
    + destruct (rounded (Z.pos p) (Z.pos k)) as [|m|m] eqn:Hm; [lia | | lia].
      rewrite shr_fexp_canonical; [reflexivity | | lia].
      apply digits2_pos_unique; [|lia]. change (53 - 1) with 52. lia.
Qed.

Lemma log2_digits (x : Z) :
  0 < x -> 2 ^ (Z.log2 x + 1 - 1) <= x < 2 ^ (Z.log2 x + 1) /\ 0 < Z.log2 x + 1.
Proof.
  intros Hx. pose proof (Z.log2_spec x Hx) as H. pose proof (Z.log2_nonneg x) as H0.
  replace (Z.log2 x + 1 - 1) with (Z.log2 x) by (clear; lia).
  replace (Z.log2 x + 1) with (Z.succ (Z.log2 x)) by (clear; lia).
  split; [exact H | clear - H0; lia].
Qed.

(** The mantissa has exactly 53 bits; the exponent is at least -52. *)
Lemma normal_of_canonical (x : Z) :
  0 < x ->
  2 ^ 52 <= fst (normal_of x) < 2 ^ 53 /\ -52 <= snd (normal_of x).
Proof.
  intros Hx. destruct (log2_digits x Hx) as [Hb Hd]. unfold normal_of.
  remember (Z.log2 x + 1) as d eqn:Hdef. clear Hdef.
  destruct (Z.leb_spec d 53) as [Hle | Hgt]; cbn [fst snd].
  - split; [|clear - Hd; lia].
    assert (H52 : 2 ^ 52 = 2 ^ (d - 1) * 2 ^ (53 - d))
      by (rewrite <- Z.pow_add_r by lia; f_equal; lia).
    assert (H53 : 2 ^ 53 = 2 ^ d * 2 ^ (53 - d))
      by (rewrite <- Z.pow_add_r by lia; f_equal; lia).
    rewrite H52, H53.
    assert (Hpow : 0 < 2 ^ (53 - d)) by (apply Z.pow_pos_nonneg; lia).
    clear - Hb Hpow. nia.
  - assert (Hq : 2 ^ 52 <= rounded x (d - 53) <= 2 ^ 53).
    { apply rounded_bounds; [lia|].
      replace (52 + (d - 53)) with (d - 1) by lia.
      replace (53 + (d - 53)) with d by lia. exact Hb. }
    destruct (Z.eqb_spec (rounded x (d - 53)) (2 ^ 53)) as [Heq | Hne]; cbn [fst snd].
    + split; [|clear - Hgt; lia]. split; [reflexivity | reflexivity].
    + split; [|clear - Hgt; lia]. clear - Hq Hne. lia.
Qed.

(** The order of two canonical pairs: by exponent, then by mantissa. *)
Definition pair_le (a b : Z * Z) : Prop :=
  snd a < snd b \/ (snd a = snd b /\ fst a <= fst b).

Lemma normal_of_mono (x y : Z) :
  0 < x <= y -> pair_le (normal_of x) (normal_of y).
Proof.
  intros [Hx Hxy].
  assert (Hy : 0 < y) by lia.
  pose proof (normal_of_canonical x Hx) as [Hmx _].
  pose proof (normal_of_canonical y Hy) as [Hmy _].
  destruct (log2_digits x Hx) as [Hbx Hdx]. destruct (log2_digits y Hy) as [Hby Hdy].
  pose proof (Z.log2_le_mono x y Hxy) as Hlog.
  unfold pair_le. revert Hmx Hmy. unfold normal_of.
  remember (Z.log2 x + 1) as dx eqn:Hdefx.
  remember (Z.log2 y + 1) as dy eqn:Hdefy.
  assert (Hd : dx <= dy) by (clear - Hlog Hdefx Hdefy; lia).
  clear Hdefx Hdefy Hlog.
  destruct (Z.leb_spec dx 53) as [Hlx | Hgx]; destruct (Z.leb_spec dy 53) as [Hly | Hgy];
    cbn [fst snd]; intros Hmx Hmy.
  - destruct (Z.eq_dec dx dy) as [-> | Hne]; [right | left; clear - Hd Hne; lia].
    split; [reflexivity|].
    apply Z.mul_le_mono_nonneg_r; [apply Z.pow_nonneg; lia | exact Hxy].
  - left.
    destruct (rounded y (dy - 53) =? 2 ^ 53); cbn [snd]; clear - Hlx Hgy; lia.
  - clear - Hgx Hly Hd. lia.
  - destruct (Z.eq_dec dx dy) as [-> | Hne].
    + pose proof (rounded_mono x y (dy - 53) ltac:(lia) ltac:(lia)) as Hr.
      assert (Hq : 2 ^ 52 <= rounded y (dy - 53) <= 2 ^ 53).
      { apply rounded_bounds; [lia|].
        replace (52 + (dy - 53)) with (dy - 1) by lia.
        replace (53 + (dy - 53)) with dy by lia. exact Hby. }
      revert Hmx Hmy.
      destruct (Z.eqb_spec (rounded x (dy - 53)) (2 ^ 53)) as [Hex | Hnx];
        destruct (Z.eqb_spec (rounded y (dy - 53)) (2 ^ 53)) as [Hey | Hny];
        cbn [fst snd]; intros Hmx Hmy.
      * right. split; reflexivity.
      * exfalso. clear - Hr Hex Hny Hq. lia.
      * left. clear. lia.
      * right. split; [reflexivity | exact Hr].
    + revert Hmx Hmy.
      destruct (Z.eqb_spec (rounded x (dx - 53)) (2 ^ 53)) as [Hex | Hnx];
        destruct (Z.eqb_spec (rounded y (dy - 53)) (2 ^ 53)) as [Hey | Hny];
        cbn [fst snd]; intros Hmx Hmy.
      * left. clear - Hd Hne. lia.
      * destruct (Z.eq_dec (dx - 53 + 1) (dy - 53)) as [He | He].
        -- right. split; [exact He | clear - Hmy; lia].
        -- left. clear - Hd Hne He. lia.
      * left. clear - Hd Hne. lia.
      * left. clear - Hd Hne. lia.
Qed.

Definition binary64_of_Z (z : Z) : spec_float := binary_normalize prec emax z 0 false.

Lemma binary64_of_Z_cases (z : Z) :
  binary64_of_Z z
  = match z with
    | 0 => S754_zero false
    | Z.pos p => finite_or_inf false (normal_of (Z.pos p))
    | Z.neg p => finite_or_inf true (normal_of (Z.pos p))
    end.
Proof. destruct z; [reflexivity | apply binary_round_normal | apply binary_round_normal]. Qed.

Lemma finite_or_inf_cases (sx : bool) (x : Z) :
  0 < x ->
  exists m, fst (normal_of x) = Z.pos m
            /\ Z.pos (digits2_pos m) = 53
            /\ finite_or_inf sx (normal_of x)
               = if snd (normal_of x) <=? 971 then S754_finite sx m (snd (normal_of x))
                 else S754_infinity sx.
Proof.
  intros Hx. destruct (normal_of_canonical x Hx) as [Hm _].
  unfold finite_or_inf. destruct (fst (normal_of x)) as [|m|m]; [lia | | lia].
  exists m. split; [reflexivity|]. split; [|reflexivity].
  apply digits2_pos_unique; [exact Hm | lia].
Qed.

Lemma binary64_of_Z_valid (z : Z) : valid_binary (binary64_of_Z z) = true.
Proof.
  rewrite binary64_of_Z_cases.
  destruct z as [|p|p]; [reflexivity | |];
    [destruct (finite_or_inf_cases false (Z.pos p) ltac:(lia)) as (m & _ & Hd & ->)
    |destruct (finite_or_inf_cases true (Z.pos p) ltac:(lia)) as (m & _ & Hd & ->)];
    (
     destruct (normal_of_canonical (Z.pos p) ltac:(lia)) as [_ He];
     destruct (Z.leb_spec (snd (normal_of (Z.pos p))) 971) as [Hle | Hgt]; [|reflexivity];
     cbn [SpecFloat.valid_binary]; unfold bounded, canonical_mantissa;
     rewrite Hd, fexp_eq;
     apply andb_true_intro; split; [apply Z.eqb_eq; lia | apply Z.leb_le; exact Hle]).
Qed.

Lemma SFleb_positive (x y : Z) :
  0 < x <= y ->
  SFleb (finite_or_inf false (normal_of x)) (finite_or_inf false (normal_of y)) = true.
Proof.
  intros Hxy. pose proof (normal_of_mono x y Hxy) as Hle.
  destruct (finite_or_inf_cases false x ltac:(lia)) as (mx & Hmx & _ & ->).
  destruct (finite_or_inf_cases false y ltac:(lia)) as (my & Hmy & _ & ->).
  unfold pair_le in Hle. rewrite Hmx, Hmy in Hle.
  destruct (Z.leb_spec (snd (normal_of x)) 971); destruct (Z.leb_spec (snd (normal_of y)) 971);
    try reflexivity; [|exfalso; lia].
  unfold SFleb, SFcompare. destruct Hle as [Hlt | [Heq Hm]].
  - apply Z.compare_lt_iff in Hlt. rewrite Hlt. reflexivity.
  - rewrite Heq, Z.compare_refl. fold (Pos.compare mx my).
    destruct (Pos.compare_spec mx my); try reflexivity. lia.
Qed.

Lemma SFleb_negative (x y : Z) :
  0 < x <= y ->
  SFleb (finite_or_inf true (normal_of y)) (finite_or_inf true (normal_of x)) = true.
Proof.
  intros Hxy. pose proof (normal_of_mono x y Hxy) as Hle.
  destruct (finite_or_inf_cases true x ltac:(lia)) as (mx & Hmx & _ & ->).
  destruct (finite_or_inf_cases true y ltac:(lia)) as (my & Hmy & _ & ->).
  unfold pair_le in Hle. rewrite Hmx, Hmy in Hle.
  destruct (Z.leb_spec (snd (normal_of x)) 971); destruct (Z.leb_spec (snd (normal_of y)) 971);
    try reflexivity; [|exfalso; lia].
  unfold SFleb, SFcompare. destruct Hle as [Hlt | [Heq Hm]].
  - apply Z.compare_gt_iff in Hlt. rewrite Hlt. reflexivity.
  - rewrite Heq, Z.compare_refl. fold (Pos.compare my mx).
    destruct (Pos.compare_spec my mx); try reflexivity. lia.
Qed.

Lemma SFleb_signs (x y : Z) :
  0 < x -> 0 < y ->
  SFleb (finite_or_inf true (normal_of x)) (finite_or_inf false (normal_of y)) = true
  /\ SFleb (finite_or_inf true (normal_of x)) (S754_zero false) = true
  /\ SFleb (S754_zero false) (finite_or_inf false (normal_of y)) = true.
Proof.
  intros Hx Hy.
  destruct (finite_or_inf_cases true x Hx) as (mx & _ & _ & ->).
  destruct (finite_or_inf_cases false y Hy) as (my & _ & _ & ->).
  destruct (snd (normal_of x) <=? 971), (snd (normal_of y) <=? 971); repeat split.
Qed.

(** Rounding to binary64 is monotone. *)
Lemma binary64_of_Z_le (z1 z2 : Z) :
  z1 <= z2 -> SFleb (binary64_of_Z z1) (binary64_of_Z z2) = true.
Proof.
  intros Hle. rewrite !binary64_of_Z_cases.
  destruct z1 as [|p1|p1], z2 as [|p2|p2]; try lia; try reflexivity.
  - apply (SFleb_signs 1 (Z.pos p2)); lia.
  - apply SFleb_positive. lia.
  - apply (SFleb_signs (Z.pos p1) 1); lia.
  - apply (SFleb_signs (Z.pos p1) (Z.pos p2)); lia.
  - apply SFleb_negative. lia.
Qed.

Lemma Prim2SF_float_of_Z (z : Z) : Prim2SF (float_of_Z z) = binary64_of_Z z.
Proof. apply Prim2SF_SF2Prim, binary64_of_Z_valid. Qed.

Theorem float_of_Z_le (z1 z2 : Z) :
  z1 <= z2 -> (float_of_Z z1 <=? float_of_Z z2)%float = true.
Proof.
  intros Hle. rewrite leb_spec, !Prim2SF_float_of_Z. apply binary64_of_Z_le. exact Hle.
Qed.

(** Below 2^53 in magnitude nothing is rounded. *)
Lemma binary64_of_Z_exact (z : Z) :
  Z.abs z < 2 ^ 53 ->
  match binary64_of_Z z with
  | S754_zero _ => z = 0
  | S754_finite s m e =>
      e <= 0 /\ Z.pos m = Z.abs z * 2 ^ (- e) /\ s = (z <? 0)
  | _ => False
  end.
Proof.
  intros Hz. rewrite binary64_of_Z_cases.
  destruct z as [|p|p]; [reflexivity | |];
    (destruct (log2_digits (Z.pos p) ltac:(lia)) as [Hb Hd];
     assert (Hle : Z.log2 (Z.pos p) + 1 <= 53);
     [ destruct (Z.le_gt_cases (Z.log2 (Z.pos p) + 1) 53) as [H|H]; [exact H|];
       exfalso;
       assert (2 ^ 53 <= 2 ^ (Z.log2 (Z.pos p) + 1 - 1))
         by (apply Z.pow_le_mono_r; clear - H; lia);
       cbn [Z.abs] in Hz; clear - Hz Hb H0; lia
     | ];
     unfold normal_of, finite_or_inf;
     apply Z.leb_le in Hle; rewrite Hle; apply Z.leb_le in Hle; cbn [fst snd];
     assert (Hpow : 0 < 2 ^ (53 - (Z.log2 (Z.pos p) + 1)))
       by (apply Z.pow_pos_nonneg; clear - Hle; lia);
     destruct (Z.pos p * 2 ^ (53 - (Z.log2 (Z.pos p) + 1))) as [|m|m] eqn:Hm;
     [ clear - Hm Hpow; lia | | clear - Hm Hpow; lia ];
     replace (Z.log2 (Z.pos p) + 1 - 53 <=? 971) with true
       by (symmetry; apply Z.leb_le; clear - Hle; lia);
     split; [clear - Hle; lia|]; split; [|reflexivity];
     cbn [Z.abs]; rewrite <- Hm; f_equal; f_equal; clear; lia).
Qed.

(** An integer below 2^53 in magnitude comes back from [float] as it went. *)
Lemma int_of_float_of_Z (z : Z) :
  Z.abs z < 2 ^ 53 -> int_of_float (float_of_Z z) = Ok z.
Proof.
  intros Hz. unfold int_of_float. rewrite Prim2SF_float_of_Z.
  pose proof (binary64_of_Z_exact z Hz) as H.
  destruct (binary64_of_Z z) as [s|s| |s m e]; try contradiction.
  - subst z. reflexivity.
  - destruct H as (He & Hm & Hs). f_equal.
    assert (Hv : (if 0 <=? e then Z.pos m * 2 ^ e else Z.pos m / 2 ^ (- e)) = Z.abs z).
    { destruct (Z.leb_spec 0 e) as [H0 | H0].
      - assert (e = 0) by lia. subst e. cbn [Z.opp] in Hm.
        rewrite Z.pow_0_r in *. lia.
      - rewrite Hm. apply Z.div_mul. apply Z.pow_nonzero; lia. }
    rewrite Hv, Hs. clear. destruct (Z.ltb_spec z 0); lia.
Qed.

(** ** The aggregation *)

(** *** Lists *)

Lemma sum_population_filter_perm (p : StoredRow -> bool) (l l' : list StoredRow) :
  Permutation l l' ->
  sum_population (filter p l) = sum_population (filter p l').
Proof.
  induction 1 as [|x l l' _ IH|x y l|l l' l'' _ IH1 _ IH2]; cbn [filter].
  - reflexivity.
  - destruct (p x); cbn [sum_population fold_right]; [fold (sum_population (filter p l));
      fold (sum_population (filter p l')); rewrite IH; reflexivity | exact IH].
  - destruct (p x), (p y); cbn [sum_population fold_right]; lia.
  - congruence.
Qed.

Lemma filter_perm {A : Type} (p : A -> bool) (l l' : list A) :
  Permutation l l' -> Permutation (filter p l) (filter p l').
Proof.
  induction 1 as [|x l l' _ IH|x y l|l l' l'' _ IH1 _ IH2]; cbn [filter].
  - constructor.
  - destruct (p x); [apply perm_skip|]; exact IH.
  - destruct (p x), (p y); try apply Permutation_refl. apply perm_swap.
  - eapply perm_trans; eassumption.
Qed.

Lemma row_number_cons {A : Type} (x : A) (l : list A) :
  row_number (x :: l) = (x, 1%nat) :: combine l (seq 2 (List.length l)).
Proof. reflexivity. Qed.

Lemma row_number_fst {A : Type} (l : list A) : map fst (row_number l) = l.
Proof.
  unfold row_number. generalize 1%nat.
  induction l as [|x l IH]; intros n; cbn [List.length seq combine map fst].
  - reflexivity.
  - rewrite IH. reflexivity.
Qed.

Lemma row_number_length {A : Type} (l : list A) :
  List.length (row_number l) = List.length l.
Proof. rewrite <- (row_number_fst l) at 2. symmetry. apply length_map. Qed.

(** Only the first row of a window has row number 1. *)
Lemma row_number_1 {A : Type} (l : list A) (x : A) :
  In (x, 1%nat) (row_number l) -> exists l', l = x :: l'.
Proof.
  destruct l as [|y l]; [intros []|].
  rewrite row_number_cons. intros [H|H].
  - injection H as ->. exists l. reflexivity.
  - apply in_combine_r, in_seq in H. lia.
Qed.

Lemma row_number_In {A : Type} (l : list A) (x : A) (n : nat) :
  In (x, n) (row_number l) -> In x l.
Proof. apply in_combine_l. Qed.

Lemma row_number_has {A : Type} (l : list A) (x : A) :
  In x l -> exists n, In (x, n) (row_number l).
Proof.
  intros H. rewrite <- (row_number_fst l) in H.
  apply in_map_iff in H. destruct H as ([y n] & Hy & Hin). cbn [fst] in Hy. subst y.
  exists n. exact Hin.
Qed.

Lemma fold_greater_none_or {V : Type} (greater : option V -> option V -> option V)
    (v : option V) (l : list (option V)) :
  (forall b, greater None b = b) ->
  (forall a, greater a None = a) ->
  greater v v = v ->
  Forall (fun o => o = None \/ o = v) l ->
  fold_right greater None l = None \/ fold_right greater None l = v.
Proof.
  intros Hl Hr Hid. induction 1 as [|o l Ho _ IH]; cbn [fold_right]; [left; reflexivity|].
  destruct Ho as [-> | ->]; [rewrite Hl; exact IH|].
  destruct IH as [-> | ->]; [rewrite Hr | rewrite Hid]; right; reflexivity.
Qed.

(** [MAX] over a column all of whose non-[NULL] values are one and the same
    value returns that value. *)
Lemma fold_greater_unique {V : Type} (greater : option V -> option V -> option V)
    (v : option V) (l : list (option V)) :
  (forall b, greater None b = b) ->
  (forall a, greater a None = a) ->
  greater v v = v ->
  Forall (fun o => o = None \/ o = v) l ->
  In v l ->
  fold_right greater None l = v.
Proof.
  intros Hl Hr Hid.
  induction 1 as [|o l Ho Hall IH]; cbn [fold_right In]; [intros []|].
  pose proof (fold_greater_none_or greater v l Hl Hr Hid Hall) as Hrest.
  intros [Hhead | Htail].
  - subst o. destruct Hrest as [-> | ->]; [apply Hr | apply Hid].
  - rewrite (IH Htail). destruct Ho as [-> | ->]; [apply Hl | apply Hid].
Qed.

Lemma sql_max_text_unique (v : option string) (l : list (option string)) :
  Forall (fun o => o = None \/ o = v) l -> In v l -> sql_max_text l = v.
Proof.
  apply fold_greater_unique.
  - reflexivity.
  - intros [a|]; reflexivity.
  - destruct v as [s|]; [|reflexivity]. cbn. destruct (String.leb s s); reflexivity.
Qed.

Lemma sql_max_int_unique (v : option Z) (l : list (option Z)) :
  Forall (fun o => o = None \/ o = v) l -> In v l -> sql_max_int l = v.
Proof.
  apply fold_greater_unique.
  - reflexivity.
  - intros [a|]; reflexivity.
  - destruct v as [z|]; [|reflexivity]. cbn [greater_int]. rewrite Z.max_id. reflexivity.
Qed.

(** Selecting from a concatenation of blocks the one block that satisfies the
    predicate. *)
Lemma filter_flat_map_select {K B : Type} (f : K -> list B) (p : B -> bool)
    (k : K) (keys : list K) :
  NoDup keys ->
  In k keys ->
  (forall x, In x (f k) -> p x = true) ->
  (forall k', In k' keys -> k' <> k -> forall x, In x (f k') -> p x = false) ->
  filter p (flat_map f keys) = f k.
Proof.
  intros Hnd Hin Hk Hother.
  assert (Hall : forall l, (forall x, In x l -> p x = true) -> filter p l = l).
  { induction l as [|x l IH]; intros H; cbn [filter]; [reflexivity|].
    rewrite (H x (or_introl eq_refl)), IH; [reflexivity|].
    intros y Hy. apply H. right. exact Hy. }
  assert (Hnone : forall l, (forall x, In x l -> p x = false) -> filter p l = []).
  { induction l as [|x l IH]; intros H; cbn [filter]; [reflexivity|].
    rewrite (H x (or_introl eq_refl)). apply IH.
    intros y Hy. apply H. right. exact Hy. }
  induction Hnd as [|k0 keys Hnotin Hnd IH]; [destruct Hin|].
  cbn [flat_map]. rewrite filter_app.
  destruct Hin as [-> | Hin].
  - rewrite (Hall (f k) Hk).
    rewrite (Hnone (flat_map f keys)); [apply app_nil_r|].
    intros x Hx. apply in_flat_map in Hx. destruct Hx as (k' & Hk' & Hx).
    apply (Hother k'); [right; exact Hk' | | exact Hx].
    intros ->. contradiction.
  - rewrite (Hnone (f k0)).
    + cbn [app]. apply IH; [exact Hin|].
      intros k' Hk' Hne. apply Hother; [right; exact Hk' | exact Hne].
    + apply Hother; [left; reflexivity|]. intros ->. contradiction.
Qed.

(** *** The rows of one region *)

Definition has_region (g : string) (r : StoredRow) : bool :=
  match region (fields r) with
  | Some s => String.eqb s g
  | None => false
  end.

(** The rows of the table whose region is [g], in the order of the table. *)
Definition rows_of_region (g : string) (rows : list StoredRow) : list StoredRow :=
  filter (has_region g) rows.

Lemma has_region_iff (g : string) (r : StoredRow) :
  has_region g r = true <-> region (fields r) = Some g.
Proof.
  unfold has_region. destruct (region (fields r)) as [s|].
  - rewrite String.eqb_eq. split; [intros ->; reflexivity | intros H; injection H as ->; reflexivity].
  - split; discriminate.
Qed.

Lemma partition_is_rows_of_region (g : string) (rows : list StoredRow) :
  g <> "" ->
  partition_by_region g (filter where_region rows) = rows_of_region g rows.
Proof.
  intros Hg. unfold partition_by_region, rows_of_region.
  induction rows as [|r rows IH]; cbn [filter]; [reflexivity|].
  assert (Hsame : where_region r = true ->
                  String.eqb (region_of r) g = has_region g r).
  { unfold where_region, region_of, has_region.
    destruct (region (fields r)); [reflexivity | discriminate]. }
  assert (Hout : where_region r = false -> has_region g r = false).
  { unfold where_region, has_region. destruct (region (fields r)) as [s|]; [|reflexivity].
    destruct (String.eqb s "") eqn:Hs; cbn [negb]; [|discriminate].
    apply String.eqb_eq in Hs. subst s. intros _.
    apply String.eqb_neq. congruence. }
  destruct (where_region r).
  - cbn [filter]. rewrite (Hsame eq_refl), IH. reflexivity.
  - rewrite (Hout eq_refl). exact IH.
Qed.

Lemma where_region_iff (r : StoredRow) :
  where_region r = true <-> exists g, g <> "" /\ region (fields r) = Some g.
Proof.
  unfold where_region. destruct (region (fields r)) as [s|].
  - destruct (String.eqb s "") eqn:Hs; cbn [negb].
    + apply String.eqb_eq in Hs. subst s. split; [discriminate|].
      intros (g & Hg & H). injection H as <-. contradiction.
    + apply String.eqb_neq in Hs. split; [|reflexivity].
      intros _. exists s. split; [exact Hs | reflexivity].
  - split; [discriminate|]. intros (g & _ & H). discriminate H.
Qed.

(** The regions the query groups by. *)
Definition regions_of (rows : list StoredRow) : list string :=
  nodup string_dec (map region_of (filter where_region rows)).

Lemma regions_of_iff (rows : list StoredRow) (g : string) :
  In g (regions_of rows)
  <-> g <> "" /\ exists r, In r rows /\ region (fields r) = Some g.
Proof.
  unfold regions_of. rewrite nodup_In, in_map_iff. split.
  - intros (r & Hg & Hr). apply filter_In in Hr. destruct Hr as [Hin Hw].
    apply where_region_iff in Hw. destruct Hw as (g' & Hg' & Hreg).
    unfold region_of in Hg. rewrite Hreg in Hg. subst g'.
    split; [exact Hg'|]. exists r. split; assumption.
  - intros (Hg & r & Hin & Hreg). exists r. split.
    + unfold region_of. rewrite Hreg. reflexivity.
    + apply filter_In. split; [exact Hin|].
      apply where_region_iff. exists g. split; assumption.
Qed.

Lemma rows_of_region_nonempty (rows : list StoredRow) (g : string) :
  In g (regions_of rows) -> rows_of_region g rows <> [].
Proof.
  intros H. apply regions_of_iff in H. destruct H as (_ & r & Hin & Hreg).
  assert (Hr : In r (rows_of_region g rows)).
  { apply filter_In. split; [exact Hin | apply has_region_iff; exact Hreg]. }
  intros Hnil. rewrite Hnil in Hr. destruct Hr.
Qed.

Lemma rows_of_region_region_of (g : string) (rows : list StoredRow) (r : StoredRow) :
  In r (rows_of_region g rows) -> In r rows /\ region (fields r) = Some g /\ region_of r = g.
Proof.
  intros H. apply filter_In in H. destruct H as [Hin Hreg].
  apply has_region_iff in Hreg. unfold region_of. rewrite Hreg. repeat split; assumption.
Qed.

(** *** The windows of one partition *)

Section Windows.

Context {E : Engine}.

Lemma window_desc_perm (part : list StoredRow) : Permutation (window_desc part) part.
Proof. apply sort_by_perm. Qed.

Lemma window_asc_perm (part : list StoredRow) :
  Permutation (window_asc part) (row_number (window_desc part)).
Proof. apply sort_by_perm. Qed.

Lemma window_asc_rows_perm (part : list StoredRow) :
  Permutation (map fst (window_asc part)) part.
Proof.
  eapply perm_trans; [apply Permutation_map, window_asc_perm|].
  rewrite row_number_fst. apply window_desc_perm.
Qed.

Lemma window_desc_nonempty (part : list StoredRow) :
  part <> [] -> exists d0 rest, window_desc part = d0 :: rest.
Proof.
  intros Hne. destruct (window_desc part) as [|d0 rest] eqn:Hw.
  - pose proof (window_desc_perm part) as Hp. rewrite Hw in Hp.
    apply Permutation_nil in Hp. contradiction.
  - exists d0, rest. reflexivity.
Qed.

Lemma window_asc_nonempty (part : list StoredRow) :
  part <> [] -> exists a0 n0 rest, window_asc part = (a0, n0) :: rest.
Proof.
  intros Hne. destruct (window_asc part) as [|[a0 n0] rest] eqn:Hw.
  - pose proof (window_asc_rows_perm part) as Hp. rewrite Hw in Hp.
    apply Permutation_nil in Hp. contradiction.
  - exists a0, n0, rest. reflexivity.
Qed.

(** The first row of the descending window is a row of greatest population. *)
Lemma window_desc_head (part : list StoredRow) (d0 : StoredRow) (rest : list StoredRow) :
  window_desc part = d0 :: rest ->
  In d0 part
  /\ forall r, In r part -> population (fields r) <= population (fields d0).
Proof.
  intros Hw.
  pose proof (window_desc_perm part) as Hp.
  pose proof (sort_by_sorted (Sorter := order_by) StoredRow
                (fun r => - population (fields r)) part) as Hs.
  fold (window_desc part) in Hs. rewrite Hw in Hp, Hs. split.
  - apply (Permutation_in _ Hp). left. reflexivity.
  - intros r Hr. apply (Permutation_in _ (Permutation_sym Hp)) in Hr.
    apply StronglySorted_inv in Hs. destruct Hs as [_ Hall].
    destruct Hr as [<- | Hr]; [lia|].
    rewrite Forall_forall in Hall. specialize (Hall r Hr). unfold key_le in Hall. lia.
Qed.

(** The first row of the ascending window is a row of least population. *)
Lemma window_asc_head (part : list StoredRow) (a0 : StoredRow) (n0 : nat)
    (rest : list (StoredRow * nat)) :
  window_asc part = (a0, n0) :: rest ->
  In a0 part
  /\ forall r, In r part -> population (fields a0) <= population (fields r).
Proof.
  intros Hw.
  pose proof (window_asc_rows_perm part) as Hp.
  pose proof (sort_by_sorted (Sorter := order_by) (StoredRow * nat)
                (fun x => population (fields (fst x)))
                (row_number (window_desc part))) as Hs.
  fold (window_asc part) in Hs. rewrite Hw in Hp, Hs. cbn [map fst] in Hp. split.
  - apply (Permutation_in _ Hp). left. reflexivity.
  - intros r Hr. apply (Permutation_in _ (Permutation_sym Hp)) in Hr.
    apply StronglySorted_inv in Hs. destruct Hs as [_ Hall].
    destruct Hr as [<- | Hr]; [lia|].
    apply in_map_iff in Hr. destruct Hr as (x & Hx & Hin).
    rewrite Forall_forall in Hall. specialize (Hall x Hin).
    unfold key_le in Hall. cbn [fst] in Hall. rewrite Hx in Hall. exact Hall.
Qed.

(** [MAX(CASE WHEN rank_desc = 1 THEN v END)] over a partition is [v] on the
    first row of the descending window. *)
Lemma rank_desc_1_value {V : Type} (mx : list (option V) -> option V)
    (val : StoredRow -> option V) (part : list StoredRow)
    (d0 : StoredRow) (rest : list StoredRow) :
  (forall v l, Forall (fun o => o = None \/ o = v) l -> In v l -> mx l = v) ->
  window_desc part = d0 :: rest ->
  mx (map (fun x : StoredRow * nat * nat => case_rank_1 (snd (fst x)) (val (fst (fst x))))
          (row_number (window_asc part)))
  = val d0.
Proof.
  intros Hmx Hw. apply Hmx.
  - apply Forall_forall. intros o Ho. apply in_map_iff in Ho.
    destruct Ho as ([[r rd] ra] & <- & Hin). cbn [fst snd].
    apply row_number_In in Hin.
    apply (Permutation_in _ (window_asc_perm part)) in Hin.
    unfold case_rank_1. destruct (Nat.eqb rd 1) eqn:Hrd; [|left; reflexivity].
    apply Nat.eqb_eq in Hrd. subst rd.
    apply row_number_1 in Hin. destruct Hin as (l' & Hl').
    rewrite Hw in Hl'. injection Hl' as <- _. right. reflexivity.
  - assert (Hin : In (d0, 1%nat) (window_asc part)).
    { apply (Permutation_in _ (Permutation_sym (window_asc_perm part))).
      rewrite Hw, row_number_cons. left. reflexivity. }
    apply row_number_has in Hin. destruct Hin as (ra & Hin).
    apply in_map_iff. exists ((d0, 1%nat), ra). split; [reflexivity | exact Hin].
Qed.

(** [MAX(CASE WHEN rank_asc = 1 THEN v END)] over a partition is [v] on the
    first row of the ascending window. *)
Lemma rank_asc_1_value {V : Type} (mx : list (option V) -> option V)
    (val : StoredRow -> option V) (part : list StoredRow)
    (a0 : StoredRow) (n0 : nat) (rest : list (StoredRow * nat)) :
  (forall v l, Forall (fun o => o = None \/ o = v) l -> In v l -> mx l = v) ->
  window_asc part = (a0, n0) :: rest ->
  mx (map (fun x : StoredRow * nat * nat => case_rank_1 (snd x) (val (fst (fst x))))
          (row_number (window_asc part)))
  = val a0.
Proof.
  intros Hmx Hw. apply Hmx.
  - apply Forall_forall. intros o Ho. apply in_map_iff in Ho.
    destruct Ho as ([[r rd] ra] & <- & Hin). cbn [fst snd].
    unfold case_rank_1. destruct (Nat.eqb ra 1) eqn:Hra; [|left; reflexivity].
    apply Nat.eqb_eq in Hra. subst ra.
    apply row_number_1 in Hin. destruct Hin as (l' & Hl').
    rewrite Hw in Hl'. injection Hl' as <- _ _. right. reflexivity.
  - apply in_map_iff. exists ((a0, n0), 1%nat). split; [reflexivity|].
    rewrite Hw, row_number_cons. left. reflexivity.
Qed.

End Windows.

(** *** The report, group by group *)

Lemma flat_map_ext_in {A B : Type} (f g : A -> list B) (l : list A) :
  (forall a, In a l -> f a = g a) -> flat_map f l = flat_map g l.
Proof.
  induction l as [|a l IH]; intros H; cbn [flat_map]; [reflexivity|].
  rewrite (H a (or_introl eq_refl)), IH; [reflexivity|].
  intros b Hb. apply H. right. exact Hb.
Qed.

Section Report.

Context {E : Engine}.

Lemma ranked_partition_length (part : list StoredRow) :
  List.length (ranked_partition part) = List.length part.
Proof.
  unfold ranked_partition. rewrite length_map, row_number_length.
  rewrite <- (length_map fst). apply Permutation_length, window_asc_rows_perm.
Qed.

Lemma ranked_partition_key (g : string) (rows : list StoredRow) (x : Ranked) :
  In x (ranked_partition (rows_of_region g rows)) ->
  rk_region x = g /\ total_pop x = sum_population (rows_of_region g rows).
Proof.
  unfold ranked_partition. intros H. apply in_map_iff in H.
  destruct H as ([[r rd] ra] & <- & Hin). cbn [rk_region total_pop fst].
  split; [|reflexivity].
  apply row_number_In in Hin.
  assert (Hr : In r (map fst (window_asc (rows_of_region g rows)))).
  { apply in_map_iff. exists (r, rd). split; [reflexivity | exact Hin]. }
  apply (Permutation_in _ (window_asc_rows_perm _)) in Hr.
  apply rows_of_region_region_of in Hr. tauto.
Qed.

(** The [ranked] rows are the ranked partitions of the regions, one block per
    region. *)
Lemma ranked_blocks (rows : list StoredRow) :
  ranked rows
  = flat_map (fun g => ranked_partition (rows_of_region g rows)) (regions_of rows).
Proof.
  unfold ranked. fold (regions_of rows). apply flat_map_ext_in.
  intros g Hg. apply regions_of_iff in Hg. destruct Hg as [Hg _].
  rewrite (partition_is_rows_of_region g rows Hg). reflexivity.
Qed.

Lemma ranked_group (rows : list StoredRow) (g : string) :
  In g (regions_of rows) ->
  filter (in_group (g, sum_population (rows_of_region g rows))) (ranked rows)
  = ranked_partition (rows_of_region g rows).
Proof.
  intros Hg. rewrite ranked_blocks.
  apply (filter_flat_map_select
           (fun g' => ranked_partition (rows_of_region g' rows))).
  - apply NoDup_nodup.
  - exact Hg.
  - intros x Hx. apply ranked_partition_key in Hx. destruct Hx as [Hr Ht].
    unfold in_group. cbn [fst snd]. rewrite Hr, Ht, String.eqb_refl, Z.eqb_refl.
    reflexivity.
  - intros g' _ Hne x Hx. apply ranked_partition_key in Hx. destruct Hx as [Hr _].
    unfold in_group. cbn [fst snd]. rewrite Hr.
    apply String.eqb_neq in Hne. rewrite Hne. reflexivity.
Qed.

Lemma group_keys_iff (rows : list StoredRow) (key : string * Z) :
  In key (group_keys (ranked rows))
  <-> exists g, In g (regions_of rows)
                /\ key = (g, sum_population (rows_of_region g rows)).
Proof.
  unfold group_keys. rewrite nodup_In, in_map_iff, ranked_blocks. split.
  - intros (x & Hkey & Hx). apply in_flat_map in Hx. destruct Hx as (g & Hg & Hx).
    apply ranked_partition_key in Hx. destruct Hx as [Hr Ht].
    exists g. split; [exact Hg|]. rewrite <- Hkey, Hr, Ht. reflexivity.
  - intros (g & Hg & ->).
    pose proof (rows_of_region_nonempty rows g Hg) as Hne.
    pose proof (ranked_partition_length (rows_of_region g rows)) as Hlen.
    destruct (ranked_partition (rows_of_region g rows)) as [|x xs] eqn:Hrp.
    + destruct (rows_of_region g rows); [contradiction | discriminate Hlen].
    + assert (Hx : In x (ranked_partition (rows_of_region g rows))).
      { rewrite Hrp. left. reflexivity. }
      exists x. split.
      * apply ranked_partition_key in Hx. destruct Hx as [-> ->]. reflexivity.
      * apply in_flat_map. exists g. split; assumption.
Qed.

Lemma group_keys_regions_NoDup (rows : list StoredRow) :
  NoDup (map fst (group_keys (ranked rows))).
Proof.
  apply NoDup_map_NoDup_ForallPairs; [|apply NoDup_nodup].
  intros k1 k2 H1 H2 Hfst.
  apply group_keys_iff in H1, H2.
  destruct H1 as (g1 & _ & ->), H2 as (g2 & _ & ->).
  cbn [fst] in Hfst. subst g2. reflexivity.
Qed.

(** The row of the report for one region. *)
Lemma summarise_region (rows : list StoredRow) (g : string)
    (d0 a0 : StoredRow) (n0 : nat) (drest : list StoredRow)
    (arest : list (StoredRow * nat)) :
  In g (regions_of rows) ->
  window_desc (rows_of_region g rows) = d0 :: drest ->
  window_asc (rows_of_region g rows) = (a0, n0) :: arest ->
  summarise (ranked rows) (g, sum_population (rows_of_region g rows))
  = {| rr_region := g;
       rr_total_pop := sum_population (rows_of_region g rows);
       rr_largest_country := name (fields d0);
       rr_population_max := Some (population (fields d0));
       rr_smallest_country := name (fields a0);
       rr_population_min := Some (population (fields a0)) |}.
Proof.
  intros Hg Hd Ha. unfold summarise. rewrite (ranked_group rows g Hg).
  cbn [fst snd]. unfold ranked_partition. rewrite !map_map.
  cbn [rank_desc rank_asc rk_name rk_population].
  f_equal.
  - apply (rank_desc_1_value sql_max_text (fun r => name (fields r)) _ d0 drest
             sql_max_text_unique Hd).
  - apply (rank_desc_1_value sql_max_int (fun r => Some (population (fields r))) _ d0 drest
             sql_max_int_unique Hd).
  - apply (rank_asc_1_value sql_max_text (fun r => name (fields r)) _ a0 n0 arest
             sql_max_text_unique Ha).
  - apply (rank_asc_1_value sql_max_int (fun r => Some (population (fields r))) _ a0 n0 arest
             sql_max_int_unique Ha).
Qed.

(** The result set before its final ordering. *)
Definition summaries (rows : list StoredRow) : list ResultRow :=
  map (summarise (ranked rows)) (group_keys (ranked rows)).

Lemma result_set_perm (rows : list StoredRow) :
  Permutation (result_set rows) (summaries (seq_scan rows)).
Proof. apply sort_by_perm. Qed.

Lemma aggregate_rows_perm (rows : list StoredRow) :
  Permutation (aggregate_rows rows) (map coerce_float (summaries (seq_scan rows))).
Proof. apply Permutation_map, result_set_perm. Qed.

Lemma aggregate_rows_regions (rows : list StoredRow) :
  map rs_region (aggregate_rows rows) = map rr_region (result_set rows).
Proof. unfold aggregate_rows. rewrite map_map. reflexivity. Qed.

Lemma summaries_regions (rows : list StoredRow) :
  map rr_region (summaries rows) = map fst (group_keys (ranked rows)).
Proof. unfold summaries. rewrite map_map. reflexivity. Qed.

(** Every row of the report is the row of a region, built from the first
    rows of the two windows of that region. *)
Lemma summaries_row (rows : list StoredRow) (s : ResultRow) :
  In s (summaries rows) ->
  exists g d0 drest a0 n0 arest,
    In g (regions_of rows)
    /\ window_desc (rows_of_region g rows) = d0 :: drest
    /\ window_asc (rows_of_region g rows) = (a0, n0) :: arest
    /\ s = {| rr_region := g;
              rr_total_pop := sum_population (rows_of_region g rows);
              rr_largest_country := name (fields d0);
              rr_population_max := Some (population (fields d0));
              rr_smallest_country := name (fields a0);
              rr_population_min := Some (population (fields a0)) |}.
Proof.
  unfold summaries. intros H. apply in_map_iff in H. destruct H as (key & <- & Hkey).
  apply group_keys_iff in Hkey. destruct Hkey as (g & Hg & ->).
  pose proof (rows_of_region_nonempty rows g Hg) as Hne.
  destruct (window_desc_nonempty _ Hne) as (d0 & drest & Hd).
  destruct (window_asc_nonempty _ Hne) as (a0 & n0 & arest & Ha).
  exists g, d0, drest, a0, n0, arest.
  split; [exact Hg|]. split; [exact Hd|]. split; [exact Ha|].
  apply (summarise_region rows g d0 a0 n0 drest arest Hg Hd Ha).
Qed.

End Report.

Lemma StronglySorted_weaken {A : Type} (R R' : A -> A -> Prop) (l : list A) :
  (forall x y, R x y -> R' x y) -> StronglySorted R l -> StronglySorted R' l.
Proof.
  intros Himp. induction 1 as [|x l _ IH Hall]; constructor; [exact IH|].
  eapply Forall_impl; [|exact Hall]. intros y. apply Himp.
Qed.

Section ReportOfTable.

Context {E : Engine}.

Lemma scanned_region_rows (g : string) (rows : list StoredRow) :
  Permutation (rows_of_region g (seq_scan rows)) (rows_of_region g rows).
Proof. apply filter_perm, seq_scan_perm. Qed.

Lemma scanned_regions_iff (rows : list StoredRow) (g : string) :
  In g (regions_of (seq_scan rows))
  <-> g <> "" /\ exists r, In r rows /\ region (fields r) = Some g.
Proof.
  rewrite regions_of_iff. split; intros (Hg & r & Hin & Hreg);
    (split; [exact Hg|]); exists r; (split; [|exact Hreg]).
  - apply (Permutation_in _ (seq_scan_perm rows)). exact Hin.
  - apply (Permutation_in _ (Permutation_sym (seq_scan_perm rows))). exact Hin.
Qed.

Lemma aggregate_rows_regions_iff (rows : list StoredRow) (g : string) :
  In g (map rs_region (aggregate_rows rows)) <-> In g (regions_of (seq_scan rows)).
Proof.
  assert (Hperm : Permutation (map rs_region (aggregate_rows rows))
                              (map fst (group_keys (ranked (seq_scan rows))))).
  { rewrite aggregate_rows_regions, <- summaries_regions.
    apply Permutation_map, result_set_perm. }
  split.
  - intros H. apply (Permutation_in _ Hperm) in H. apply in_map_iff in H.
    destruct H as (key & <- & Hkey). apply group_keys_iff in Hkey.
    destruct Hkey as (g' & Hg' & ->). exact Hg'.
  - intros H. apply (Permutation_in _ (Permutation_sym Hperm)).
    apply in_map_iff. exists (g, sum_population (rows_of_region g (seq_scan rows))).
    split; [reflexivity|]. apply group_keys_iff. exists g. split; [exact H | reflexivity].
Qed.

Lemma aggregate_rows_regions_NoDup (rows : list StoredRow) :
  NoDup (map rs_region (aggregate_rows rows)).
Proof.
  rewrite aggregate_rows_regions.
  apply (Permutation_NoDup
           (l := map rr_region (summaries (seq_scan rows)))).
  - apply Permutation_sym, Permutation_map, result_set_perm.
  - rewrite summaries_regions. apply group_keys_regions_NoDup.
Qed.

(** The result set is in descending order of the exact totals. *)
Lemma result_set_sorted (rows : list StoredRow) :
  StronglySorted (fun a b => rr_total_pop b <= rr_total_pop a) (result_set rows).
Proof.
  eapply StronglySorted_weaken; [|apply sort_by_sorted].
  unfold key_le. intros x y H. lia.
Qed.

Lemma StronglySorted_map {A B : Type} (R : B -> B -> Prop) (f : A -> B) (l : list A) :
  StronglySorted (fun a b => R (f a) (f b)) l -> StronglySorted R (map f l).
Proof.
  induction 1 as [|x l _ IH Hall]; cbn [map]; constructor; [exact IH|].
  apply Forall_forall. intros y Hy. apply in_map_iff in Hy.
  destruct Hy as (a & <- & Ha). rewrite Forall_forall in Hall. apply Hall. exact Ha.
Qed.

(** The frame is in descending order of its column of totals: the rounding
    of the totals to binary64 keeps the order of the result set. *)
Lemma aggregate_rows_sorted (rows : list StoredRow) :
  StronglySorted (fun a b => (total_population b <=? total_population a)%float = true)
                 (aggregate_rows rows).
Proof.
  unfold aggregate_rows. apply StronglySorted_map.
  eapply StronglySorted_weaken; [|apply result_set_sorted].
  intros x y H. cbn [coerce_float total_population]. apply float_of_Z_le. exact H.
Qed.

(** What one row of the report says about the rows of its region. *)
Lemma aggregate_rows_row (rows : list StoredRow) (s : RegionSummary) :
  In s (aggregate_rows rows) ->
  total_population s = float_of_Z (sum_population (rows_of_region (rs_region s) rows))
  /\ (exists r,
         In r (rows_of_region (rs_region s) rows)
         /\ largest_country s = name (fields r)
         /\ population_max s = Some (population (fields r))
         /\ forall r', In r' (rows_of_region (rs_region s) rows) ->
                       population (fields r') <= population (fields r))
  /\ (exists r,
         In r (rows_of_region (rs_region s) rows)
         /\ smallest_country s = name (fields r)
         /\ population_min s = Some (population (fields r))
         /\ forall r', In r' (rows_of_region (rs_region s) rows) ->
                       population (fields r) <= population (fields r')).
Proof.
  intros Hs. apply (Permutation_in _ (aggregate_rows_perm rows)) in Hs.
  apply in_map_iff in Hs. destruct Hs as (s0 & <- & Hs).
  apply summaries_row in Hs.
  destruct Hs as (g & d0 & drest & a0 & n0 & arest & Hg & Hd & Ha & ->).
  cbn [coerce_float rr_region rr_total_pop rr_largest_country rr_population_max
       rr_smallest_country rr_population_min
       rs_region total_population largest_country population_max
       smallest_country population_min].
  pose proof (scanned_region_rows g rows) as Hperm.
  destruct (window_desc_head _ _ _ Hd) as [Hd0 Hmax].
  destruct (window_asc_head _ _ _ _ Ha) as [Ha0 Hmin].
  split; [|split].
  - f_equal. apply sum_population_filter_perm, seq_scan_perm.
  - exists d0. split; [apply (Permutation_in _ Hperm); exact Hd0|].
    split; [reflexivity|]. split; [reflexivity|].
    intros r' Hr'. apply Hmax. apply (Permutation_in _ (Permutation_sym Hperm)). exact Hr'.
  - exists a0. split; [apply (Permutation_in _ Hperm); exact Ha0|].
    split; [reflexivity|]. split; [reflexivity|].
    intros r' Hr'. apply Hmin. apply (Permutation_in _ (Permutation_sym Hperm)). exact Hr'.
Qed.

Lemma get_aggregated_stats_usable (self : DatabaseManager) (c : Connection) (t : Table) :
  conn self = Some c ->
  usable c ->
  seen_by c = Some t ->
  get_aggregated_stats self
  = (Ok {| columns := summary_columns; records := aggregate_rows (heap t) |},
     with_conn self (Some {| committed := committed c;
                             status := InTransaction (Some t) |})).
Proof.
  intros Hconn Husable Hseen.
  destruct self as [h d u p k]. cbn [conn] in Hconn. subst k.
  destruct c as [cm [|w|]]; unfold usable in Husable; cbn [status] in Husable;
    unfold seen_by in Hseen; cbn [status committed] in Hseen.
  - subst cm. reflexivity.
  - subst w. reflexivity.
  - contradiction.
Qed.

End ReportOfTable.

(** *** The sum of a region, stated apart from the query *)

(** The arithmetic sum of a list of integers. *)
Definition sum_Z (l : list Z) : Z := fold_right Z.add 0 l.

(** The population fields of the rows of the table whose region is [g]. *)
Definition populations_of (g : string) (rows : list StoredRow) : list Z :=
  map (fun r => population (fields r)) (rows_of_region g rows).

Lemma sum_population_arithmetic (rows : list StoredRow) :
  sum_population rows = sum_Z (map (fun r => population (fields r)) rows).
Proof.
  induction rows as [|r rows IH]; cbn [sum_population sum_Z fold_right map]; [reflexivity|].
  fold (sum_population rows). fold (sum_Z (map (fun r => population (fields r)) rows)).
  rewrite IH. reflexivity.
Qed.

Lemma StronglySorted_weaken_in {A : Type} (R R' : A -> A -> Prop) (l : list A) :
  (forall x y, In x l -> In y l -> R x y -> R' x y) ->
  StronglySorted R l -> StronglySorted R' l.
Proof.
  intros Himp Hs. induction Hs as [|x l _ IH Hall]; constructor.
  - apply IH. intros a b Ha Hb. apply Himp; right; assumption.
  - apply Forall_forall. intros y Hy. rewrite Forall_forall in Hall.
    apply Himp; [left; reflexivity | right; exact Hy | apply Hall; exact Hy].
Qed.

Lemma result_set_total (E : Engine) (rows : list StoredRow) (s : ResultRow) :
  In s (result_set rows) ->
  rr_total_pop s = sum_Z (populations_of (rr_region s) rows).
Proof.
  intros Hs. apply (Permutation_in _ (result_set_perm rows)) in Hs.
  apply summaries_row in Hs.
  destruct Hs as (g & d0 & drest & a0 & n0 & arest & _ & _ & _ & ->).
  cbn [rr_total_pop rr_region]. unfold populations_of.
  rewrite <- sum_population_arithmetic.
  apply sum_population_filter_perm, seq_scan_perm.
Qed.

(** The frame is also in descending order of the sums themselves. *)
Lemma aggregate_rows_sorted_exact (E : Engine) (rows : list StoredRow) :
  StronglySorted (fun a b => sum_Z (populations_of (rs_region b) rows)
                             <= sum_Z (populations_of (rs_region a) rows))
                 (aggregate_rows rows).
Proof.
  unfold aggregate_rows. apply StronglySorted_map.
  eapply StronglySorted_weaken_in; [|apply result_set_sorted].
  intros x y Hx Hy H. cbn [coerce_float rs_region].
  rewrite <- (result_set_total E rows x Hx), <- (result_set_total E rows y Hy). exact H.
Qed.

(** C1, as amended.  On a usable connection that sees the table,
    [get_aggregated_stats] returns a frame with exactly one row per distinct
    region that is neither null nor empty among the rows of the table, so
    rows with a null or empty region appear in no row of the report.  In each
    row the total is the binary64 number nearest to the arithmetic sum of the
    populations of the rows of that region, which is that sum itself whenever
    the sum is below 2^53 in magnitude; the largest country and its
    population are those of a row of greatest population in the region, the
    smallest country and its population are those of a row of least
    population in the region.  The rows come in descending order of the
    column of totals, and of the sums themselves.  If no row of the table has
    a non-empty region the report is empty. *)
Theorem get_aggregated_stats_report
    (E : Engine) (self : DatabaseManager) (c : Connection) (t : Table) :
  conn self = Some c ->
  usable c ->
  seen_by c = Some t ->
  exists df self',
    get_aggregated_stats self = (Ok df, self')
    /\ NoDup (map rs_region (records df))
    /\ (forall g, In g (map rs_region (records df))
                  <-> g <> "" /\ exists r, In r (heap t) /\ region (fields r) = Some g)
    /\ (forall s, In s (records df) ->
          total_population s = float_of_Z (sum_Z (populations_of (rs_region s) (heap t)))
          /\ (Z.abs (sum_Z (populations_of (rs_region s) (heap t))) < 2 ^ 53 ->
              int_of_float (total_population s)
              = Ok (sum_Z (populations_of (rs_region s) (heap t))))
          /\ (exists r,
                 In r (rows_of_region (rs_region s) (heap t))
                 /\ largest_country s = name (fields r)
                 /\ population_max s = Some (population (fields r))
                 /\ forall r', In r' (rows_of_region (rs_region s) (heap t)) ->
                               population (fields r') <= population (fields r))
          /\ (exists r,
                 In r (rows_of_region (rs_region s) (heap t))
                 /\ smallest_country s = name (fields r)
                 /\ population_min s = Some (population (fields r))
                 /\ forall r', In r' (rows_of_region (rs_region s) (heap t)) ->
                               population (fields r) <= population (fields r')))
    /\ StronglySorted (fun a b => (total_population b <=? total_population a)%float = true)
                      (records df)
    /\ StronglySorted (fun a b => sum_Z (populations_of (rs_region b) (heap t))
                                  <= sum_Z (populations_of (rs_region a) (heap t)))
                      (records df)
    /\ ((forall r, In r (heap t) ->
                   region (fields r) = None \/ region (fields r) = Some "") ->
        records df = []).
Proof.
  intros Hconn Husable Hseen.
  eexists. eexists.
  split; [apply (get_aggregated_stats_usable self c t Hconn Husable Hseen)|].
  cbn [records].
  assert (Hregions : forall g, In g (map rs_region (aggregate_rows (heap t)))
                               <-> g <> "" /\ exists r, In r (heap t)
                                                      /\ region (fields r) = Some g).
  { intros g. rewrite aggregate_rows_regions_iff. apply scanned_regions_iff. }
  split; [apply aggregate_rows_regions_NoDup|].
  split; [exact Hregions|].
  split.
  { intros s Hs. destruct (aggregate_rows_row (heap t) s Hs) as (Htotal & Hmax & Hmin).
    unfold populations_of. rewrite <- sum_population_arithmetic.
    split; [exact Htotal|]. split; [|split; assumption].
    intros Hsmall. rewrite Htotal. apply int_of_float_of_Z. exact Hsmall. }
  split; [apply aggregate_rows_sorted|].
  split; [apply aggregate_rows_sorted_exact|].
  intros Hnone.
  destruct (aggregate_rows (heap t)) as [|s out] eqn:Hout; [reflexivity|].
  assert (Hin : In (rs_region s) (map rs_region (s :: out))) by (left; reflexivity).
  apply Hregions in Hin. destruct Hin as (Hg & r & Hr & Hreg).
  destruct (Hnone r Hr) as [H | H]; rewrite H in Hreg; [discriminate|].
  injection Hreg as Heq. symmetry in Heq. contradiction.
Qed.

Definition census : list StoredRow :=
  [ {| row_id := 1; fields := country "A" (Some "X") 10 |};
    {| row_id := 2; fields := country "B" (Some "X") 20 |};
    {| row_id := 3; fields := country "C" (Some "X") 30 |};
    {| row_id := 4; fields := country "D" (Some "Y") 100 |};
    {| row_id := 5; fields := country "E" None 5 |};
    {| row_id := 6; fields := country "F" (Some "") 7 |} ].

Lemma get_aggregated_stats_report_witness :
  exists df self',
    get_aggregated_stats (E := heap_order_engine) (manager_with census 6) = (Ok df, self')
    /\ NoDup (map rs_region (records df))
    /\ StronglySorted (fun a b => (total_population b <=? total_population a)%float = true)
                      (records df)
    /\ StronglySorted (fun a b => sum_Z (populations_of (rs_region b) census)
                                  <= sum_Z (populations_of (rs_region a) census))
                      (records df).
Proof.
  destruct (get_aggregated_stats_report heap_order_engine (manager_with census 6)
              (idle_connection census 6) {| heap := census; last_id := 6 |}
              eq_refl ltac:(discriminate) eq_refl)
    as (df & self' & Hrun & Hnodup & _ & _ & Hsorted & Hexact & _).
  exists df, self'. repeat split; assumption.
Defined.

(** Two rows of one region whose populations add up to 2^53 + 1, an integer
    that binary64 does not have. *)
Definition beyond_binary64 : list StoredRow :=
  [ {| row_id := 1; fields := country "A" (Some "X") (2 ^ 53) |};
    {| row_id := 2; fields := country "B" (Some "X") 1 |} ].

(** C1 as stated fails: the total of a row of the report is not always the
    arithmetic sum of the populations of its region.  The frame holds the
    total as a binary64 number, and for the two rows above that number is
    2^53, one less than the sum. *)
Lemma total_population_counterexample :
  ~ (forall (E : Engine) (rows : list StoredRow) (s : RegionSummary),
        In s (aggregate_rows rows) ->
        int_of_float (total_population s) = Ok (sum_Z (populations_of (rs_region s) rows))).
Proof.
  intros H.
  specialize (H heap_order_engine beyond_binary64
                {| rs_region := "X"; total_population := float_of_Z (2 ^ 53);
                   largest_country := Some "A"; population_max := Some (2 ^ 53);
                   smallest_country := Some "B"; population_min := Some 1 |}
                ltac:(vm_compute; left; reflexivity)).
  vm_compute in H. discriminate H.
Qed.

(** The scenario of the specification: three countries of region X with
    populations 10, 20 and 30, beside a fourth region and two rows without
    one. *)
Example get_aggregated_stats_census :
  fst (get_aggregated_stats (E := heap_order_engine) (manager_with census 6))
  = Ok {| columns := summary_columns;
          records :=
            [ {| rs_region := "Y"; total_population := 100%float;
                 largest_country := Some "D"; population_max := Some 100;
                 smallest_country := Some "D"; population_min := Some 100 |};
              {| rs_region := "X"; total_population := 60%float;
                 largest_country := Some "C"; population_max := Some 30;
                 smallest_country := Some "A"; population_min := Some 10 |} ] |}.
Proof. vm_compute. reflexivity. Qed.

(** ** Ties *)

(** The first row, in the order of the table, among the rows of region [g]
    whose population is [p]. *)
Definition first_with_population (g : string) (p : Z) (rows : list StoredRow)
  : option StoredRow :=
  find (fun r => population (fields r) =? p) (rows_of_region g rows).

Lemma find_filter_head {A : Type} (p : A -> bool) (l : list A) (x : A) (rest : list A) :
  filter p l = x :: rest -> find p l = Some x.
Proof.
  induction l as [|y l IH]; cbn [filter find]; [discriminate|].
  destruct (p y); [|exact IH]. intros H. injection H as -> _. reflexivity.
Qed.

Lemma filter_map_fst {A B : Type} (p : A -> bool) (l : list (A * B)) :
  filter p (map fst l) = map fst (filter (fun x => p (fst x)) l).
Proof.
  induction l as [|x l IH]; cbn [map filter]; [reflexivity|].
  destruct (p (fst x)); cbn [map]; rewrite IH; reflexivity.
Qed.

(** With a stable sorter the first row of a sorted list is the first row of
    the input that has its key. *)
Lemma stable_head {A : Type} (S : Sorter) (key : A -> Z) (l : list A) (x : A) (rest : list A) :
  stable S ->
  sort_by key l = x :: rest ->
  exists rest', filter (fun y => key y =? key x) l = x :: rest'.
Proof.
  intros Hst Hsort. rewrite <- (Hst A key l (key x)), Hsort.
  cbn [filter]. rewrite Z.eqb_refl. eexists. reflexivity.
Qed.

Section Ties.

Context {E : Engine}.
Hypothesis order_by_stable : stable order_by.

Lemma window_desc_first (part : list StoredRow) (d0 : StoredRow) (drest : list StoredRow) :
  window_desc part = d0 :: drest ->
  find (fun r => population (fields r) =? population (fields d0)) part = Some d0.
Proof.
  intros Hd.
  destruct (stable_head order_by _ _ _ _ order_by_stable Hd) as (rest' & Hf).
  apply (find_filter_head _ _ _ rest').
  rewrite <- Hf. apply filter_ext. intros r.
  destruct (Z.eqb_spec (population (fields r)) (population (fields d0))) as [Heq|Hne].
  - rewrite Heq. symmetry. apply Z.eqb_refl.
  - symmetry. apply Z.eqb_neq. lia.
Qed.

Lemma window_asc_first (part : list StoredRow) (a0 : StoredRow) (n0 : nat)
    (arest : list (StoredRow * nat)) :
  window_asc part = (a0, n0) :: arest ->
  find (fun r => population (fields r) =? population (fields a0)) part = Some a0.
Proof.
  intros Ha.
  destruct (stable_head order_by _ _ _ _ order_by_stable Ha) as (rest' & Hf).
  cbn [fst] in Hf.
  assert (Hdesc : filter (fun r => population (fields r) =? population (fields a0))
                         (window_desc part)
                  = a0 :: map fst rest').
  { rewrite <- (row_number_fst (window_desc part)) at 1.
    rewrite filter_map_fst, Hf. reflexivity. }
  apply (find_filter_head _ _ _ (map fst rest')).
  rewrite <- Hdesc.
  pose proof (order_by_stable StoredRow (fun r => - population (fields r)) part
                (- population (fields a0))) as Hst.
  fold (window_desc part) in Hst.
  transitivity (filter (fun r => - population (fields r) =? - population (fields a0)) part).
  - apply filter_ext. intros r.
    destruct (Z.eqb_spec (population (fields r)) (population (fields a0))) as [Heq|Hne].
    + rewrite Heq. symmetry. apply Z.eqb_refl.
    + symmetry. apply Z.eqb_neq. lia.
  - rewrite <- Hst. apply filter_ext. intros r.
    destruct (Z.eqb_spec (population (fields r)) (population (fields a0))) as [Heq|Hne].
    + rewrite Heq. apply Z.eqb_refl.
    + apply Z.eqb_neq. lia.
Qed.

End Ties.

(** A row of the report of an engine that scans in insertion order and sorts
    stably: it is built from the first row of greatest population and the
    first row of least population of its region, first in the order of the
    table. *)
Lemma stable_report_row (E : Engine) (rows : list StoredRow) (s : RegionSummary) :
  stable order_by ->
  (forall l, seq_scan l = l) ->
  In s (aggregate_rows rows) ->
  exists d0 a0,
    s = {| rs_region := rs_region s;
           total_population :=
             float_of_Z (sum_population (rows_of_region (rs_region s) rows));
           largest_country := name (fields d0);
           population_max := Some (population (fields d0));
           smallest_country := name (fields a0);
           population_min := Some (population (fields a0)) |}
    /\ In d0 (rows_of_region (rs_region s) rows)
    /\ In a0 (rows_of_region (rs_region s) rows)
    /\ (forall r, In r (rows_of_region (rs_region s) rows) ->
                  population (fields a0) <= population (fields r) <= population (fields d0))
    /\ first_with_population (rs_region s) (population (fields d0)) rows = Some d0
    /\ first_with_population (rs_region s) (population (fields a0)) rows = Some a0.
Proof.
  intros Hstable Hscan Hs.
  apply (Permutation_in _ (aggregate_rows_perm rows)) in Hs.
  rewrite Hscan in Hs. apply in_map_iff in Hs. destruct Hs as (s0 & <- & Hs).
  apply summaries_row in Hs.
  destruct Hs as (g & d0 & drest & a0 & n0 & arest & Hg & Hd & Ha & ->).
  cbn [coerce_float rr_region rr_total_pop rr_largest_country rr_population_max
       rr_smallest_country rr_population_min rs_region].
  destruct (window_desc_head _ _ _ Hd) as [Hd0 Hmax].
  destruct (window_asc_head _ _ _ _ Ha) as [Ha0 Hmin].
  exists d0, a0.
  split; [reflexivity|]. split; [exact Hd0|]. split; [exact Ha0|].
  split; [intros r Hr; split; [apply Hmin | apply Hmax]; exact Hr|].
  unfold first_with_population. split.
  - apply (window_desc_first Hstable _ _ _ Hd).
  - apply (window_asc_first Hstable _ _ _ _ Ha).
Qed.

(** C2, as amended.  With an engine that scans the table in insertion order
    and orders ties stably, the largest country of a region is the first
    inserted among the rows of the region with the greatest population, and
    the smallest country the first inserted among those with the least; two
    runs by such engines over the same rows give the same row for a region.
    (The query itself names no tie-break key, so nothing is claimed of an
    engine that orders ties otherwise.) *)
Theorem stable_engine_picks_first_inserted
    (E : Engine) (rows : list StoredRow) (s : RegionSummary) :
  stable order_by ->
  (forall l, seq_scan l = l) ->
  In s (aggregate_rows rows) ->
  (exists hi lo first_hi first_lo,
      population_max s = Some hi
      /\ population_min s = Some lo
      /\ (forall r, In r (rows_of_region (rs_region s) rows) ->
                    lo <= population (fields r) <= hi)
      /\ first_with_population (rs_region s) hi rows = Some first_hi
      /\ first_with_population (rs_region s) lo rows = Some first_lo
      /\ largest_country s = name (fields first_hi)
      /\ smallest_country s = name (fields first_lo))
  /\ (forall (E' : Engine) (s' : RegionSummary),
         stable (order_by (Engine := E')) ->
         (forall l, seq_scan (Engine := E') l = l) ->
         In s' (aggregate_rows (E := E') rows) ->
         rs_region s' = rs_region s ->
         s' = s).
Proof.
  intros Hstable Hscan Hs.
  destruct (stable_report_row E rows s Hstable Hscan Hs)
    as (d0 & a0 & Heq & Hd0 & Ha0 & Hbounds & Hfd & Hfa).
  split.
  - exists (population (fields d0)), (population (fields a0)), d0, a0.
    assert (Hmax : population_max s = Some (population (fields d0)))
      by (rewrite Heq; reflexivity).
    assert (Hmin : population_min s = Some (population (fields a0)))
      by (rewrite Heq; reflexivity).
    assert (Hlargest : largest_country s = name (fields d0))
      by (rewrite Heq; reflexivity).
    assert (Hsmallest : smallest_country s = name (fields a0))
      by (rewrite Heq; reflexivity).
    repeat split; try assumption; apply Hbounds; assumption.
  - intros E' s' Hstable' Hscan' Hs' Hregion.
    destruct (stable_report_row E' rows s' Hstable' Hscan' Hs')
      as (d0' & a0' & Heq' & Hd0' & Ha0' & Hbounds' & Hfd' & Hfa').
    rewrite Hregion in *.
    assert (Hhi : population (fields d0') = population (fields d0)).
    { pose proof (Hbounds d0' Hd0'). pose proof (Hbounds' d0 Hd0). lia. }
    assert (Hlo : population (fields a0') = population (fields a0)).
    { pose proof (Hbounds a0' Ha0'). pose proof (Hbounds' a0 Ha0). lia. }
    rewrite Hhi in Hfd'. rewrite Hlo in Hfa'.
    assert (d0' = d0) by congruence. assert (a0' = a0) by congruence. subst d0' a0'.
    rewrite Heq'. symmetry. exact Heq.
Qed.

(** Two pairs of tied rows in one region. *)
Definition tied : list StoredRow :=
  [ {| row_id := 1; fields := country "A" (Some "X") 30 |};
    {| row_id := 2; fields := country "B" (Some "X") 30 |};
    {| row_id := 3; fields := country "C" (Some "X") 10 |};
    {| row_id := 4; fields := country "D" (Some "X") 10 |} ].

Definition tied_row : RegionSummary :=
  {| rs_region := "X"; total_population := 80%float;
     largest_country := Some "A"; population_max := Some 30;
     smallest_country := Some "C"; population_min := Some 10 |}.

Lemma stable_engine_picks_first_inserted_witness :
  exists hi lo first_hi first_lo,
    population_max tied_row = Some hi
    /\ population_min tied_row = Some lo
    /\ (forall r, In r (rows_of_region (rs_region tied_row) tied) ->
                  lo <= population (fields r) <= hi)
    /\ first_with_population (rs_region tied_row) hi tied = Some first_hi
    /\ first_with_population (rs_region tied_row) lo tied = Some first_lo
    /\ largest_country tied_row = name (fields first_hi)
    /\ smallest_country tied_row = name (fields first_lo).
Proof.
  apply (proj1 (stable_engine_picks_first_inserted heap_order_engine tied tied_row
                  stable_sorter_stable (fun l => eq_refl)
                  ltac:(vm_compute; left; reflexivity))).
Defined.

(** C2 as stated fails: an engine is free to list ties last-come first, and
    then the largest country of the region is the second inserted of the two
    tied rows, not the first. *)
Lemma tie_break_counterexample :
  ~ (forall (E : Engine) (rows : list StoredRow) (s : RegionSummary) (hi : Z),
        In s (aggregate_rows rows) ->
        population_max s = Some hi ->
        exists first,
          first_with_population (rs_region s) hi rows = Some first
          /\ largest_country s = name (fields first)).
Proof.
  intros H.
  destruct (H reversing_engine tied
              {| rs_region := "X"; total_population := 80%float;
                 largest_country := Some "B"; population_max := Some 30;
                 smallest_country := Some "C"; population_min := Some 10 |}
              30 ltac:(vm_compute; left; reflexivity) eq_refl)
    as (first & Hfirst & Hname).
  vm_compute in Hfirst. injection Hfirst as <-.
  vm_compute in Hname. discriminate Hname.
Qed.

(** * Further properties of the code *)

(** ** The outcome of the connection attempts, read backwards *)

Lemma first_success_or_all_fail (n : nat) (w : World) :
  (forall j, (j < n)%nat -> failed_at w j)
  \/ (exists k c, (k < n)%nat
                  /\ (forall j, (j < k)%nat -> failed_at w j)
                  /\ pg_answers w (connect_calls w + k)%nat = Ok c).
Proof.
  induction n as [|n IH].
  - left. intros j Hj. lia.
  - destruct IH as [Hall | (k & c & Hk & Hfail & Hok)].
    + destruct (pg_answers w (connect_calls w + n)%nat) as [c|e] eqn:Hn.
      * right. exists n, c. split; [lia|]. split; assumption.
      * left. intros j Hj. destruct (Nat.eq_dec j n) as [-> | Hne].
        -- exists e. exact Hn.
        -- apply Hall. lia.
    + right. exists k, c. split; [lia|]. split; assumption.
Qed.

(** X1.  Whatever the server answers, a manager comes out of its constructor
    without a connection only if all five attempts failed, and then after 10
    seconds of sleep and with the failure reported once; if it comes out with
    a connection, that connection is the answer to the first attempt that
    succeeded, every earlier attempt failed, two seconds were slept for each
    of those, no further attempt was made and nothing was reported. *)
Theorem init_outcome (w : World) :
  match conn (fst (__init__ w)) with
  | None =>
      (forall j, (j < 5)%nat -> failed_at w j)
      /\ snd (__init__ w) = advance w 5 10 [st_error connect_failed]
  | Some c =>
      exists k, (k < 5)%nat
                /\ (forall j, (j < k)%nat -> failed_at w j)
                /\ pg_answers w (connect_calls w + k)%nat = Ok c
                /\ snd (__init__ w) = advance w (S k) (2 * Z.of_nat k) []
  end.
Proof.
  unfold __init__, _connect.
  destruct (first_success_or_all_fail 5 w) as [Hall | (k & c & Hk & Hfail & Hok)].
  - rewrite (connect_attempts_all_fail 5 _ w Hall). cbn [fst snd conn].
    split; [exact Hall | reflexivity].
  - rewrite (connect_attempts_first_success 5 k c _ w Hk Hfail Hok).
    cbn [fst snd conn with_conn].
    exists k. repeat split; assumption.
Qed.

(** ** When the snapshot cannot be fetched *)

(** The ways the exchange with the primary source can fail before any item
    is looked at. *)
Definition exchange_fails (net : Network) (url : string) (e : exn) : Prop :=
  requests_get net url = Raise e
  \/ exists response,
       requests_get net url = Ok response
       /\ (raise_for_status response = Raise e
           \/ (raise_for_status response = Ok tt /\ response_json response = Raise e)).

(** X2.  A transport failure, an error status or an undecodable body never
    escapes [fetch_api_data]: the function returns the frame without columns
    and rows and reports exactly one error, which carries the text of the
    exception. *)
Theorem fetch_api_data_exchange_failure (net : Network) (e : exn) :
  exchange_fails net restcountries_url e ->
  fetch_api_data net = (empty_frame, [st_error ("Error fetching API: " ++ exn_str e)]).
Proof.
  unfold fetch_api_data.
  intros [Hget | (response & Hget & [Hstatus | [Hstatus Hjson]])]; rewrite Hget; cbn [bind].
  - reflexivity.
  - rewrite Hstatus. reflexivity.
  - rewrite Hstatus. cbn [bind]. rewrite Hjson. reflexivity.
Qed.

(** A network that answers every request with the given status and body. *)
Definition answering_status (code : Z) (body : json) : Network :=
  fun _ => Ok {| status_code := code; response_json := Ok body |}.

Lemma fetch_api_data_exchange_failure_witness :
  fetch_api_data (answering_status 503 (JArr two_countries))
  = (empty_frame, [st_error "Error fetching API: HTTPError"]).
Proof.
  apply (fetch_api_data_exchange_failure (answering_status 503 (JArr two_countries))
           (RequestException "HTTPError")).
  right. eexists. split; [reflexivity|]. left. reflexivity.
Defined.

Lemma country_tuple_not_object (item : json) :
  (forall members, item <> JObj members) ->
  country_tuple item
  = Raise (AttributeError ("'" ++ type_name item ++ "' object has no attribute 'get'")).
Proof.
  intros H. destruct item; try reflexivity. exfalso. apply (H members). reflexivity.
Qed.

Lemma mapM_raises {A B : Type} (f : A -> result B) (l : list A) :
  Exists (fun x => exists e, f x = Raise e) l -> exists e, mapM f l = Raise e.
Proof.
  induction 1 as [x l (e & He) | x l _ (e & IH)]; cbn [mapM].
  - exists e. rewrite He. reflexivity.
  - destruct (f x) as [y|e']; cbn [bind].
    + exists e. rewrite IH. reflexivity.
    + exists e'. reflexivity.
Qed.

(** X3.  The snapshot is all or nothing: if any element of the array is not
    an object, every country is discarded, the good ones with it, and one
    error is reported. *)
Theorem fetch_api_data_one_bad_item
    (net : Network) (response : Response) (data : list json) :
  requests_get net restcountries_url = Ok response ->
  raise_for_status response = Ok tt ->
  response_json response = Ok (JArr data) ->
  Exists (fun item => forall members, item <> JObj members) data ->
  exists e, fetch_api_data net
            = (empty_frame, [st_error ("Error fetching API: " ++ exn_str e)]).
Proof.
  intros Hget Hstatus Hjson Hbad.
  assert (Hraise : exists e, mapM country_tuple data = Raise e).
  { apply mapM_raises. eapply Exists_impl; [|exact Hbad].
    intros item Hitem. eexists. apply country_tuple_not_object. exact Hitem. }
  destruct Hraise as (e & He). exists e.
  unfold fetch_api_data. rewrite Hget. cbn [bind]. rewrite Hstatus. cbn [bind].
  rewrite Hjson. cbn [bind py_iter]. rewrite He. reflexivity.
Qed.

Lemma fetch_api_data_one_bad_item_witness :
  exists e, fetch_api_data (answering (JArr (two_countries ++ [JStr "Ukraine"])))
            = (empty_frame, [st_error ("Error fetching API: " ++ exn_str e)]).
Proof.
  apply (fetch_api_data_one_bad_item (answering (JArr (two_countries ++ [JStr "Ukraine"])))
           {| status_code := 200;
              response_json := Ok (JArr (two_countries ++ [JStr "Ukraine"])) |}
           (two_countries ++ [JStr "Ukraine"])); try reflexivity.
  apply Exists_exists. exists (JStr "Ukraine"). split.
  - cbn. right. right. left. reflexivity.
  - intros members. discriminate.
Defined.

(** ** What the history function returns and when *)

(** X4.  [get_population_world_bank] never returns an empty frame: when it
    returns a frame at all, it reported no error, and the frame has the three
    columns, at least one row, and its rows in ascending order of year. *)
Theorem get_population_world_bank_some
    (S : Sorter) (net : Network) (country_code : string)
    (df : DataFrame HistoryPoint) (evs : list ui_event) :
  get_population_world_bank net country_code = (Some df, evs) ->
  evs = []
  /\ records df <> []
  /\ columns df = history_columns
  /\ StronglySorted (key_le hp_year) (records df).
Proof.
  unfold get_population_world_bank.
  destruct (requests_get net (world_bank_url country_code)) as [response|e];
    cbn [bind]; [|discriminate].
  destruct (raise_for_status response) as [u|e]; cbn [bind]; [|discriminate].
  destruct (response_json response) as [data|e]; cbn [bind]; [|discriminate].
  destruct (py_len data) as [n|e]; cbn [bind]; [|discriminate].
  destruct (1 <? n); [|discriminate].
  destruct (py_second data) as [second|e]; cbn [bind]; [|discriminate].
  destruct second as [| | | | |entries|members]; try discriminate.
  destruct (history_rows entries) as [rows|e]; cbn [bind]; [|discriminate].
  destruct rows as [|p rows]; [discriminate|].
  cbn. intros H. injection H as <- <-. cbn [records columns].
  split; [reflexivity|]. split.
  - intros Hnil.
    pose proof (sort_by_perm HistoryPoint hp_year (p :: rows)) as Hp.
    rewrite Hnil in Hp. apply Permutation_nil in Hp. discriminate Hp.
  - split; [reflexivity | apply sort_by_sorted].
Qed.

Lemma get_population_world_bank_some_witness :
  records {| columns := history_columns;
             records := [{| hp_country := JStr "Ukraine"; hp_year := 2001;
                            hp_population := JInt 500 |}] |} <> []
  /\ StronglySorted (key_le hp_year)
       [{| hp_country := JStr "Ukraine"; hp_year := 2001; hp_population := JInt 500 |}].
Proof.
  destruct (get_population_world_bank_some stable_sorter
              (answering (JArr [page_info; JArr [wb_entry "Ukraine" "2000" JNull;
                                                wb_entry "Ukraine" "2001" (JInt 500)]]))
              "UA"
              {| columns := history_columns;
                 records := [{| hp_country := JStr "Ukraine"; hp_year := 2001;
                                hp_population := JInt 500 |}] |}
              [] eq_refl) as (_ & Hne & _ & Hsorted).
  split; assumption.
Defined.

(** X5.  A body that is an array without a second element, or whose second
    element is not a list (the shape of the source's own error answers),
    gives [None] silently: no error is reported. *)
Theorem get_population_world_bank_no_series
    (S : Sorter) (net : Network) (country_code : string) (response : Response)
    (items : list json) :
  requests_get net (world_bank_url country_code) = Ok response ->
  raise_for_status response = Ok tt ->
  response_json response = Ok (JArr items) ->
  (forall entries, nth_error items 1 <> Some (JArr entries)) ->
  get_population_world_bank net country_code = (None, []).
Proof.
  intros Hget Hstatus Hjson Hsecond.
  unfold get_population_world_bank.
  rewrite Hget. cbn [bind]. rewrite Hstatus. cbn [bind]. rewrite Hjson. cbn [bind py_len].
  destruct (1 <? Z.of_nat (List.length items)) eqn:Hlt; [|reflexivity].
  apply Z.ltb_lt in Hlt. unfold py_second.
  destruct (nth_error items 1) as [second|] eqn:Hnth.
  - cbn [bind]. destruct second; try reflexivity.
    exfalso. apply (Hsecond items0). reflexivity.
  - apply nth_error_None in Hnth. lia.
Qed.

Definition source_error_body : json :=
  JArr [JObj [("message", JArr [JObj [("id", JStr "120");
                                      ("key", JStr "Invalid value")]])]].

Lemma get_population_world_bank_no_series_witness :
  get_population_world_bank (S := stable_sorter) (answering source_error_body) "ZZ"
  = (None, []).
Proof.
  apply (get_population_world_bank_no_series stable_sorter (answering source_error_body)
           "ZZ" {| status_code := 200; response_json := Ok source_error_body |}
           [JObj [("message", JArr [JObj [("id", JStr "120");
                                          ("key", JStr "Invalid value")]])]]);
    try reflexivity.
  intros entries. discriminate.
Defined.

Lemma history_rows_raises (entries : list json) :
  Exists (fun entry => exists e, history_row entry = Raise e) entries ->
  exists e, history_rows entries = Raise e.
Proof.
  induction 1 as [entry entries (e & He) | entry entries _ (e & IH)]; cbn [history_rows].
  - exists e. rewrite He. reflexivity.
  - destruct (history_row entry) as [r|e']; cbn [bind].
    + exists e. rewrite IH. reflexivity.
    + exists e'. reflexivity.
Qed.

(** What [int] reads and what it does not: grouped digits, a sign and
    surrounding white space are read; a stray underscore, an inner space or
    the empty string are not. *)
Example int_of_str_reads :
  map int_of_str ["2001"; "2_001"; " 2001 "; "+2001"; "-2_0_0_1"; "007"]
  = [Ok 2001; Ok 2001; Ok 2001; Ok 2001; Ok (-2001); Ok 7].
Proof. reflexivity. Qed.

Example int_of_str_refuses :
  forallb (fun s => match int_of_str s with Ok _ => false | Raise _ => true end)
          [""; " "; "MRV"; "2001.0"; "_2001"; "2001_"; "20__01"; "20 01"; "+ 2001"; "+-1"]
  = true.
Proof. reflexivity. Qed.

(** An entry that has a value other than null and a date that [int] does not
    accept. *)
Definition unreadable_date (entry : json) : Prop :=
  exists v c label d e,
    py_getitem entry "value" = Ok v /\ v <> JNull
    /\ py_getitem entry "country" = Ok c /\ py_getitem c "value" = Ok label
    /\ py_getitem entry "date" = Ok d /\ py_int d = Raise e.

Lemma history_row_unreadable_date (entry : json) :
  unreadable_date entry -> exists e, history_row entry = Raise e.
Proof.
  intros (v & c & label & d & e & Hv & Hnn & Hc & Hl & Hd & Hy).
  exists e. unfold history_row.
  rewrite Hv. cbn [bind]. rewrite Hc. cbn [bind]. rewrite Hl. cbn [bind].
  rewrite Hd. cbn [bind]. rewrite Hy. cbn [bind].
  destruct v; try reflexivity. contradiction.
Qed.

(** X6.  The series is all or nothing: one entry with a value and a date that
    cannot be read as an integer makes the function discard every point, the
    readable ones with it, return [None] and report one error. *)
Theorem get_population_world_bank_one_bad_date
    (S : Sorter) (net : Network) (country_code : string) (response : Response)
    (first : json) (entries rest : list json) :
  requests_get net (world_bank_url country_code) = Ok response ->
  raise_for_status response = Ok tt ->
  response_json response = Ok (JArr (first :: JArr entries :: rest)) ->
  Exists unreadable_date entries ->
  exists e, get_population_world_bank net country_code
            = (None, [st_error ("World Bank API error: " ++ exn_str e)]).
Proof.
  intros Hget Hstatus Hjson Hbad.
  assert (Hraise : exists e, history_rows entries = Raise e).
  { apply history_rows_raises. eapply Exists_impl; [|exact Hbad].
    apply history_row_unreadable_date. }
  destruct Hraise as (e & He). exists e.
  destruct (second_of_array first (JArr entries) rest) as (Hlen & Hlt & Hsecond).
  unfold get_population_world_bank.
  rewrite Hget. cbn [bind]. rewrite Hstatus. cbn [bind]. rewrite Hjson. cbn [bind].
  rewrite Hlen. cbn [bind]. rewrite Hlt, Hsecond. cbn [bind]. rewrite He. reflexivity.
Qed.

Lemma get_population_world_bank_one_bad_date_witness :
  exists e,
    get_population_world_bank (S := stable_sorter)
      (answering (JArr [page_info; JArr [wb_entry "Ukraine" "2001" (JInt 500);
                                        wb_entry "Ukraine" "MRV" (JInt 600)]])) "UA"
    = (None, [st_error ("World Bank API error: " ++ exn_str e)]).
Proof.
  apply (get_population_world_bank_one_bad_date stable_sorter _ "UA"
           {| status_code := 200;
              response_json :=
                Ok (JArr [page_info; JArr [wb_entry "Ukraine" "2001" (JInt 500);
                                           wb_entry "Ukraine" "MRV" (JInt 600)]]) |}
           page_info
           [wb_entry "Ukraine" "2001" (JInt 500); wb_entry "Ukraine" "MRV" (JInt 600)] []);
    try reflexivity.
  apply Exists_cons_tl, Exists_cons_hd.
  exists (JInt 600), (JObj [("id", JStr "UA"); ("value", JStr "Ukraine")]),
         (JStr "Ukraine"), (JStr "MRV"),
         (ValueError "invalid literal for int() with base 10: 'MRV'").
  repeat split; try reflexivity. discriminate.
Defined.

(** *** The points of a well-formed series *)

(** The point an entry stands for: none for an entry whose value is null. *)
Definition point_of (entry : json) : option HistoryPoint :=
  match entry with
  | JObj members =>
      match dict_lookup members "value" with
      | None | Some JNull => None
      | Some v =>
          match dict_lookup members "country", dict_lookup members "date" with
          | Some (JObj country_members), Some d =>
              match dict_lookup country_members "value", py_int d with
              | Some label, Ok y =>
                  Some {| hp_country := label; hp_year := y; hp_population := v |}
              | _, _ => None
              end
          | _, _ => None
          end
      end
  | _ => None
  end.

(** An entry of the secondary source: an object with a value; when the value
    is not null, also with a country object that has a label and with a date
    that reads as an integer. *)
Definition well_formed_entry (entry : json) : bool :=
  match entry with
  | JObj members =>
      match dict_lookup members "value" with
      | None => false
      | Some JNull => true
      | Some _ =>
          match point_of entry with
          | Some _ => true
          | None => false
          end
      end
  | _ => false
  end.

Definition surviving_points (entries : list json) : list HistoryPoint :=
  flat_map (fun entry => match point_of entry with Some p => [p] | None => [] end) entries.

Lemma history_row_well_formed (entry : json) :
  well_formed_entry entry = true -> history_row entry = Ok (point_of entry).
Proof.
  destruct entry as [| | | | | |members]; try discriminate.
  unfold well_formed_entry, point_of, history_row, py_getitem.
  destruct (dict_lookup members "value") as [v|]; [|discriminate].
  cbn [bind].
  destruct v; try reflexivity;
    (destruct (dict_lookup members "country") as [[| | | | | |cm]|]; try discriminate;
     destruct (dict_lookup members "date") as [d|]; try discriminate;
     cbn [bind];
     destruct (dict_lookup cm "value") as [label|]; try discriminate;
     cbn [bind];
     destruct (py_int d) as [y|e]; try discriminate;
     intros _; reflexivity).
Qed.

Lemma history_rows_well_formed (entries : list json) :
  forallb well_formed_entry entries = true ->
  history_rows entries = Ok (surviving_points entries).
Proof.
  induction entries as [|entry entries IH]; cbn [forallb history_rows]; intros H.
  - reflexivity.
  - apply andb_prop in H. destruct H as [Hentry Hrest].
    rewrite (history_row_well_formed entry Hentry), (IH Hrest). cbn [bind].
    unfold surviving_points. cbn [flat_map].
    destruct (point_of entry); reflexivity.
Qed.

(** X7.  For a well-formed series in which at least one entry has a value,
    the function returns, without reporting anything, the frame of the points
    of the entries that have a value (label of the entry's own country, the
    date read as an integer, the value), none of them lost or duplicated, in
    ascending order of year. *)
Theorem get_population_world_bank_series
    (S : Sorter) (net : Network) (country_code : string) (response : Response)
    (first : json) (entries rest : list json) :
  requests_get net (world_bank_url country_code) = Ok response ->
  raise_for_status response = Ok tt ->
  response_json response = Ok (JArr (first :: JArr entries :: rest)) ->
  forallb well_formed_entry entries = true ->
  surviving_points entries <> [] ->
  exists df,
    get_population_world_bank net country_code = (Some df, [])
    /\ columns df = history_columns
    /\ Permutation (records df) (surviving_points entries)
    /\ StronglySorted (key_le hp_year) (records df).
Proof.
  intros Hget Hstatus Hjson Hwf Hne.
  rewrite (get_population_world_bank_rows S net country_code response first entries rest
             (surviving_points entries) Hget Hstatus Hjson
             (history_rows_well_formed entries Hwf)).
  destruct (surviving_points entries) as [|p rows]; [contradiction|].
  eexists. split; [reflexivity|].
  cbn [columns records frame_of_rows].
  split; [reflexivity|]. split; [apply sort_by_perm | apply sort_by_sorted].
Qed.

Definition sparse_series : list json :=
  [wb_entry "Ukraine" "2002" (JInt 700); wb_entry "Ukraine" "2000" JNull;
   wb_entry "Ukraine" "2001" (JInt 500)].

Lemma get_population_world_bank_series_witness :
  exists df,
    get_population_world_bank (S := stable_sorter)
      (answering (JArr [page_info; JArr sparse_series])) "UA" = (Some df, [])
    /\ columns df = history_columns
    /\ Permutation (records df)
         [ {| hp_country := JStr "Ukraine"; hp_year := 2002; hp_population := JInt 700 |};
           {| hp_country := JStr "Ukraine"; hp_year := 2001; hp_population := JInt 500 |} ]
    /\ StronglySorted (key_le hp_year) (records df).
Proof.
  apply (get_population_world_bank_series stable_sorter _ "UA"
           {| status_code := 200;
              response_json := Ok (JArr [page_info; JArr sparse_series]) |}
           page_info sparse_series []); try reflexivity.
  discriminate.
Defined.

(** ** Invariants of the store across loads *)

Lemma substring_0_length (n : nat) (s : string) :
  (String.length (substring 0 n s) <= n)%nat.
Proof.
  revert s. induction n as [|n IH]; intros s.
  - destruct s; cbn; lia.
  - destruct s as [|ch s]; cbn [substring String.length]; [lia|].
    specialize (IH s). lia.
Qed.

Lemma store_varchar_result_fits (column : string) (limit : nat) (v v' : option string) :
  store_varchar column limit v = Ok v' -> fits_varchar limit v' = true.
Proof.
  unfold store_varchar, fits_varchar. destruct v as [s|].
  - destruct (Nat.leb (String.length s) limit) eqn:Hlen.
    + intros H. injection H as <-. exact Hlen.
    + destruct (all_spaces _); [|discriminate].
      intros H. injection H as <-. apply Nat.leb_le, substring_0_length.
  - intros H. injection H as <-. reflexivity.
Qed.

Lemma store_record_result_fits (r r' : CountryRecord) :
  store_record r = Ok r' -> fits_schema r' = true.
Proof.
  unfold store_record.
  destruct (store_varchar "name" 255 (name r)) as [n|e] eqn:Hn; cbn [bind]; [|discriminate].
  destruct (store_varchar "cca2" 10 (cca2 r)) as [c2|e] eqn:Hc2; cbn [bind]; [|discriminate].
  destruct (store_varchar "cca3" 10 (cca3 r)) as [c3|e] eqn:Hc3; cbn [bind]; [|discriminate].
  destruct (store_varchar "region" 100 (region r)) as [reg|e] eqn:Hreg; cbn [bind];
    [|discriminate].
  unfold store_bigint.
  destruct ((int64_min <=? population r) && (population r <=? int64_max))%bool eqn:Hpop;
    cbn [bind]; [|discriminate].
  intros H. injection H as <-. unfold fits_schema.
  cbn [name cca2 cca3 region population].
  rewrite (store_varchar_result_fits _ _ _ _ Hn), (store_varchar_result_fits _ _ _ _ Hc2),
    (store_varchar_result_fits _ _ _ _ Hc3), (store_varchar_result_fits _ _ _ _ Hreg).
  cbn [andb]. apply andb_prop in Hpop. destruct Hpop as [-> ->]. reflexivity.
Qed.

Lemma mapM_store_record_result_fits (l stored : list CountryRecord) :
  mapM store_record l = Ok stored -> Forall (fun r => fits_schema r = true) stored.
Proof.
  revert stored. induction l as [|r l IH]; cbn [mapM]; intros stored H.
  - injection H as <-. constructor.
  - destruct (store_record r) as [r'|e] eqn:Hr; cbn [bind] in H; [|discriminate].
    destruct (mapM store_record l) as [rest|e]; cbn [bind] in H; [|discriminate].
    injection H as <-. constructor; [eapply store_record_result_fits; exact Hr|].
    apply IH. reflexivity.
Qed.

(** X8.  Whatever frame is loaded, when [save_data] returns every row of the
    table is within the column types: names of at most 255 characters, codes
    of at most 10, regions of at most 100, populations within 64 bits. *)
Theorem save_data_rows_fit
    (self self' : DatabaseManager) (c : Connection) (df : DataFrame CountryRecord) :
  conn self = Some c ->
  save_data df self = (Ok tt, self') ->
  exists rows,
    committed_rows self' = Some rows
    /\ Forall (fun r => fits_schema (fields r) = true) rows.
Proof.
  intros Hconn Hrun.
  destruct (save_data_returns self self' c df Hconn Hrun) as (stored & _ & Hstore & ->).
  exists (assign_ids (last_id_seen c) stored). split; [reflexivity|].
  apply Forall_forall. intros row Hrow.
  pose proof (mapM_store_record_result_fits _ _ Hstore) as Hfits.
  rewrite Forall_forall in Hfits. apply Hfits.
  rewrite <- (assign_ids_fields (last_id_seen c) stored).
  apply in_map. exact Hrow.
Qed.

Lemma save_data_rows_fit_witness :
  exists rows,
    committed_rows (snd (save_data (frame_of [country padded_name None 1])
                           (manager_with three_rows 3))) = Some rows
    /\ Forall (fun r => fits_schema (fields r) = true) rows.
Proof.
  apply (save_data_rows_fit (manager_with three_rows 3)
           (snd (save_data (frame_of [country padded_name None 1])
                   (manager_with three_rows 3)))
           (idle_connection three_rows 3)
           (frame_of [country padded_name None 1])).
  - reflexivity.
  - vm_compute. reflexivity.
Defined.

Lemma assign_ids_bounds (last : Z) (stored : list CountryRecord) :
  Forall (fun r => last < row_id r <= last + Z.of_nat (List.length stored))
         (assign_ids last stored).
Proof.
  revert last. induction stored as [|r rest IH]; intros last; cbn [assign_ids].
  - constructor.
  - constructor; [cbn [row_id List.length]; lia|].
    eapply Forall_impl; [|apply IH]. cbn [List.length]. intros row Hrow. lia.
Qed.

(** X9.  Identifiers are never reused: of two loads that return, one after
    the other on the same manager, every row of the second carries an
    identifier greater than every identifier of the first ([TRUNCATE] does
    not restart the sequence). *)
Theorem save_data_ids_never_reused
    (self self1 self2 : DatabaseManager) (c : Connection)
    (df1 df2 : DataFrame CountryRecord) (rows1 rows2 : list StoredRow) :
  conn self = Some c ->
  save_data df1 self = (Ok tt, self1) ->
  save_data df2 self1 = (Ok tt, self2) ->
  committed_rows self1 = Some rows1 ->
  committed_rows self2 = Some rows2 ->
  forall r1 r2, In r1 rows1 -> In r2 rows2 -> row_id r1 < row_id r2.
Proof.
  intros Hconn Hrun1 Hrun2 Hrows1 Hrows2 r1 r2 Hr1 Hr2.
  destruct (save_data_returns self self1 c df1 Hconn Hrun1) as (stored1 & _ & _ & ->).
  destruct (save_data_returns
              (with_conn self
                 (Some (idle_connection (assign_ids (last_id_seen c) stored1)
                          (last_id_seen c + Z.of_nat (List.length stored1)))))
              self2
              (idle_connection (assign_ids (last_id_seen c) stored1)
                 (last_id_seen c + Z.of_nat (List.length stored1)))
              df2 eq_refl Hrun2) as (stored2 & _ & _ & ->).
  unfold committed_rows, with_conn, idle_connection, last_id_seen, seen_by
    in Hrows1, Hrows2.
  cbn [conn committed status option_map heap last_id] in Hrows1, Hrows2.
  injection Hrows1 as <-. injection Hrows2 as <-.
  pose proof (assign_ids_bounds (last_id_seen c) stored1) as H1.
  rewrite Forall_forall in H1. specialize (H1 r1 Hr1).
  pose proof (assign_ids_bounds (last_id_seen c + Z.of_nat (List.length stored1)) stored2)
    as H2.
  rewrite Forall_forall in H2. specialize (H2 r2 Hr2). lia.
Qed.

Lemma save_data_ids_never_reused_witness :
  row_id {| row_id := 4; fields := country "D" (Some "Y") 7 |}
  < row_id {| row_id := 5; fields := country "D" (Some "Y") 7 |}.
Proof.
  apply (save_data_ids_never_reused (manager_with three_rows 3)
           (snd (save_data (frame_of [country "D" (Some "Y") 7])
                   (manager_with three_rows 3)))
           (snd (save_data (frame_of [country "D" (Some "Y") 7])
                   (snd (save_data (frame_of [country "D" (Some "Y") 7])
                           (manager_with three_rows 3)))))
           (idle_connection three_rows 3)
           (frame_of [country "D" (Some "Y") 7]) (frame_of [country "D" (Some "Y") 7])
           [ {| row_id := 4; fields := country "D" (Some "Y") 7 |} ]
           [ {| row_id := 5; fields := country "D" (Some "Y") 7 |} ]).
  - reflexivity.
  - vm_compute. reflexivity.
  - vm_compute. reflexivity.
  - vm_compute. reflexivity.
  - vm_compute. reflexivity.
  - left. reflexivity.
  - left. reflexivity.
Defined.

(** X10.  Loading is idempotent on the contents: a frame that was loaded can
    be loaded again on the same manager, as long as the sequence has an
    identifier left for each of its records, and the table then holds rows
    with the same fields in the same order (under new identifiers). *)
Theorem save_data_again
    (self self1 : DatabaseManager) (c : Connection) (df : DataFrame CountryRecord)
    (rows1 : list StoredRow) :
  conn self = Some c ->
  save_data df self = (Ok tt, self1) ->
  committed_rows self1 = Some rows1 ->
  room (last_id_seen c + Z.of_nat (df_len df)) (df_len df) ->
  exists self2 rows2,
    save_data df self1 = (Ok tt, self2)
    /\ committed_rows self2 = Some rows2
    /\ map fields rows2 = map fields rows1.
Proof.
  intros Hconn Hrun Hrows1 Hroom.
  destruct (save_data_returns self self1 c df Hconn Hrun) as (stored & Hb & Hstore & ->).
  unfold committed_rows, with_conn, idle_connection in Hrows1.
  cbn [conn committed option_map heap] in Hrows1. injection Hrows1 as <-.
  pose proof (batch_length _ _ _ Hb) as Hlen.
  pose proof (save_data_usable
                (with_conn self
                   (Some (idle_connection (assign_ids (last_id_seen c) stored)
                            (last_id_seen c + Z.of_nat (List.length stored)))))
                (idle_connection (assign_ids (last_id_seen c) stored)
                   (last_id_seen c + Z.of_nat (List.length stored)))
                df eq_refl ltac:(discriminate)) as Hagain.
  change (last_id_seen (idle_connection (assign_ids (last_id_seen c) stored)
                          (last_id_seen c + Z.of_nat (List.length stored))))
    with (last_id_seen c + Z.of_nat (List.length stored)) in Hagain.
  assert (Hb2 : batch (last_id_seen c + Z.of_nat (List.length stored)) (records df)
                = Ok stored).
  { apply batch_Ok_iff. apply batch_Ok_iff in Hb. destruct Hb as (Ha & Hs & _).
    split; [exact Ha|]. split; [exact Hs|].
    rewrite Hlen. exact Hroom. }
  rewrite Hb2 in Hagain. rewrite Hagain.
  eexists. eexists. split; [reflexivity|]. split; [reflexivity|].
  cbn [heap]. rewrite !assign_ids_fields. reflexivity.
Qed.

Lemma save_data_again_witness :
  exists self2 rows2,
    save_data (frame_of [country "D" (Some "Y") 7])
      (snd (save_data (frame_of [country "D" (Some "Y") 7]) (manager_with three_rows 3)))
    = (Ok tt, self2)
    /\ committed_rows self2 = Some rows2
    /\ map fields rows2
       = map fields [ {| row_id := 4; fields := country "D" (Some "Y") 7 |} ].
Proof.
  apply (save_data_again (manager_with three_rows 3)
           (snd (save_data (frame_of [country "D" (Some "Y") 7])
                   (manager_with three_rows 3)))
           (idle_connection three_rows 3) (frame_of [country "D" (Some "Y") 7])).
  - reflexivity.
  - vm_compute. reflexivity.
  - vm_compute. reflexivity.
  - right. vm_compute. discriminate.
Defined.

Lemma init_db_aborted (self : DatabaseManager) (c : Connection) :
  conn self = Some c ->
  status c = Aborted ->
  init_db self = (Raise (StorageError InFailedSqlTransaction), self).
Proof.
  intros Hconn Hs.
  destruct self as [h d u p k]. cbn [conn] in Hconn. subst k.
  destruct c as [cm st]. cbn [status] in Hs. subst st. reflexivity.
Qed.

(** X11.  A load that the server rejects cannot be retried on the same
    manager: nothing in the class rolls the failed transaction back, so from
    then on [init_db] and every [save_data], whatever the frame, raise
    "current transaction is aborted" and leave the manager as it is. *)
Theorem failed_load_blocks_the_manager
    (self self1 : DatabaseManager) (c : Connection) (df : DataFrame CountryRecord)
    (cause : pg_error) :
  conn self = Some c ->
  usable c ->
  save_data df self = (Raise (StorageError cause), self1) ->
  init_db self1 = (Raise (StorageError InFailedSqlTransaction), self1)
  /\ forall df', save_data df' self1 = (Raise (StorageError InFailedSqlTransaction), self1).
Proof.
  intros Hconn Husable Hrun.
  pose proof (save_data_usable self c df Hconn Husable) as Hspec.
  destruct (batch (last_id_seen c) (records df)) as [stored|e].
  - rewrite Hspec in Hrun. discriminate Hrun.
  - destruct Hspec as (c1 & Hrun' & _ & Hab). rewrite Hrun' in Hrun.
    injection Hrun as -> <-.
    assert (Hs : status c1 = Aborted) by (apply Hab; eexists; reflexivity).
    split.
    + apply (init_db_aborted (with_conn self (Some c1)) c1 eq_refl Hs).
    + intros df'. apply (save_data_aborted (with_conn self (Some c1)) c1 df' eq_refl Hs).
Qed.

Lemma failed_load_blocks_the_manager_witness :
  save_data (frame_of [country "D" (Some "Y") 7])
    (snd (save_data (frame_of [country long_name (Some "X") 1])
            (manager_with three_rows 3)))
  = (Raise (StorageError InFailedSqlTransaction),
     snd (save_data (frame_of [country long_name (Some "X") 1])
            (manager_with three_rows 3))).
Proof.
  apply (proj2 (failed_load_blocks_the_manager (manager_with three_rows 3)
                  (snd (save_data (frame_of [country long_name (Some "X") 1])
                          (manager_with three_rows 3)))
                  (idle_connection three_rows 3)
                  (frame_of [country long_name (Some "X") 1])
                  (StringDataRightTruncation "name" 255)
                  eq_refl ltac:(discriminate) ltac:(vm_compute; reflexivity))
               (frame_of [country "D" (Some "Y") 7])).
Defined.

(** X25.  A load that the driver refuses (a text with the character NUL)
    does not block the manager: the table is left committed empty, the
    transaction is not aborted, and a later load of a frame whose records fit
    the columns and hold no NUL, with identifiers left for them, goes
    through and leaves exactly the records of that frame. *)
Theorem refused_load_can_be_retried
    (self self1 : DatabaseManager) (c : Connection) (df : DataFrame CountryRecord)
    (msg : string) :
  conn self = Some c ->
  usable c ->
  save_data df self = (Raise (ValueError msg), self1) ->
  exists c1,
    conn self1 = Some c1
    /\ usable c1
    /\ committed_rows self1 = Some []
    /\ forall df',
         forallb fits_schema (records df') = true ->
         forallb adaptable (records df') = true ->
         room (last_id_seen c1) (df_len df') ->
         exists self2 rows,
           save_data df' self1 = (Ok tt, self2)
           /\ committed_rows self2 = Some rows
           /\ map fields rows = records df'.
Proof.
  intros Hconn Husable Hrun.
  pose proof (save_data_usable self c df Hconn Husable) as Hspec.
  destruct (batch (last_id_seen c) (records df)) as [stored|e].
  - rewrite Hspec in Hrun. discriminate Hrun.
  - destruct Hspec as (c1 & Hrun' & Hcm & Hab). rewrite Hrun' in Hrun.
    injection Hrun as -> <-.
    assert (Hu1 : usable c1).
    { intros Hs. apply Hab in Hs. destruct Hs as (cause & Hs). discriminate Hs. }
    exists c1. split; [reflexivity|]. split; [exact Hu1|]. split.
    + unfold committed_rows, with_conn. cbn [conn]. rewrite Hcm. reflexivity.
    + intros df' Hfits Hadapt Hroom.
      pose proof (save_data_usable (with_conn self (Some c1)) c1 df' eq_refl Hu1) as Hnext.
      rewrite (batch_fits (last_id_seen c1) (records df') Hfits Hadapt Hroom) in Hnext.
      rewrite Hnext. eexists. eexists. split; [reflexivity|]. split; [reflexivity|].
      apply assign_ids_fields.
Qed.

(** A name with the character NUL in it. *)
Definition nul_name : string := String "A"%char (String Ascii.zero (String "B"%char EmptyString)).

Lemma refused_load_can_be_retried_witness :
  exists c1,
    conn (snd (save_data (frame_of [country "D" (Some "Y") 7; country nul_name (Some "X") 1])
                 (manager_with three_rows 3))) = Some c1
    /\ usable c1
    /\ committed_rows
         (snd (save_data (frame_of [country "D" (Some "Y") 7; country nul_name (Some "X") 1])
                 (manager_with three_rows 3))) = Some []
    /\ forall df',
         forallb fits_schema (records df') = true ->
         forallb adaptable (records df') = true ->
         room (last_id_seen c1) (df_len df') ->
         exists self2 rows,
           save_data df'
             (snd (save_data
                     (frame_of [country "D" (Some "Y") 7; country nul_name (Some "X") 1])
                     (manager_with three_rows 3)))
           = (Ok tt, self2)
           /\ committed_rows self2 = Some rows
           /\ map fields rows = records df'.
Proof.
  apply (refused_load_can_be_retried (manager_with three_rows 3)
           (snd (save_data (frame_of [country "D" (Some "Y") 7; country nul_name (Some "X") 1])
                   (manager_with three_rows 3)))
           (idle_connection three_rows 3)
           (frame_of [country "D" (Some "Y") 7; country nul_name (Some "X") 1])
           "A string literal cannot contain NUL (0x00) characters.").
  - reflexivity.
  - discriminate.
  - vm_compute. reflexivity.
Defined.

(** The rows sent before the refused tuple stay in the open transaction: a
    read on the same connection sees them, though they are not committed. *)
Example refused_load_leaves_rows_in_transaction :
  option_map records
    (match fst (get_all_data (E := heap_order_engine)
                  (snd (save_data
                          (frame_of [country "D" (Some "Y") 7; country nul_name (Some "X") 1])
                          (manager_with three_rows 3)))) with
     | Ok out => Some out
     | Raise _ => None
     end)
  = Some [country "D" (Some "Y") 7].
Proof. vm_compute. reflexivity. Qed.

(** X12.  Reading never changes what is stored: whatever the state of the
    manager, and whether they return or raise, [get_all_data] and
    [get_aggregated_stats] leave the committed rows of the table as they
    were. *)
Theorem reads_leave_the_table (E : Engine) (self : DatabaseManager) :
  committed_rows (snd (get_all_data self)) = committed_rows self
  /\ committed_rows (snd (get_aggregated_stats self)) = committed_rows self.
Proof.
  destruct self as [h d u p [[cm [|w|]]|]]; split;
    try reflexivity;
    first [ destruct cm as [t|]; reflexivity | destruct w as [t|]; reflexivity ].
Qed.

Lemma get_all_data_usable (E : Engine) (self : DatabaseManager) (c : Connection) (t : Table) :
  conn self = Some c ->
  usable c ->
  seen_by c = Some t ->
  get_all_data self
  = (Ok {| columns := country_columns; records := map fields (seq_scan (heap t)) |},
     with_conn self (Some {| committed := committed c;
                             status := InTransaction (Some t) |})).
Proof.
  intros Hconn Husable Hseen.
  destruct self as [h d u p k]. cbn [conn] in Hconn. subst k.
  destruct c as [cm [|w|]]; unfold usable in Husable; cbn [status] in Husable;
    unfold seen_by in Hseen; cbn [status committed] in Hseen.
  - subst cm. reflexivity.
  - subst w. reflexivity.
  - contradiction.
Qed.

(** X13.  A read before a load does not interfere with it: the read leaves
    its transaction open, the load continues in it and commits, and the
    outcome (result and manager) is the one the load alone has. *)
Theorem read_then_load
    (E : Engine) (self : DatabaseManager) (c : Connection) (t : Table)
    (df : DataFrame CountryRecord) :
  conn self = Some c ->
  usable c ->
  seen_by c = Some t ->
  save_data df (snd (get_all_data self)) = save_data df self
  /\ save_data df (snd (get_aggregated_stats self)) = save_data df self.
Proof.
  intros Hconn Husable Hseen.
  rewrite (get_all_data_usable E self c t Hconn Husable Hseen).
  rewrite (get_aggregated_stats_usable self c t Hconn Husable Hseen).
  cbn [snd].
  assert (Hsame : forall c1,
             seen_by c1 = Some t -> usable c1 ->
             save_data df (with_conn self (Some c1)) = save_data df self).
  { intros c1 Hseen1 Husable1.
    unfold save_data, bindM.
    rewrite (init_db_usable self c Hconn Husable).
    rewrite (init_db_usable (with_conn self (Some c1)) c1 eq_refl Husable1).
    assert (Hlast : last_id_seen c1 = last_id_seen c).
    { unfold last_id_seen. rewrite Hseen1, Hseen. reflexivity. }
    rewrite Hlast. reflexivity. }
  split; apply Hsame; try reflexivity; discriminate.
Qed.

Lemma read_then_load_witness :
  save_data (frame_of [country "D" (Some "Y") 7])
    (snd (get_all_data (E := heap_order_engine) (manager_with three_rows 3)))
  = save_data (frame_of [country "D" (Some "Y") 7]) (manager_with three_rows 3).
Proof.
  apply (proj1 (read_then_load heap_order_engine (manager_with three_rows 3)
                  (idle_connection three_rows 3) {| heap := three_rows; last_id := 3 |}
                  (frame_of [country "D" (Some "Y") 7])
                  eq_refl ltac:(discriminate) eq_refl)).
Defined.

(** ** The report as a whole *)

(** The totals of a report read as integers: [int] of each. *)
Definition int_totals (report : list RegionSummary) : result (list Z) :=
  mapM (fun s => int_of_float (total_population s)) report.

Lemma sum_Z_perm (l l' : list Z) : Permutation l l' -> sum_Z l = sum_Z l'.
Proof.
  induction 1 as [|x l l' _ IH|x y l|l l' l'' _ IH1 _ IH2]; cbn [sum_Z fold_right].
  - reflexivity.
  - fold (sum_Z l) (sum_Z l'). rewrite IH. reflexivity.
  - lia.
  - congruence.
Qed.

Lemma sum_indicator (keys : list string) (r : StoredRow) (w : Z) :
  NoDup keys ->
  sum_Z (map (fun g => if has_region g r then w else 0) keys)
  = if existsb (fun g => has_region g r) keys then w else 0.
Proof.
  induction 1 as [|k keys Hnotin _ IH]; cbn [map sum_Z fold_right existsb]; [reflexivity|].
  fold (sum_Z (map (fun g => if has_region g r then w else 0) keys)). rewrite IH.
  destruct (has_region k r) eqn:Hk; cbn [orb]; [|lia].
  assert (Hnone : existsb (fun g => has_region g r) keys = false).
  { destruct (existsb (fun g => has_region g r) keys) eqn:Hex; [|reflexivity].
    apply existsb_exists in Hex. destruct Hex as (g & Hg & Hgr).
    apply has_region_iff in Hk, Hgr. rewrite Hk in Hgr. injection Hgr as <-.
    contradiction. }
  rewrite Hnone. lia.
Qed.

Lemma sum_population_cons (r : StoredRow) (rows : list StoredRow) :
  sum_population (r :: rows) = population (fields r) + sum_population rows.
Proof. reflexivity. Qed.

Lemma sum_population_by_region (keys : list string) (rows : list StoredRow) :
  NoDup keys ->
  sum_Z (map (fun g => sum_population (rows_of_region g rows)) keys)
  = sum_population (filter (fun r => existsb (fun g => has_region g r) keys) rows).
Proof.
  intros Hnd. induction rows as [|r rows IH].
  - cbn [rows_of_region filter sum_population fold_right].
    induction keys as [|k keys IHk]; cbn [map sum_Z fold_right]; [reflexivity|].
    apply NoDup_cons_iff in Hnd. fold (sum_Z (map (fun _ : string => 0) keys)).
    rewrite (IHk (proj2 Hnd)). reflexivity.
  - assert (Hsplit :
      sum_Z (map (fun g => sum_population (rows_of_region g (r :: rows))) keys)
      = sum_Z (map (fun g => if has_region g r then population (fields r) else 0) keys)
        + sum_Z (map (fun g => sum_population (rows_of_region g rows)) keys)).
    { clear. induction keys as [|k keys IHk]; cbn [map sum_Z fold_right]; [reflexivity|].
      fold (sum_Z (map (fun g => sum_population (rows_of_region g (r :: rows))) keys)).
      fold (sum_Z (map (fun g => if has_region g r then population (fields r) else 0) keys)).
      fold (sum_Z (map (fun g => sum_population (rows_of_region g rows)) keys)).
      rewrite IHk. unfold rows_of_region. cbn [filter].
      destruct (has_region k r); rewrite ?sum_population_cons; lia. }
    rewrite Hsplit, IH, (sum_indicator keys r _ Hnd). cbn [filter].
    destruct (existsb (fun g => has_region g r) keys);
      rewrite ?sum_population_cons; lia.
Qed.

Lemma in_some_region_iff (rows : list StoredRow) (r : StoredRow) :
  In r rows ->
  existsb (fun g => has_region g r) (regions_of rows) = where_region r.
Proof.
  intros Hin.
  destruct (where_region r) eqn:Hw.
  - apply where_region_iff in Hw. destruct Hw as (g & Hg & Hreg).
    apply existsb_exists. exists g. split.
    + apply regions_of_iff. split; [exact Hg|]. exists r. split; assumption.
    + apply has_region_iff. exact Hreg.
  - destruct (existsb (fun g => has_region g r) (regions_of rows)) eqn:Hex; [|reflexivity].
    apply existsb_exists in Hex. destruct Hex as (g & Hg & Hgr).
    apply regions_of_iff in Hg. destruct Hg as [Hg _].
    apply has_region_iff in Hgr.
    assert (Htrue : where_region r = true).
    { apply where_region_iff. exists g. split; assumption. }
    congruence.
Qed.

Section Conservation.

Context {E : Engine}.

Lemma group_keys_perm (rows : list StoredRow) :
  Permutation (group_keys (ranked rows))
              (map (fun g => (g, sum_population (rows_of_region g rows))) (regions_of rows)).
Proof.
  apply NoDup_Permutation.
  - apply NoDup_nodup.
  - apply NoDup_map_NoDup_ForallPairs; [|apply NoDup_nodup].
    intros g1 g2 _ _ H. injection H as ->. reflexivity.
  - intros key. rewrite group_keys_iff, in_map_iff. split.
    + intros (g & Hg & ->). exists g. split; [reflexivity | exact Hg].
    + intros (g & <- & Hg). exists g. split; [exact Hg | reflexivity].
Qed.

Lemma summaries_totals (rows : list StoredRow) :
  sum_Z (map rr_total_pop (summaries rows)) = sum_population (filter where_region rows).
Proof.
  unfold summaries. rewrite map_map. cbn [rr_total_pop summarise].
  change (map (fun key : string * Z => snd key) (group_keys (ranked rows)))
    with (map snd (group_keys (ranked rows))).
  rewrite (sum_Z_perm _ _ (Permutation_map snd (group_keys_perm rows))).
  assert (Hmap : map snd (map (fun g => (g, sum_population (rows_of_region g rows)))
                              (regions_of rows))
                 = map (fun g => sum_population (rows_of_region g rows)) (regions_of rows))
    by (rewrite map_map; reflexivity).
  rewrite Hmap.
  rewrite (sum_population_by_region (regions_of rows) rows (NoDup_nodup _ _)).
  f_equal. apply filter_ext_in. intros r Hr. apply in_some_region_iff. exact Hr.
Qed.

End Conservation.

Lemma sum_Z_bound (l : list Z) (x : Z) :
  Forall (fun y => 0 <= y) l -> In x l -> 0 <= x <= sum_Z l.
Proof.
  induction 1 as [|y l Hy Hall IH]; [intros []|].
  cbn [sum_Z fold_right]. fold (sum_Z l).
  assert (Hsum : 0 <= sum_Z l).
  { clear - Hall. induction Hall as [|z l Hz _ IHl]; cbn [sum_Z fold_right]; [lia|].
    fold (sum_Z l). lia. }
  intros [<- | Hin]; [lia|]. specialize (IH Hin). lia.
Qed.

Lemma mapM_map_Ok {A B C : Type} (f : B -> result C) (g : A -> B) (h : A -> C)
    (l : list A) :
  (forall x, In x l -> f (g x) = Ok (h x)) -> mapM f (map g l) = Ok (map h l).
Proof.
  induction l as [|x l IH]; intros H; cbn [map mapM]; [reflexivity|].
  rewrite (H x (or_introl eq_refl)), IH; [reflexivity|].
  intros y Hy. apply H. right. exact Hy.
Qed.

(** X14.  Nothing is lost or counted twice by the grouping.  When no
    population is negative and the populations of the rows that have a region
    (neither null nor empty) add up to less than 2^53, every total of the
    report is an integer, and these integers add up to that sum, whatever the
    engine.  (Beyond 2^53 the totals are rounded, each on its own.) *)
Theorem report_totals_add_up (E : Engine) (rows : list StoredRow) :
  (forall r, In r rows -> 0 <= population (fields r)) ->
  sum_Z (map (fun r => population (fields r)) (filter where_region rows)) < 2 ^ 53 ->
  exists totals,
    int_totals (aggregate_rows rows) = Ok totals
    /\ sum_Z totals
       = sum_Z (map (fun r => population (fields r)) (filter where_region rows)).
Proof.
  intros Hnonneg Hsmall.
  exists (map rr_total_pop (result_set rows)).
  assert (Hsum : sum_Z (map rr_total_pop (result_set rows))
                 = sum_Z (map (fun r => population (fields r))
                              (filter where_region rows))).
  { rewrite (sum_Z_perm _ _ (Permutation_map rr_total_pop (result_set_perm rows))).
    rewrite summaries_totals, <- sum_population_arithmetic.
    apply sum_population_filter_perm, seq_scan_perm. }
  split; [|exact Hsum].
  assert (Hall : Forall (fun y => 0 <= y) (map rr_total_pop (result_set rows))).
  { apply Forall_forall. intros y Hy. apply in_map_iff in Hy.
    destruct Hy as (s & <- & Hs). rewrite (result_set_total E rows s Hs).
    unfold populations_of.
    assert (Hrows : Forall (fun y => 0 <= y)
                      (map (fun r => population (fields r))
                           (rows_of_region (rr_region s) rows))).
    { apply Forall_forall. intros y Hy. apply in_map_iff in Hy.
      destruct Hy as (r & <- & Hr). apply Hnonneg.
      apply filter_In in Hr. tauto. }
    clear - Hrows. induction Hrows as [|z l Hz _ IHl]; cbn [sum_Z fold_right]; [lia|].
    fold (sum_Z l). lia. }
  unfold int_totals, aggregate_rows. apply mapM_map_Ok.
  intros s Hs. cbn [coerce_float total_population]. apply int_of_float_of_Z.
  pose proof (sum_Z_bound _ (rr_total_pop s) Hall (in_map rr_total_pop _ s Hs)) as Hb.
  rewrite Hsum in Hb. lia.
Qed.

Lemma report_totals_add_up_witness :
  exists totals,
    int_totals (aggregate_rows (E := heap_order_engine) census) = Ok totals
    /\ sum_Z totals
       = sum_Z (map (fun r => population (fields r)) (filter where_region census)).
Proof.
  apply (report_totals_add_up heap_order_engine census).
  - intros r Hr. repeat (destruct Hr as [<- | Hr]; [cbn; lia|]). destruct Hr.
  - vm_compute. reflexivity.
Defined.

(** X15.  The numbers of the report do not depend on the engine: two engines
    give, for every region, the same total, the same greatest and the same
    least population; only the country named among tied rows, and the order
    of regions with equal totals, are the engine's. *)
Theorem report_numbers_engine_independent
    (E1 E2 : Engine) (rows : list StoredRow) (s1 : RegionSummary) :
  In s1 (aggregate_rows (E := E1) rows) ->
  exists s2,
    In s2 (aggregate_rows (E := E2) rows)
    /\ rs_region s2 = rs_region s1
    /\ total_population s2 = total_population s1
    /\ population_max s2 = population_max s1
    /\ population_min s2 = population_min s1.
Proof.
  intros Hs1.
  assert (Hregion : In (rs_region s1) (map rs_region (aggregate_rows (E := E2) rows))).
  { apply (aggregate_rows_regions_iff (E := E2)), (scanned_regions_iff (E := E2)).
    apply (scanned_regions_iff (E := E1)), (aggregate_rows_regions_iff (E := E1)).
    apply in_map. exact Hs1. }
  apply in_map_iff in Hregion. destruct Hregion as (s2 & Hg & Hs2).
  exists s2. split; [exact Hs2|]. split; [exact Hg|].
  destruct (aggregate_rows_row (E := E1) rows s1 Hs1)
    as (Ht1 & (hi1 & Hhi1 & _ & Hmax1 & Hle1) & (lo1 & Hlo1 & _ & Hmin1 & Hge1)).
  destruct (aggregate_rows_row (E := E2) rows s2 Hs2)
    as (Ht2 & (hi2 & Hhi2 & _ & Hmax2 & Hle2) & (lo2 & Hlo2 & _ & Hmin2 & Hge2)).
  rewrite Hg in *.
  split; [congruence|]. split.
  - rewrite Hmax1, Hmax2. f_equal.
    pose proof (Hle1 hi2 Hhi2). pose proof (Hle2 hi1 Hhi1). lia.
  - rewrite Hmin1, Hmin2. f_equal.
    pose proof (Hge1 lo2 Hlo2). pose proof (Hge2 lo1 Hlo1). lia.
Qed.

Lemma report_numbers_engine_independent_witness :
  exists s2,
    In s2 (aggregate_rows (E := reversing_engine) tied)
    /\ rs_region s2 = "X"
    /\ total_population s2 = 80%float
    /\ population_max s2 = Some 30
    /\ population_min s2 = Some 10.
Proof.
  apply (report_numbers_engine_independent heap_order_engine reversing_engine tied tied_row).
  vm_compute. left. reflexivity.
Defined.

(** * The page

    The data flow of [main]: the reload button, the read for the first tab
    with its table of the ten most populous countries and its report, and the
    country selection of the second tab.  Drawing (the charts, the tables, the
    widgets themselves) is left out; what the widgets are given and what the
    user is told is kept. *)

(** What [main] tells the user, beside what the functions it calls report. *)
Inductive page_event : Type :=
| reported (ev : ui_event)
| sidebar_success (msg : string)
| sidebar_error (msg : string)
| cache_data_clear
| st_warning (msg : string)
| st_info (msg : string).

(** [str(n)] for a length. *)
Definition str_of_nat (n : nat) : string := NilZero.string_of_uint (Nat.to_uint n).

(** ** The reload button

    [df_api = fetch_api_data()], and unless the frame is empty,
    [db.save_data(df_api)] under a handler that shows the exception in the
    side bar.  The rows of the fetched frame are the parameter tuples of the
    insert; [None] stands for a fetched frame with a cell outside the typed
    store. *)
Definition reload_button (net : Network) (self : DatabaseManager)
  : option (DatabaseManager * list page_event) :=
  let (df_api, evs) := fetch_api_data net in
  if negb (df_empty df_api) then
    match parameter_frame df_api with
    | None => None
    | Some tuples =>
        match save_data tuples self with
        | (Ok _, self') =>
            Some (self',
                  (map reported evs
                   ++ [sidebar_success
                         ("✅ Успішно оновлено! (" ++ str_of_nat (df_len df_api)
                          ++ " країн)");
                       cache_data_clear])%list)
        | (Raise e, self') =>
            Some (self',
                  (map reported evs
                   ++ [sidebar_error ("Помилка запису в БД: " ++ exn_str e)])%list)
        end
    end
  else Some (self, map reported evs).

(** ** The first tab *)

Definition lift {A : Type} (r : result A) : M A := fun self => (r, self).

(** [try: df_db = db.get_all_data() except Exception: df_db = pd.DataFrame()] *)
Definition read_df_db {E : Engine} : M (DataFrame CountryRecord) :=
  fun self =>
    match get_all_data self with
    | (Ok df, self') => (Ok df, self')
    | (Raise _, self') => (Ok empty_frame, self')
    end.

(** [df_db.sort_values(by="population", ascending=False).head(10)], then the
    columns [name] and [population] of it. *)
Definition top_10 {S : Sorter} (df_db : DataFrame CountryRecord)
  : result (list (option string * Z)) :=
  sorted <- sort_values "population" (fun r => - population r) df_db ;;
  Ok (map (fun r => (name r, population r)) (firstn 10 (records sorted))).

(** What the first tab shows. *)
Inductive tab1_view : Type :=
| database_empty (warning : page_event)
| charts (df_db : DataFrame CountryRecord) (top : list (option string * Z))
         (df_agg : option (DataFrame RegionSummary)).

Definition empty_warning : string :=
  "⚠️ База даних порожня. Натисніть 'Оновити базу' в сайдбарі.".

(** The first tab: after the guarded read, the two further calls are outside
    any handler. *)
Definition tab1 {E : Engine} {S : Sorter} : M (DataFrame CountryRecord * tab1_view) :=
  df_db <<- read_df_db ;;
  if df_empty df_db then ret (df_db, database_empty (st_warning empty_warning))
  else
    top <<- lift (top_10 df_db) ;;
    df_agg <<- get_aggregated_stats ;;
    ret (df_db, charts df_db top (if negb (df_empty df_agg) then Some df_agg else None)).

(** ** The second tab: choosing a country *)

(** Equality of two names, either of which may be [None]. *)
Definition key_eqb (a b : option string) : bool :=
  match a, b with
  | Some x, Some y => String.eqb x y
  | None, None => true
  | _, _ => false
  end.

(** [d[k] = v] on a dictionary kept in insertion order: an existing key keeps
    its place and takes the new value. *)
Fixpoint dict_set (d : list (option string * option string))
    (k v : option string) : list (option string * option string) :=
  match d with
  | [] => [(k, v)]
  | (k', v') :: d' =>
      if key_eqb k' k then (k', v) :: d' else (k', v') :: dict_set d' k v
  end.

(** [dict(pairs)] *)
Definition py_dict (pairs : list (option string * option string))
  : list (option string * option string) :=
  fold_left (fun d kv => dict_set d (fst kv) (snd kv)) pairs [].

(** [zip(a, b)] *)
Definition zip {A B : Type} (a : list A) (b : list B) : list (A * B) := combine a b.

(** [dict(zip(df_db["name"], df_db["cca2"]))] *)
Definition country_options (df_db : DataFrame CountryRecord)
  : list (option string * option string) :=
  py_dict (zip (map name (records df_db)) (map cca2 (records df_db))).

(** [list(country_options.keys())] *)
Definition keys_list (options : list (option string * option string))
  : list (option string) :=
  map fst options.

(** [x in l] *)
Definition py_in (x : option string) (l : list (option string)) : bool :=
  existsb (key_eqb x) l.

(** [l.index(x)] *)
Fixpoint list_index (x : option string) (l : list (option string)) : result nat :=
  match l with
  | [] => Raise (ValueError "'Ukraine' is not in list")
  | y :: l' => if key_eqb y x then Ok 0%nat else i <- list_index x l' ;; Ok (S i)
  end.

(** The index the select box starts at. *)
Definition default_idx (keys : list (option string)) : result nat :=
  if py_in (Some "Ukraine") keys then list_index (Some "Ukraine") keys else Ok 0%nat.

Definition repr_key (k : option string) : string :=
  match k with
  | Some s => s
  | None => "None"
  end.

(** [country_options[selected_country_name]] *)
Fixpoint dict_getitem (options : list (option string * option string))
    (k : option string) : result (option string) :=
  match options with
  | [] => Raise (KeyError (repr_key k))
  | (k', v) :: rest => if key_eqb k' k then Ok v else dict_getitem rest k
  end.

(** ** Properties of the country selection *)

Lemma key_eqb_eq (a b : option string) : key_eqb a b = true <-> a = b.
Proof.
  destruct a as [x|], b as [y|]; cbn [key_eqb];
    try (split; [discriminate | intros H; discriminate H]).
  - rewrite String.eqb_eq. split; [intros ->; reflexivity | intros H; injection H as ->; reflexivity].
  - split; reflexivity.
Qed.

Lemma key_eqb_neq (a b : option string) : key_eqb a b = false <-> a <> b.
Proof.
  split.
  - intros H Heq. apply key_eqb_eq in Heq. congruence.
  - intros H. destruct (key_eqb a b) eqn:E; [|reflexivity].
    apply key_eqb_eq in E. contradiction.
Qed.

Definition key_dec (a b : option string) : {a = b} + {a <> b}.
Proof. decide equality. apply string_dec. Defined.

Lemma dict_set_keys_In (d : list (option string * option string)) (k v k' : option string) :
  In k' (map fst (dict_set d k v)) <-> In k' (map fst d) \/ k' = k.
Proof.
  induction d as [|[k0 v0] d IH]; cbn [dict_set map fst In].
  - split; [intros [H|[]]; right; congruence | intros [[]|H]; left; congruence].
  - destruct (key_eqb k0 k) eqn:Hk; cbn [map fst In].
    + apply key_eqb_eq in Hk. subst k0. split; [tauto|].
      intros [H | ->]; [exact H | left; reflexivity].
    + rewrite IH. tauto.
Qed.

Lemma dict_set_keys_NoDup (d : list (option string * option string)) (k v : option string) :
  NoDup (map fst d) -> NoDup (map fst (dict_set d k v)).
Proof.
  induction d as [|[k0 v0] d IH]; cbn [dict_set map fst]; intros Hnd.
  - constructor; [intros [] | constructor].
  - apply NoDup_cons_iff in Hnd. destruct Hnd as [Hnotin Hnd].
    destruct (key_eqb k0 k) eqn:Hk; cbn [map fst].
    + constructor; assumption.
    + constructor; [|apply IH; exact Hnd].
      rewrite dict_set_keys_In. intros [H | H]; [contradiction|].
      apply key_eqb_neq in Hk. contradiction.
Qed.

Lemma dict_getitem_set_same (d : list (option string * option string)) (k v : option string) :
  dict_getitem (dict_set d k v) k = Ok v.
Proof.
  induction d as [|[k0 v0] d IH]; cbn [dict_set dict_getitem].
  - assert (H : key_eqb k k = true) by (apply key_eqb_eq; reflexivity).
    rewrite H. reflexivity.
  - destruct (key_eqb k0 k) eqn:Hk; cbn [dict_getitem]; rewrite Hk; [reflexivity | exact IH].
Qed.

Lemma dict_getitem_set_other (d : list (option string * option string))
    (k v k' : option string) :
  k' <> k -> dict_getitem (dict_set d k v) k' = dict_getitem d k'.
Proof.
  intros Hne. induction d as [|[k0 v0] d IH]; cbn [dict_set dict_getitem].
  - assert (H : key_eqb k k' = false) by (apply key_eqb_neq; congruence).
    rewrite H. reflexivity.
  - destruct (key_eqb k0 k) eqn:Hk; cbn [dict_getitem].
    + apply key_eqb_eq in Hk. subst k0.
      assert (H : key_eqb k k' = false) by (apply key_eqb_neq; congruence).
      rewrite H. reflexivity.
    + destruct (key_eqb k0 k'); [reflexivity | exact IH].
Qed.

(** The dictionary built from [d] by the assignments of [pairs], in order. *)
Definition dict_update (d pairs : list (option string * option string))
  : list (option string * option string) :=
  fold_left (fun d kv => dict_set d (fst kv) (snd kv)) pairs d.

Lemma dict_update_cons (d pairs : list (option string * option string))
    (k v : option string) :
  dict_update d ((k, v) :: pairs) = dict_update (dict_set d k v) pairs.
Proof. reflexivity. Qed.

Lemma dict_update_keys_In (pairs d : list (option string * option string))
    (k : option string) :
  In k (map fst (dict_update d pairs)) <-> In k (map fst d) \/ In k (map fst pairs).
Proof.
  revert d. induction pairs as [|[k0 v0] pairs IH]; intros d.
  - cbn. tauto.
  - rewrite dict_update_cons, IH, dict_set_keys_In. cbn [map fst In].
    split; [intros [[H|H]|H] | intros [H|[H|H]]]; auto.
Qed.

Lemma dict_update_keys_NoDup (pairs d : list (option string * option string)) :
  NoDup (map fst d) -> NoDup (map fst (dict_update d pairs)).
Proof.
  revert d. induction pairs as [|[k0 v0] pairs IH]; intros d Hnd; [exact Hnd|].
  rewrite dict_update_cons. apply IH, dict_set_keys_NoDup, Hnd.
Qed.

Lemma dict_update_getitem_absent (pairs d : list (option string * option string))
    (k : option string) :
  ~ In k (map fst pairs) ->
  dict_getitem (dict_update d pairs) k = dict_getitem d k.
Proof.
  revert d. induction pairs as [|[k0 v0] pairs IH]; intros d Hnotin; [reflexivity|].
  cbn [map fst In] in Hnotin.
  rewrite dict_update_cons, IH by tauto.
  apply dict_getitem_set_other. intros ->. tauto.
Qed.

Lemma dict_update_app (d pre post : list (option string * option string)) :
  dict_update d (pre ++ post) = dict_update (dict_update d pre) post.
Proof. unfold dict_update. apply fold_left_app. Qed.

Lemma dict_update_getitem_last (pre post d : list (option string * option string))
    (k v : option string) :
  ~ In k (map fst post) ->
  dict_getitem (dict_update d (pre ++ (k, v) :: post)) k = Ok v.
Proof.
  intros Hnotin. rewrite dict_update_app, dict_update_cons.
  rewrite (dict_update_getitem_absent post _ k Hnotin).
  apply dict_getitem_set_same.
Qed.

Lemma zip_names_codes (rows : list CountryRecord) :
  zip (map name rows) (map cca2 rows) = map (fun r => (name r, cca2 r)) rows.
Proof.
  unfold zip. induction rows as [|r rows IH]; cbn [map combine]; [reflexivity|].
  rewrite IH. reflexivity.
Qed.

Lemma country_options_keys_names (df_db : DataFrame CountryRecord) :
  map fst (zip (map name (records df_db)) (map cca2 (records df_db)))
  = map name (records df_db).
Proof. rewrite zip_names_codes, map_map. reflexivity. Qed.

(** The last row that has a given name. *)
Lemma last_row_named (rows : list CountryRecord) (k : option string) :
  In k (map name rows) ->
  exists pre r post,
    rows = (pre ++ r :: post)%list /\ name r = k /\ Forall (fun r' => name r' <> k) post.
Proof.
  induction rows as [|r0 rows IH]; cbn [map In]; [intros []|].
  intros H. destruct (in_dec key_dec k (map name rows)) as [Hin | Hnotin].
  - destruct (IH Hin) as (pre & r & post & -> & Hname & Hpost).
    exists (r0 :: pre), r, post. repeat split; assumption.
  - destruct H as [H | H]; [|contradiction].
    exists [], r0, rows. split; [reflexivity|]. split; [exact H|].
    apply Forall_forall. intros r' Hr' Heq. apply Hnotin.
    apply in_map_iff. exists r'. split; assumption.
Qed.

(** X16.  The select box lists every name of the frame exactly once: the keys
    of [country_options] are pairwise distinct and are the names that occur in
    [df_db]. *)
Theorem country_options_keys (df_db : DataFrame CountryRecord) :
  NoDup (keys_list (country_options df_db))
  /\ forall k, In k (keys_list (country_options df_db))
               <-> exists r, In r (records df_db) /\ name r = k.
Proof.
  unfold keys_list, country_options, py_dict.
  fold (dict_update [] (zip (map name (records df_db)) (map cca2 (records df_db)))).
  split.
  - apply dict_update_keys_NoDup. constructor.
  - intros k. rewrite dict_update_keys_In, country_options_keys_names.
    cbn [map In]. split.
    + intros [[] | Hin]. apply in_map_iff in Hin.
      destruct Hin as (r & Hname & Hin). exists r. split; assumption.
    + intros (r & Hin & Hname). right. apply in_map_iff. exists r. split; assumption.
Qed.

(** X17.  Looking up a listed name never fails, and when several rows share a
    name the code used is that of the last of them: for every key of
    [country_options], the lookup returns the [cca2] of the last row of
    [df_db] with that name. *)
Theorem country_options_last_row_wins
    (df_db : DataFrame CountryRecord) (k : option string) :
  In k (keys_list (country_options df_db)) ->
  exists pre r post,
    records df_db = (pre ++ r :: post)%list
    /\ name r = k
    /\ Forall (fun r' => name r' <> k) post
    /\ dict_getitem (country_options df_db) k = Ok (cca2 r).
Proof.
  intros Hk.
  assert (Hin : In k (map name (records df_db))).
  { unfold keys_list, country_options, py_dict in Hk.
    fold (dict_update [] (zip (map name (records df_db)) (map cca2 (records df_db))))
      in Hk.
    rewrite dict_update_keys_In, country_options_keys_names in Hk.
    destruct Hk as [[] | Hk]. exact Hk. }
  destruct (last_row_named (records df_db) k Hin) as (pre & r & post & Hrows & Hname & Hpost).
  exists pre, r, post. split; [exact Hrows|]. split; [exact Hname|]. split; [exact Hpost|].
  unfold country_options, py_dict.
  fold (dict_update [] (zip (map name (records df_db)) (map cca2 (records df_db)))).
  rewrite zip_names_codes, Hrows, map_app. cbn [map]. rewrite Hname.
  apply dict_update_getitem_last.
  rewrite map_map. cbn [fst]. intros Hbad. apply in_map_iff in Hbad.
  destruct Hbad as (r' & Hr' & Hin').
  rewrite Forall_forall in Hpost. apply (Hpost r' Hin'). exact Hr'.
Qed.

Definition two_congos : DataFrame CountryRecord :=
  frame_of [ {| name := Some "Congo"; cca2 := Some "CG"; cca3 := Some "COG";
                region := Some "Africa"; population := 5; area := 1%float |};
             {| name := Some "Ukraine"; cca2 := Some "UA"; cca3 := Some "UKR";
                region := Some "Europe"; population := 44; area := 1%float |};
             {| name := Some "Congo"; cca2 := Some "CD"; cca3 := Some "COD";
                region := Some "Africa"; population := 90; area := 1%float |} ].

Lemma country_options_last_row_wins_witness :
  exists pre r post,
    records two_congos = (pre ++ r :: post)%list
    /\ name r = Some "Congo"
    /\ Forall (fun r' => name r' <> Some "Congo") post
    /\ dict_getitem (country_options two_congos) (Some "Congo") = Ok (cca2 r).
Proof.
  apply (country_options_last_row_wins two_congos (Some "Congo")).
  vm_compute. left. reflexivity.
Defined.

Lemma py_in_iff (x : option string) (l : list (option string)) :
  py_in x l = true <-> In x l.
Proof.
  unfold py_in. rewrite existsb_exists. split.
  - intros (y & Hy & Heq). apply key_eqb_eq in Heq. subst y. exact Hy.
  - intros H. exists x. split; [exact H | apply key_eqb_eq; reflexivity].
Qed.

Lemma list_index_found (x : option string) (l : list (option string)) :
  In x l ->
  exists i, list_index x l = Ok i
            /\ nth_error l i = Some x
            /\ forall j, (j < i)%nat -> nth_error l j <> Some x.
Proof.
  induction l as [|y l IH]; [intros []|].
  intros Hin. cbn [list_index].
  destruct (key_eqb y x) eqn:Hy.
  - apply key_eqb_eq in Hy. subst y. exists 0%nat.
    split; [reflexivity|]. split; [reflexivity|]. intros j Hj. lia.
  - apply key_eqb_neq in Hy. destruct Hin as [Heq | Hin]; [contradiction|].
    destruct (IH Hin) as (i & Hidx & Hnth & Hfirst).
    exists (S i). rewrite Hidx. split; [reflexivity|]. split; [exact Hnth|].
    intros [|j] Hj; cbn [nth_error].
    + intros H. injection H as H. contradiction.
    + apply Hfirst. lia.
Qed.

(** X18.  The select box always gets an index: [default_idx] never raises;
    when "Ukraine" is among the names it is the position of its first
    occurrence, so the box starts on Ukraine, and otherwise it is 0. *)
Theorem default_idx_selects_ukraine (keys : list (option string)) :
  exists i,
    default_idx keys = Ok i
    /\ (In (Some "Ukraine") keys ->
        nth_error keys i = Some (Some "Ukraine")
        /\ forall j, (j < i)%nat -> nth_error keys j <> Some (Some "Ukraine"))
    /\ (~ In (Some "Ukraine") keys -> i = 0%nat).
Proof.
  unfold default_idx.
  destruct (py_in (Some "Ukraine") keys) eqn:Hin.
  - apply py_in_iff in Hin.
    destruct (list_index_found _ _ Hin) as (i & Hidx & Hnth & Hfirst).
    exists i. split; [exact Hidx|]. split.
    + intros _. split; assumption.
    + intros Hnot. contradiction.
  - exists 0%nat. split; [reflexivity|]. split.
    + intros H. apply py_in_iff in H. congruence.
    + reflexivity.
Qed.

(** ** Properties of the first tab *)

Lemma StronglySorted_app_inv {A : Type} (R : A -> A -> Prop) (l1 l2 : list A) :
  StronglySorted R (l1 ++ l2) ->
  StronglySorted R l1
  /\ StronglySorted R l2
  /\ forall a b, In a l1 -> In b l2 -> R a b.
Proof.
  induction l1 as [|x l1 IH]; cbn [app]; intros H.
  - split; [constructor|]. split; [exact H|]. intros a b [].
  - apply StronglySorted_inv in H. destruct H as [Hs Hall].
    destruct (IH Hs) as (H1 & H2 & H12).
    rewrite Forall_forall in Hall.
    split; [|split; [exact H2|]].
    + constructor; [exact H1|]. apply Forall_forall. intros y Hy.
      apply Hall, in_or_app. left. exact Hy.
    + intros a b [<- | Ha] Hb; [|apply H12; assumption].
      apply Hall, in_or_app. right. exact Hb.
Qed.

(** X19.  The table of the first tab shows the most populous countries: of a
    frame with the columns of the store, [top_10] keeps ten rows, or all when
    there are fewer, in descending order of population, every row kept having
    at least the population of every row left out; no row is shown twice. *)
Theorem top_10_most_populous (S : Sorter) (df_db : DataFrame CountryRecord) :
  columns df_db = country_columns ->
  exists kept left,
    top_10 df_db = Ok (map (fun r => (name r, population r)) kept)
    /\ Permutation (kept ++ left) (records df_db)
    /\ List.length kept = Nat.min 10 (List.length (records df_db))
    /\ StronglySorted (fun a b => population b <= population a) kept
    /\ forall a b, In a kept -> In b left -> population b <= population a.
Proof.
  intros Hcols.
  set (sorted := sort_by (fun r : CountryRecord => - population r) (records df_db)).
  exists (firstn 10 sorted), (skipn 10 sorted).
  pose proof (sort_by_perm CountryRecord (fun r => - population r) (records df_db)) as Hperm.
  pose proof (sort_by_sorted CountryRecord (fun r => - population r) (records df_db)) as Hs.
  fold sorted in Hperm, Hs.
  rewrite <- (firstn_skipn 10 sorted) in Hs.
  apply StronglySorted_app_inv in Hs. destruct Hs as (Hkept & _ & Hcross).
  split; [|split; [|split; [|split]]].
  - unfold top_10, sort_values. rewrite Hcols. reflexivity.
  - rewrite firstn_skipn. exact Hperm.
  - rewrite length_firstn, (Permutation_length Hperm). reflexivity.
  - eapply StronglySorted_weaken; [|exact Hkept].
    unfold key_le. intros x y H. lia.
  - intros a b Ha Hb. specialize (Hcross a b Ha Hb). unfold key_le in Hcross. lia.
Qed.

Lemma top_10_most_populous_witness :
  exists kept left,
    top_10 (S := stable_sorter) two_congos
    = Ok (map (fun r => (name r, population r)) kept)
    /\ Permutation (kept ++ left) (records two_congos)
    /\ List.length kept = Nat.min 10 (List.length (records two_congos))
    /\ StronglySorted (fun a b => population b <= population a) kept
    /\ forall a b, In a kept -> In b left -> population b <= population a.
Proof.
  apply (top_10_most_populous stable_sorter two_congos). reflexivity.
Defined.

Lemma get_all_data_cases (E : Engine) (self : DatabaseManager) :
  (exists c t, conn self = Some c /\ usable c /\ seen_by c = Some t)
  \/ (exists e self', get_all_data self = (Raise e, self')
                      /\ committed_rows self' = committed_rows self).
Proof.
  destruct self as [h d u p [[cm [|w|]]|]].
  - destruct cm as [t|].
    + left. eexists. exists t. split; [reflexivity|]. split; [discriminate | reflexivity].
    + right. eexists. eexists. split; reflexivity.
  - destruct w as [t|].
    + left. eexists. exists t. split; [reflexivity|]. split; [discriminate | reflexivity].
    + right. eexists. eexists. split; reflexivity.
  - right. eexists. eexists. split; reflexivity.
  - right. eexists. eexists. split; reflexivity.
Qed.

Lemma committed_rows_with_conn (self : DatabaseManager) (c c' : Connection) :
  conn self = Some c ->
  committed c' = committed c ->
  committed_rows (with_conn self (Some c')) = committed_rows self.
Proof.
  intros Hconn Hc. unfold committed_rows, with_conn. cbn [conn]. rewrite Hconn, Hc.
  reflexivity.
Qed.

(** X20.  The first tab never raises, in any state of the manager, although
    its sort and its report are outside any handler: whenever the guarded
    read fails or returns no row the tab shows the empty-database warning
    (so also when there is no connection at all), and otherwise the read has
    left a usable transaction in which the report succeeds.  The tab leaves
    the stored rows as they were. *)
Theorem tab1_returns (E : Engine) (S : Sorter) (self : DatabaseManager) :
  exists df_db view self',
    tab1 self = (Ok (df_db, view), self')
    /\ committed_rows self' = committed_rows self
    /\ (conn self = None -> view = database_empty (st_warning empty_warning))
    /\ match view with
       | database_empty w => w = st_warning empty_warning /\ records df_db = []
       | charts shown top _ =>
           shown = df_db /\ records df_db <> [] /\ top_10 df_db = Ok top
       end.
Proof.
  destruct (get_all_data_cases E self)
    as [(c & t & Hconn & Husable & Hseen) | (e & self' & Hread & Hrows)].
  - pose proof (get_all_data_usable E self c t Hconn Husable Hseen) as Hread.
    set (c1 := {| committed := committed c; status := InTransaction (Some t) |}) in *.
    set (df := {| columns := country_columns;
                  records := map fields (seq_scan (heap t)) |}) in *.
    unfold tab1, bindM, read_df_db. rewrite Hread.
    destruct (records df) as [|r rows] eqn:Hrec.
    + unfold df_empty. rewrite Hrec. unfold ret.
      exists df, (database_empty (st_warning empty_warning)), (with_conn self (Some c1)).
      split; [reflexivity|].
      split; [apply (committed_rows_with_conn self c c1 Hconn eq_refl)|].
      split; [reflexivity|]. split; [reflexivity | exact Hrec].
    + unfold df_empty. rewrite Hrec. unfold lift.
      assert (Htop : exists top, top_10 df = Ok top).
      { unfold top_10, sort_values. cbn [columns df]. eexists. reflexivity. }
      destruct Htop as (top & Htop). rewrite Htop.
      pose proof (get_aggregated_stats_usable (with_conn self (Some c1)) c1 t
                    eq_refl ltac:(discriminate) eq_refl) as Hagg.
      rewrite Hagg. unfold ret.
      eexists. eexists. eexists. split; [reflexivity|].
      split.
      * unfold committed_rows, with_conn. cbn [conn committed c1]. rewrite Hconn.
        reflexivity.
      * split; [intros Hnone; congruence|].
        split; [reflexivity|]. split; [rewrite Hrec; discriminate | exact Htop].
  - unfold tab1, bindM, read_df_db. rewrite Hread. cbn [df_empty empty_frame records].
    unfold ret.
    exists empty_frame, (database_empty (st_warning empty_warning)), self'.
    split; [reflexivity|]. split; [exact Hrows|].
    split; [reflexivity|]. split; reflexivity.
Qed.

(** ** Properties of the reload button *)

(** X21.  A failed exchange with the primary source never touches the store:
    the reload leaves the manager, and with it the table, exactly as it was
    (no truncation), and the only thing shown is the error of the fetch. *)
Theorem reload_after_failed_exchange (net : Network) (self : DatabaseManager) (e : exn) :
  exchange_fails net restcountries_url e ->
  reload_button net self
  = Some (self, [reported (st_error ("Error fetching API: " ++ exn_str e))]).
Proof.
  intros Hfail.
  assert (Hfetch : fetch_api_data net
                   = (empty_frame, [st_error ("Error fetching API: " ++ exn_str e)])).
  { unfold fetch_api_data.
    destruct Hfail as [Hget | (response & Hget & [Hstatus | [Hstatus Hjson]])];
      rewrite Hget; cbn [bind].
    - reflexivity.
    - rewrite Hstatus. reflexivity.
    - rewrite Hstatus. cbn [bind]. rewrite Hjson. reflexivity. }
  unfold reload_button. rewrite Hfetch. reflexivity.
Qed.

Definition unreachable : Network := fun _ => Raise (RequestException "ConnectionError").

Lemma reload_after_failed_exchange_witness :
  reload_button unreachable (manager_with three_rows 3)
  = Some (manager_with three_rows 3,
          [reported (st_error "Error fetching API: ConnectionError")]).
Proof.
  apply (reload_after_failed_exchange unreachable (manager_with three_rows 3)
           (RequestException "ConnectionError")).
  left. reflexivity.
Defined.






(** ** The extremes of one row of the report *)

(** X24.  In every row of the report the least population is at most the
    greatest, and the two coincide exactly when all the rows of the region
    have the same population (in particular when the region has one row). *)
Theorem report_row_extremes (E : Engine) (rows : list StoredRow) (s : RegionSummary) :
  In s (aggregate_rows rows) ->
  exists lo hi,
    population_min s = Some lo
    /\ population_max s = Some hi
    /\ lo <= hi
    /\ (lo = hi <->
        forall r r', In r (rows_of_region (rs_region s) rows) ->
                     In r' (rows_of_region (rs_region s) rows) ->
                     population (fields r) = population (fields r')).
Proof.
  intros Hs.
  destruct (aggregate_rows_row rows s Hs)
    as (_ & (rhi & Hhi & _ & Hmax & Hle) & (rlo & Hlo & _ & Hmin & Hge)).
  exists (population (fields rlo)), (population (fields rhi)).
  split; [exact Hmin|]. split; [exact Hmax|]. split; [apply Hle; exact Hlo|].
  split.
  - intros Heq r r' Hr Hr'.
    pose proof (Hle r Hr). pose proof (Hge r Hr).
    pose proof (Hle r' Hr'). pose proof (Hge r' Hr'). lia.
  - intros Hall. apply Hall; assumption.
Qed.

Lemma report_row_extremes_witness :
  exists lo hi,
    population_min tied_row = Some lo
    /\ population_max tied_row = Some hi
    /\ lo <= hi
    /\ (lo = hi <->
        forall r r', In r (rows_of_region (rs_region tied_row) tied) ->
                     In r' (rows_of_region (rs_region tied_row) tied) ->
                     population (fields r) = population (fields r')).
Proof.
  apply (report_row_extremes heap_order_engine tied tied_row).
  vm_compute. left. reflexivity.
Defined.
